(** * bitcoinjs-mcp-server: dispatch and validation layer

    A shallow embedding of the TypeScript sources (src/utils/bitcoin.ts,
    src/index.ts and the four tool modules) together with the properties
    the specification states about them.

    Conventions of the embedding.
    - A JavaScript string is a [string]: a sequence of code units below 256.
    - A JavaScript number that a handler only compares, passes on or reads
      from a parsed transaction (an index, an amount, a version) is the
      integer it holds, a [Z]; where a [parseInt] may give [NaN], that is
      [None].  Where the code does arithmetic on numbers (the size and fee
      estimates), a number is the binary64 double it is, a [float], and the
      operations are those of the doubles.
    - A function that may throw returns a [result]; the message of the
      thrown [Error] is kept verbatim.
    - The external code (bitcoinjs-lib, bip32, Node's base64 decoder and
      Number.prototype.toFixed) is an interface, the class [External]. *)

From Stdlib Require Import ZArith Floats Ascii String List Lia.
From Stdlib Require Import DecimalString DecimalN.
From stdpp Require Import base gmap strings list.

Local Open Scope Z_scope.

(** ** Thrown errors *)

Inductive result (A : Type) : Type :=
| Ok (value : A)
| Throw (message : string).
Arguments Ok {A} value.
Arguments Throw {A} message.

#[global] Instance result_ret : MRet result := fun A x => Ok x.
#[global] Instance result_bind : MBind result := fun A B f m =>
  match m with
  | Ok x => f x
  | Throw e => Throw e
  end.

Definition is_ok {A} (r : result A) : bool :=
  match r with Ok _ => true | Throw _ => false end.

(** [try { body } catch (error) { throw new Error(prefix + error.message) }] *)
Definition rethrow {A} (prefix : string) (r : result A) : result A :=
  match r with
  | Ok x => Ok x
  | Throw e => Throw (prefix +:+ e)
  end.

(** ** The JavaScript primitives the sources rely on *)

Module JS.

Definition chars (s : string) : list ascii := String.list_ascii_of_string s.

Definition code (c : ascii) : N := N_of_ascii c.

(** A range [lo-hi] of a character class. *)
Definition inRange (lo hi c : ascii) : bool :=
  (code lo <=? code c)%N && (code c <=? code hi)%N.

(** [a || b] on an optional string: the empty string is falsy. *)
Definition orDefault (o : option string) (d : string) : string :=
  match o with
  | Some EmptyString => d
  | Some s => s
  | None => d
  end.

(** The value of an optional string in a condition that goes on to use
    it: [None] when it is absent or empty. *)
Definition truthy (o : option string) : option string :=
  match o with
  | Some EmptyString => None
  | Some s => Some s
  | None => None
  end.

(** [!a] on an optional string. *)
Definition falsy (o : option string) : bool :=
  match o with
  | Some EmptyString => true
  | Some _ => false
  | None => true
  end.

(** String.prototype.toLowerCase on code units below 256: the ASCII
    capitals and the Latin-1 capitals U+00C0..U+00DE other than U+00D7. *)
Definition toLowerChar (c : ascii) : ascii :=
  let n := code c in
  if ((65 <=? n) && (n <=? 90))%N then ascii_of_N (n + 32)
  else if ((192 <=? n) && (n <=? 222) && negb (n =? 215))%N then ascii_of_N (n + 32)
  else c.

Fixpoint toLowerCase (s : string) : string :=
  match s with
  | EmptyString => EmptyString
  | String c r => String (toLowerChar c) (toLowerCase r)
  end.

(** Array.prototype.includes on an array of strings. *)
Definition includes (l : list string) (s : string) : bool :=
  existsb (String.eqb s) l.

(** String.prototype.endsWith with a one-character argument. *)
Definition endsWith (s : string) (c : ascii) : bool :=
  match rev (chars s) with
  | x :: _ => Ascii.eqb x c
  | [] => false
  end.

(** [s.slice(0, -1)]. *)
Definition dropLast (s : string) : string :=
  String.string_of_list_ascii (removelast (chars s)).

(** [s.split(sep)] for a one-character separator: never the empty array. *)
Fixpoint split_go (sep : ascii) (cur : list ascii) (s : list ascii) : list string :=
  match s with
  | [] => [String.string_of_list_ascii (rev cur)]
  | c :: r =>
      if Ascii.eqb c sep
      then String.string_of_list_ascii (rev cur) :: split_go sep [] r
      else split_go sep (c :: cur) r
  end.

Definition split (sep : ascii) (s : string) : list string :=
  split_go sep [] (chars s).

(** [s.replace(/^m\//, '')]: removes the two code units [m/] when the
    string starts with them, and nothing otherwise. *)
Definition stripPrefix_m_slash (s : string) : string :=
  match s with
  | String a (String b r) =>
      if Ascii.eqb a "m" && Ascii.eqb b "/" then r else s
  | _ => s
  end.

(** Number to string for a non-negative integer, as a template literal
    renders it. *)
Definition natToString (n : nat) : string :=
  NilEmpty.string_of_uint (Nat.to_uint n).

Definition NToString (n : N) : string :=
  NilEmpty.string_of_uint (N.to_uint n).

(** *** parseInt(s, 10) *)

(** WhiteSpace and LineTerminator code units below 256. *)
Definition isWhiteSpace (c : ascii) : bool :=
  let n := code c in
  ((n =? 9) || (n =? 10) || (n =? 11) || (n =? 12) || (n =? 13)
   || (n =? 32) || (n =? 160))%N.

Definition digitValue (c : ascii) : option Z :=
  if inRange "0" "9" c then Some (Z.of_N (code c) - 48) else None.

Fixpoint skipWhiteSpace (s : list ascii) : list ascii :=
  match s with
  | c :: r => if isWhiteSpace c then skipWhiteSpace r else s
  | [] => []
  end.

(** The value of the longest prefix of decimal digits, [acc] being the
    value of the digits already read; the flag tells whether any digit
    was read at all. *)
Fixpoint readDigits (acc : Z) (seen : bool) (s : list ascii) : option Z :=
  match s with
  | c :: r =>
      match digitValue c with
      | Some d => readDigits (10 * acc + d) true r
      | None => if seen then Some acc else None
      end
  | [] => if seen then Some acc else None
  end.

Definition parseInt (s : string) : option Z :=
  match skipWhiteSpace (chars s) with
  | "-"%char :: r => Z.opp <$> readDigits 0 false r
  | "+"%char :: r => readDigits 0 false r
  | r => readDigits 0 false r
  end.

(** *** Buffer.from(s, 'hex') *)

Definition hexValue (c : ascii) : option N :=
  if inRange "0" "9" c then Some (code c - 48)%N
  else if inRange "a" "f" c then Some (code c - 87)%N
  else if inRange "A" "F" c then Some (code c - 55)%N
  else None.

(** Node decodes pairs of hex digits and stops at the first pair that is
    not one; a trailing single character is dropped. *)
Fixpoint bufferFromHex_go (s : list ascii) : list Byte.byte :=
  match s with
  | a :: b :: r =>
      match hexValue a, hexValue b with
      | Some x, Some y =>
          match Byte.of_N (16 * x + y) with
          | Some byte => byte :: bufferFromHex_go r
          | None => []
          end
      | _, _ => []
      end
  | _ => []
  end.

Definition bufferFromHex (s : string) : list Byte.byte :=
  bufferFromHex_go (chars s).

(** *** buffer.toString('hex') *)

Definition hexDigit (n : N) : ascii :=
  if (n <? 10)%N then ascii_of_N (48 + n) else ascii_of_N (87 + n).

Definition byteToHex (b : Byte.byte) : list ascii :=
  let n := Byte.to_N b in [hexDigit (n / 16); hexDigit (n mod 16)].

Definition toHex (buf : list Byte.byte) : string :=
  String.string_of_list_ascii (concat (map byteToHex buf)).

(** Every code unit, for the checks that go through all of them. *)
Definition allAscii : list ascii := map ascii_of_nat (seq 0 256).

(** *** Numbers as doubles *)

(** The double nearest to an integer; the integer itself up to 2^53. *)
Definition Number (z : Z) : float :=
  SF2Prim (binary_normalize prec emax z 0 false).

(** [Math.ceil]: a double that is not finite, a zero, and a double without
    fraction bits (exponent at least 0) are returned as they are; otherwise
    the magnitude [m * 2^e] is cut to its whole part, and one is added
    above a positive number that had a fraction.  A negative number above
    -1 gives [-0]. *)
Definition Math_ceil (x : float) : float :=
  match Prim2SF x with
  | S754_finite negative m e =>
      if 0 <=? e then x
      else
        let whole := Z.shiftr (Z.pos m) (- e) in
        let fraction := negb (Z.shiftl whole (- e) =? Z.pos m) in
        if negative then (- Number whole)%float
        else Number (if fraction then whole + 1 else whole)
  | _ => x
  end.

End JS.

(** ** Regular expressions

    The sources test strings against anchored patterns ([^...$]).  A pattern
    is a [regex]; [test] decides a match of the whole string by taking
    derivatives, one per code unit. *)

Module RegExp.

Inductive regex : Type :=
| Never
| Eps
| Class (p : ascii → bool)
| Cat (r1 r2 : regex)
| Alt (r1 r2 : regex)
| Star (r : regex).

(** [r?], [r+] and [r{0,2}] in terms of the constructors. *)
Definition Opt (r : regex) : regex := Alt Eps r.
Definition Plus (r : regex) : regex := Cat r (Star r).
Definition UpTo2 (r : regex) : regex := Cat (Opt r) (Opt r).

Fixpoint nullable (r : regex) : bool :=
  match r with
  | Never => false
  | Eps => true
  | Class _ => false
  | Cat r1 r2 => nullable r1 && nullable r2
  | Alt r1 r2 => nullable r1 || nullable r2
  | Star _ => true
  end.

Fixpoint deriv (a : ascii) (r : regex) : regex :=
  match r with
  | Never => Never
  | Eps => Never
  | Class p => if p a then Eps else Never
  | Cat r1 r2 =>
      if nullable r1
      then Alt (Cat (deriv a r1) r2) (deriv a r2)
      else Cat (deriv a r1) r2
  | Alt r1 r2 => Alt (deriv a r1) (deriv a r2)
  | Star r1 => Cat (deriv a r1) (Star r1)
  end.

Fixpoint run (r : regex) (s : list ascii) : bool :=
  match s with
  | [] => nullable r
  | a :: s' => run (deriv a r) s'
  end.

(** [/^r$/.test(s)], and [s.match(/^r$/)] read as a condition. *)
Definition test (r : regex) (s : string) : bool := run r (JS.chars s).

(** The words a pattern denotes. *)
Inductive matches : regex → list ascii → Prop :=
| m_eps : matches Eps []
| m_class p a : p a = true → matches (Class p) [a]
| m_cat r1 r2 s1 s2 : matches r1 s1 → matches r2 s2 → matches (Cat r1 r2) (s1 ++ s2)
| m_alt_l r1 r2 s : matches r1 s → matches (Alt r1 r2) s
| m_alt_r r1 r2 s : matches r2 s → matches (Alt r1 r2) s
| m_star_nil r : matches (Star r) []
| m_star_cons r s1 s2 : matches r s1 → matches (Star r) s2 → matches (Star r) (s1 ++ s2).

(** The character classes of the sources. *)

(** [[0-9a-fA-F]] *)
Definition hexClass (c : ascii) : bool :=
  JS.inRange "0" "9" c || JS.inRange "a" "f" c || JS.inRange "A" "F" c.

(** [[A-Za-z0-9+/]] *)
Definition base64Class (c : ascii) : bool :=
  JS.inRange "A" "Z" c || JS.inRange "a" "z" c || JS.inRange "0" "9" c
  || Ascii.eqb c "+" || Ascii.eqb c "/".

(** [=] *)
Definition equalsSign (c : ascii) : bool := Ascii.eqb c "=".

(** [/^[0-9a-fA-F]*$/] *)
Definition hexStar : regex := Star (Class hexClass).

(** [/^[0-9a-fA-F]+$/] *)
Definition hexPlus : regex := Plus (Class hexClass).

(** [/^[A-Za-z0-9+/]*={0,2}$/] *)
Definition base64Pattern : regex :=
  Cat (Star (Class base64Class)) (UpTo2 (Class equalsSign)).

End RegExp.

(** ** src/utils/bitcoin.ts *)

Module Utils.

(** The three network objects of the library ([bitcoin.networks.bitcoin],
    [.testnet], [.regtest]). *)
Inductive Network : Type := bitcoin | testnet | regtest.

#[global] Instance Network_eq_dec : EqDecision Network.
Proof. solve_decision. Defined.

Record Networks : Type := {
  mainnet_ : Network;
  testnet_ : Network;
  regtest_ : Network
}.

Definition networks : Networks :=
  {| mainnet_ := bitcoin; testnet_ := testnet; regtest_ := regtest |}.

Definition getNetworkConfig (networkName : string) : result Network :=
  let lowered := JS.toLowerCase networkName in
  if String.eqb lowered "mainnet" then Ok (mainnet_ networks)
  else if String.eqb lowered "testnet" then Ok (testnet_ networks)
  else if String.eqb lowered "regtest" then Ok (regtest_ networks)
  else Throw ("Unsupported network: " +:+ networkName).

Definition validateNetwork (network : string) : bool :=
  JS.includes ["mainnet"; "testnet"; "regtest"] (JS.toLowerCase network).

Definition isValidHex (hex : string) : bool :=
  RegExp.test RegExp.hexStar hex && (String.length hex mod 2 =? 0)%nat.

(** The first two statements of every handler:
    [const networkName = args.network || 'testnet';
     if (!validateNetwork(networkName)) throw ...;
     const network = getNetworkConfig(networkName);] *)
Definition resolveNetwork (network : option string) : result Network :=
  let networkName := JS.orDefault network "testnet" in
  if negb (validateNetwork networkName)
  then Throw ("Invalid network: " +:+ networkName)
  else getNetworkConfig networkName.

End Utils.

(** ** The tool registries and the dispatcher (src/index.ts) *)

Module Registry.

(** A tool descriptor: its name, its description and, of its input
    schema, the names of the properties and of the required ones. *)
Record Tool : Type := {
  name : string;
  description : string;
  properties : list string;
  required : list string
}.

#[global] Instance Tool_eq_dec : EqDecision Tool.
Proof. solve_decision. Defined.

Definition addressTools : list Tool := [
  {| name := "generate_address";
     description := "Generate Bitcoin addresses of various types (P2PKH, P2SH, P2WPKH, P2WSH, P2TR)";
     properties := ["type"; "network"; "publicKey"; "redeemScript"; "witnessScript"];
     required := ["type"] |};
  {| name := "validate_address";
     description := "Validate Bitcoin address format and determine its properties";
     properties := ["address"; "network"];
     required := ["address"] |};
  {| name := "decode_address";
     description := "Decode Bitcoin address to reveal underlying script and information";
     properties := ["address"; "network"];
     required := ["address"] |};
  {| name := "address_from_script";
     description := "Generate address from a script";
     properties := ["script"; "network"; "type"];
     required := ["script"; "type"] |}
].

Definition transactionTools : list Tool := [
  {| name := "create_transaction";
     description := "Create a new Bitcoin transaction";
     properties := ["inputs"; "outputs"; "network"; "locktime"; "version"];
     required := ["inputs"; "outputs"] |};
  {| name := "decode_transaction";
     description := "Decode a raw transaction hex to readable format";
     properties := ["hex"; "network"];
     required := ["hex"] |};
  {| name := "sign_transaction";
     description := "Sign a transaction with provided private keys";
     properties := ["hex"; "privateKeys"; "network"];
     required := ["hex"; "privateKeys"] |};
  {| name := "estimate_transaction_fee";
     description := "Estimate transaction size and fee";
     properties := ["inputs"; "outputs"; "feeRate"; "inputType"];
     required := ["inputs"; "outputs"; "feeRate"] |};
  {| name := "broadcast_transaction";
     description := "Validate transaction format (does not actually broadcast)";
     properties := ["hex"; "network"];
     required := ["hex"] |}
].

Definition psbtTools : list Tool := [
  {| name := "create_psbt";
     description := "Create a new Partially Signed Bitcoin Transaction (PSBT)";
     properties := ["inputs"; "outputs"; "network"; "version"; "locktime"];
     required := ["inputs"; "outputs"] |};
  {| name := "decode_psbt";
     description := "Decode a PSBT to readable format";
     properties := ["psbt"; "network"];
     required := ["psbt"] |};
  {| name := "sign_psbt";
     description := "Sign a PSBT with private keys";
     properties := ["psbt"; "privateKeys"; "network"];
     required := ["psbt"; "privateKeys"] |};
  {| name := "finalize_psbt";
     description := "Finalize a signed PSBT and extract the transaction";
     properties := ["psbt"; "network"];
     required := ["psbt"] |};
  {| name := "combine_psbts";
     description := "Combine multiple PSBTs into one";
     properties := ["psbts"; "network"];
     required := ["psbts"] |};
  {| name := "update_psbt";
     description := "Update PSBT with additional information";
     properties := ["psbt"; "inputIndex"; "updates"; "network"];
     required := ["psbt"; "inputIndex"; "updates"] |}
].

Definition utilityTools : list Tool := [
  {| name := "generate_keypair";
     description := "Generate a new Bitcoin key pair (private/public keys)";
     properties := ["network"; "compressed"];
     required := [] |};
  {| name := "create_multisig";
     description := "Create multisignature address and scripts";
     properties := ["m"; "publicKeys"; "network"; "addressType"];
     required := ["m"; "publicKeys"] |};
  {| name := "compile_script";
     description := "Compile Bitcoin Script from ASM or create common script types";
     properties := ["scriptAsm"; "scriptType"; "publicKey"; "publicKeyHash";
                    "scriptHash"; "data"; "multisigConfig"; "network"];
     required := [] |};
  {| name := "hash_message";
     description := "Hash messages using Bitcoin-specific hash functions";
     properties := ["message"; "hashType"; "tag"; "encoding"];
     required := ["message"] |};
  {| name := "derive_child_key";
     description := "Derive child keys from extended keys (BIP32)";
     properties := ["extendedKey"; "derivationPath"; "network"];
     required := ["extendedKey"; "derivationPath"] |};
  {| name := "verify_message";
     description := "Verify a Bitcoin message signature";
     properties := ["address"; "message"; "signature"; "network"];
     required := ["address"; "message"; "signature"] |}
].

(** [setupTools]: the four lists spread into one, then one [Map.set]
    per tool, in order; a later [set] of a name replaces the earlier. *)
Definition allTools : list Tool :=
  addressTools ++ transactionTools ++ psbtTools ++ utilityTools.

Definition setupFrom (l : list Tool) : gmap string Tool :=
  foldl (fun m tool => <[name tool := tool]> m) ∅ l.

Definition setupTools : gmap string Tool := setupFrom allTools.

(** [list.find(t => t.name === name)] read as a condition. *)
Definition declares (l : list Tool) (n : string) : bool :=
  existsb (fun t => String.eqb (name t) n) l.

Inductive Category : Type := AddressTool | TransactionTool | PSBTTool | UtilityTool.

#[global] Instance Category_eq_dec : EqDecision Category.
Proof. solve_decision. Defined.

Definition registry (c : Category) : list Tool :=
  match c with
  | AddressTool => addressTools
  | TransactionTool => transactionTools
  | PSBTTool => psbtTools
  | UtilityTool => utilityTools
  end.

(** The request handler: the name must be a key of the map, and the
    handler module is the first registry that declares it. *)
Definition route (n : string) : result Category :=
  match setupTools !! n with
  | None => Throw ("Unknown tool: " +:+ n)
  | Some _ =>
      if declares addressTools n then Ok AddressTool
      else if declares transactionTools n then Ok TransactionTool
      else if declares psbtTools n then Ok PSBTTool
      else if declares utilityTools n then Ok UtilityTool
      else Throw ("No handler found for tool: " +:+ n)
  end.

End Registry.

(** ** The external code *)

Definition Buffer : Type := list Byte.byte.

#[global] Instance byte_eq_dec : EqDecision Byte.byte := Byte.byte_eq_dec.

(** A parsed transaction, as far as the handlers read it. *)
Record TxInput : Type := {
  hash : Buffer;
  index : N;
  sequence : N
}.

Record TxOutput : Type := {
  script : Buffer;
  value : Z
}.

Record Transaction : Type := {
  version : Z;
  locktime : Z;
  ins : list TxInput;
  outs : list TxOutput
}.

(** What a [bitcoin.payments.*] call returns, as far as the handlers read it. *)
Record Payment : Type := {
  pay_address : string;
  pay_output : Buffer
}.

Class External : Type := {
  (** bitcoin.Transaction *)
  Transaction_fromHex : string → result Transaction;
  Transaction_getId : Transaction → string;
  Transaction_byteLength : Transaction → Z;
  (** bitcoin.Psbt *)
  Psbt : Type;
  Psbt_fromBase64 : string → Utils.Network → result Psbt;
  Psbt_fromHex : string → Utils.Network → result Psbt;
  (** bitcoin.script *)
  script_fromASM : string → result Buffer;
  script_toASM : Buffer → string;
  (** bitcoin.payments: the output script of a payment built from a key, a
      hash or data, and the payment built from a redeem script *)
  payments_p2ms : Z → list Buffer → Utils.Network → result Buffer;
  payments_p2pk : Buffer → Utils.Network → result Buffer;
  payments_p2pkh : Buffer → Utils.Network → result Buffer;
  payments_p2sh_hash : Buffer → Utils.Network → result Buffer;
  payments_p2wpkh_hash : Buffer → Utils.Network → result Buffer;
  payments_p2wsh_hash : Buffer → Utils.Network → result Buffer;
  payments_embed : list Buffer → result Buffer;
  payments_p2sh : Buffer → Utils.Network → result Payment;
  payments_p2wsh : Buffer → Utils.Network → result Payment;
  payments_p2wpkh : Buffer → Utils.Network → result Payment;
  (** BIP32 *)
  BIP32Node : Type;
  BIP32_fromBase58 : string → Utils.Network → result BIP32Node;
  BIP32_derive : BIP32Node → Z → result BIP32Node;
  BIP32_toBase58 : BIP32Node → string;
  BIP32_publicKey : BIP32Node → Buffer;
  BIP32_privateKey : BIP32Node → option Buffer;
  (** Node *)
  Buffer_fromBase64 : string → Buffer;
  Number_toFixed : float → nat → string
}.

(** [formatSatoshis(satoshis)] of src/utils/bitcoin.ts with its default
    unit, ['BTC']. *)
Definition formatSatoshis `{External} (satoshis : float) : string :=
  Number_toFixed (satoshis / 100000000)%float 8 +:+ " BTC".

(** ** src/tools/transaction.ts *)

Module Transactions.
Section WithExternal.
Context `{External}.

Record FeeEstimate : Type := {
  size : float;
  vsize : float;
  weight : float;
  fee : float;
  feeRate : float;
  feeFormatted : string
}.

(** The [switch (inputType)]: the input size and the witness size. *)
Definition inputCosts (inputType : string) : result (float * float) :=
  if String.eqb inputType "legacy" then Ok (148%float, 0%float)
  else if String.eqb inputType "segwit" then Ok (68%float, 107%float)
  else if String.eqb inputType "taproot" then Ok (68%float, 65%float)
  else Throw ("Unknown input type: " +:+ inputType).

Definition estimateTransactionFee
    (inputs outputs feeRate : float) (inputType : option string)
    : result FeeEstimate :=
  if (inputs <=? 0)%float || (outputs <=? 0)%float
  then Throw "Inputs and outputs must be positive numbers"
  else if (feeRate <=? 0)%float
  then Throw "Fee rate must be positive"
  else
    let inputType := JS.orDefault inputType "segwit" in
    let hasWitness :=
      String.eqb inputType "segwit" || String.eqb inputType "taproot" in
    '(inputSize, witnessSize) ← inputCosts inputType;
    let outputSize := 34%float in
    let baseSize := 10%float in
    let size :=
      (baseSize + (inputs * inputSize) + (outputs * outputSize))%float in
    let weight :=
      if hasWitness
      then
        let witnessData := (inputs * witnessSize + 2)%float in
        ((size - (inputs * witnessSize)) * 4 + witnessData)%float
      else (size * 4)%float in
    let vsize := JS.Math_ceil (weight / 4)%float in
    let fee := JS.Math_ceil (vsize * feeRate)%float in
    Ok {| size :=
            if hasWitness
            then (size - (inputs * witnessSize)
                  + JS.Math_ceil ((inputs * witnessSize) / 4))%float
            else size;
          vsize := vsize;
          weight := weight;
          fee := fee;
          feeRate := feeRate;
          feeFormatted := formatSatoshis fee |}.

(** The result of [validateTransaction]; [byteSize] is the field [size] of
    the source. *)
Record Validation : Type := {
  valid : bool;
  txid : option string;
  byteSize : option Z;
  errors : option (list string)
}.

(** [Buffer.from(input.hash).reverse().toString('hex') + ':' + input.index] *)
Definition inputId (input : TxInput) : string :=
  JS.toHex (rev (hash input)) +:+ ":" +:+ JS.NToString (index input).

(** The loop over [tx.outs]: one message per negative value, and the sum. *)
Definition checkOutputs (outs : list TxOutput) (errors : list string)
    : list string * Z :=
  foldl
    (fun '(errors, totalOutput) output =>
       (if value output <? 0
        then errors ++ ["Negative output value found"]
        else errors,
        totalOutput + value output))
    (errors, 0) outs.

(** The checks of [validateTransaction] on a parsed transaction: the
    array [errors] after the last [push]. *)
Definition collectErrors (tx : Transaction) : list string :=
  let errors := [] in
  let errors :=
    if (length (ins tx) =? 0)%nat
    then errors ++ ["Transaction has no inputs"] else errors in
  let errors :=
    if (length (outs tx) =? 0)%nat
    then errors ++ ["Transaction has no outputs"] else errors in
  let inputIds := map inputId (ins tx) in
  let uniqueInputs : gset string := list_to_set inputIds in
  let errors :=
    if negb (length inputIds =? base.size uniqueInputs)%nat
    then errors ++ ["Transaction has duplicate inputs"] else errors in
  let '(errors, totalOutput) := checkOutputs (outs tx) errors in
  if totalOutput >? 21000000 * 100000000
  then errors ++ ["Total output exceeds maximum Bitcoin supply"]
  else errors.

Definition validateTransaction (hex : string) (network : option string)
    : result Validation :=
  let networkName := JS.orDefault network "testnet" in
  if negb (Utils.validateNetwork networkName)
  then Throw ("Invalid network: " +:+ networkName)
  else if negb (Utils.isValidHex hex)
  then Ok {| valid := false; txid := None; byteSize := None;
             errors := Some ["Invalid hex format"] |}
  else
    match Transaction_fromHex hex with
    | Throw message =>
        Ok {| valid := false; txid := None; byteSize := None;
              errors := Some ["Failed to parse transaction: " +:+ message] |}
    | Ok tx =>
        let errors := collectErrors tx in
        Ok {| valid := (length errors =? 0)%nat;
              txid := Some (Transaction_getId tx);
              byteSize := Some (Transaction_byteLength tx);
              errors := if (0 <? length errors)%nat then Some errors else None |}
    end.

End WithExternal.
End Transactions.

(** ** src/tools/psbt.ts: how the handlers read their PSBT argument *)

Module Psbts.
Section WithExternal.
Context `{External}.

Inductive Encoding : Type := Base64 | Hex.

(** The condition [psbt.match(/^[A-Za-z0-9+/]*={0,2}$/)]. *)
Definition detectEncoding (psbt : string) : Encoding :=
  if RegExp.test RegExp.base64Pattern psbt then Base64 else Hex.

(** The [if]/[else] inside the [try]. *)
Definition parsePSBT (psbt : string) (network : Utils.Network) : result Psbt :=
  match detectEncoding psbt with
  | Base64 => Psbt_fromBase64 psbt network
  | Hex => Psbt_fromHex psbt network
  end.

(** [decodePSBT], [signPSBT], [finalizePSBT] and [updatePSBT] up to the
    parsed [psbt]; the four start with the same statements. *)
Definition loadPSBT (psbt : string) (network : option string) : result Psbt :=
  network ← Utils.resolveNetwork network;
  rethrow "Invalid PSBT format: " (parsePSBT psbt network).

(** [args.psbts.map((psbtStr, index) => ...)] of [combinePSBTs]. *)
Fixpoint loadEach (index : nat) (psbts : list string) (network : Utils.Network)
    : result (list Psbt) :=
  match psbts with
  | [] => Ok []
  | psbtStr :: rest =>
      psbt ← rethrow ("Invalid PSBT format at index " +:+ JS.natToString index +:+ ": ")
               (parsePSBT psbtStr network);
      others ← loadEach (S index) rest network;
      Ok (psbt :: others)
  end.

(** [combinePSBTs] up to the parsed [psbts]. *)
Definition loadPSBTs (psbts : list string) (network : option string)
    : result (list Psbt) :=
  network ← Utils.resolveNetwork network;
  if (length psbts <? 2)%nat
  then Throw "At least 2 PSBTs are required for combination"
  else loadEach 0 psbts network.

End WithExternal.
End Psbts.

(** ** src/tools/utility.ts *)

Module Utility.
Section WithExternal.
Context `{External}.

Record MultisigInfo : Type := {
  m : Z;
  n : nat;
  publicKeys : list string;
  redeemScript : string;
  address : string;
  witnessScript : option string;
  p2wsh : option string
}.

(** The callback of [args.publicKeys.map(...)] in [createMultisig]. *)
Definition convertKey (pubkeyHex : string) (index : nat) : result Buffer :=
  if negb (RegExp.test RegExp.hexPlus pubkeyHex)
  then Throw ("Invalid public key format at index " +:+ JS.natToString index
              +:+ ": not hex")
  else
    let pubkey := JS.bufferFromHex pubkeyHex in
    if negb (length pubkey =? 33)%nat && negb (length pubkey =? 65)%nat
    then Throw ("Invalid public key length at index " +:+ JS.natToString index
                +:+ ": got " +:+ JS.natToString (length pubkey)
                +:+ ", expected 33 or 65")
    else Ok pubkey.

Fixpoint convertKeys (index : nat) (keys : list string) : result (list Buffer) :=
  match keys with
  | [] => Ok []
  | pubkeyHex :: rest =>
      pubkey ← convertKey pubkeyHex index;
      others ← convertKeys (S index) rest;
      Ok (pubkey :: others)
  end.

Definition createMultisig
    (m : Z) (publicKeys : list string) (network addressType : option string)
    : result MultisigInfo :=
  network ← Utils.resolveNetwork network;
  let addressType := JS.orDefault addressType "p2sh" in
  if (m <=? 0) || (m >? Z.of_nat (length publicKeys))
  then Throw "Invalid m value: must be between 1 and number of public keys"
  else if (length publicKeys <? 1)%nat || (15 <? length publicKeys)%nat
  then Throw "Invalid number of public keys: must be between 1 and 15"
  else
    pubkeys ← convertKeys 0 publicKeys;
    redeem ← payments_p2ms m pubkeys network;
    let info address witnessScript p2wsh :=
      {| m := m;
         n := length publicKeys;
         publicKeys := publicKeys;
         redeemScript := JS.toHex redeem;
         address := address;
         witnessScript := witnessScript;
         p2wsh := p2wsh |} in
    if String.eqb addressType "p2sh" then
      payment ← payments_p2sh redeem network;
      Ok (info (pay_address payment) None None)
    else if String.eqb addressType "p2wsh" then
      payment ← payments_p2wsh redeem network;
      Ok (info (pay_address payment) (Some (JS.toHex redeem)) None)
    else if String.eqb addressType "p2sh-p2wsh" then
      p2wshPayment ← payments_p2wsh redeem network;
      payment ← payments_p2sh (pay_output p2wshPayment) network;
      Ok (info (pay_address payment) (Some (JS.toHex redeem))
               (Some (pay_address p2wshPayment)))
    else Throw ("Unsupported address type: " +:+ addressType).

(** [script_p2sh] and [script_p2wsh] are the fields [p2sh] and [p2wsh] of
    the source. *)
Record ScriptInfo : Type := {
  type : string;
  hex : string;
  asm : string;
  addresses : option (list string);
  script_p2sh : option string;
  script_p2wsh : option string
}.

(** The callback of [args.multisigConfig.publicKeys.map(...)] in
    [compileScript]. *)
Fixpoint multisigKeys (keys : list string) : result (list Buffer) :=
  match keys with
  | [] => Ok []
  | pk :: rest =>
      let buf := JS.bufferFromHex pk in
      if negb (length buf =? 33)%nat && negb (length buf =? 65)%nat
      then Throw ("Invalid public key length: " +:+ JS.natToString (length buf))
      else others ← multisigKeys rest; Ok (buf :: others)
  end.

(** [if (!field) throw new Error(message)], then the field's bytes. *)
Definition requireHex (field : option string) (message : string) : result Buffer :=
  match JS.truthy field with
  | None => Throw message
  | Some text => Ok (JS.bufferFromHex text)
  end.

Definition compileScript
    (scriptAsm scriptType publicKey publicKeyHash scriptHash data : option string)
    (multisigConfig : option (Z * list string)) (network : option string)
    : result ScriptInfo :=
  network ← Utils.resolveNetwork network;
  match JS.truthy scriptAsm with
  | Some scriptAsm =>
      script ← rethrow "Failed to compile ASM script: " (script_fromASM scriptAsm);
      Ok {| type := "custom"; hex := JS.toHex script; asm := scriptAsm;
            addresses := None; script_p2sh := None; script_p2wsh := None |}
  | None =>
      let scriptType := JS.orDefault scriptType "p2pkh" in
      let info script p2sh p2wsh :=
        {| type := scriptType; hex := JS.toHex script; asm := script_toASM script;
           addresses := None; script_p2sh := p2sh; script_p2wsh := p2wsh |} in
      if String.eqb scriptType "p2pk" then
        pubkey ← requireHex publicKey "Public key required for P2PK script";
        script ← payments_p2pk pubkey network;
        Ok (info script None None)
      else if String.eqb scriptType "p2pkh" then
        hash ← requireHex publicKeyHash "Public key hash required for P2PKH script";
        script ← payments_p2pkh hash network;
        Ok (info script None None)
      else if String.eqb scriptType "p2sh" then
        hash ← requireHex scriptHash "Script hash required for P2SH script";
        script ← payments_p2sh_hash hash network;
        Ok (info script None None)
      else if String.eqb scriptType "p2wpkh" then
        hash ← requireHex publicKeyHash "Public key hash required for P2WPKH script";
        script ← payments_p2wpkh_hash hash network;
        Ok (info script None None)
      else if String.eqb scriptType "p2wsh" then
        hash ← requireHex scriptHash "Script hash required for P2WSH script";
        script ← payments_p2wsh_hash hash network;
        Ok (info script None None)
      else if String.eqb scriptType "multisig" then
        match multisigConfig with
        | None => Throw "Multisig configuration required for multisig script"
        | Some (m, keys) =>
            pubkeys ← multisigKeys keys;
            script ← payments_p2ms m pubkeys network;
            p2shPayment ← payments_p2sh script network;
            p2wshPayment ← payments_p2wsh script network;
            Ok (info script (Some (pay_address p2shPayment))
                     (Some (pay_address p2wshPayment)))
        end
      else if String.eqb scriptType "nulldata" then
        data ← requireHex data "Data required for OP_RETURN script";
        if (80 <? length data)%nat
        then Throw "OP_RETURN data too large (max 80 bytes)"
        else
          script ← payments_embed [data];
          Ok (info script None None)
      else Throw ("Unsupported script type: " +:+ scriptType)
  end.

(** The result of [deriveChildKey]; [derivedAddress] is the field
    [address] of the source. *)
Record DerivedKey : Type := {
  extendedKey : string;
  publicKey : string;
  privateKey : option string;
  derivedAddress : string
}.

(** The body of the loop of [deriveChildKey] for one non-empty segment,
    up to [derivationIndex]. *)
Definition derivationIndex (segment : string) : result Z :=
  let hardened := JS.endsWith segment "'" || JS.endsWith segment "h" in
  let index := JS.parseInt (if hardened then JS.dropLast segment else segment) in
  match index with
  | None => Throw ("Invalid derivation index: " +:+ segment)
  | Some index =>
      if (index <? 0) || (index >=? 0x80000000)
      then Throw ("Invalid derivation index: " +:+ segment)
      else Ok (if hardened then index + 0x80000000 else index)
  end.

(** [for (const segment of path)] *)
Fixpoint derivePath (path : list string) (derivedNode : BIP32Node)
    : result BIP32Node :=
  match path with
  | [] => Ok derivedNode
  | segment :: rest =>
      if String.eqb segment EmptyString
      then derivePath rest derivedNode
      else
        i ← derivationIndex segment;
        derivedNode ← BIP32_derive derivedNode i;
        derivePath rest derivedNode
  end.

(** [args.derivationPath.replace(/^m\//, '').split('/')] *)
Definition pathSegments (derivationPath : string) : list string :=
  JS.split "/" (JS.stripPrefix_m_slash derivationPath).

Definition deriveChildKey
    (extendedKey derivationPath : string) (network : option string)
    : result DerivedKey :=
  network ← Utils.resolveNetwork network;
  rethrow "Key derivation failed: "
    (node ← BIP32_fromBase58 extendedKey network;
     let path := pathSegments derivationPath in
     derivedNode ← derivePath path node;
     payment ← payments_p2wpkh (BIP32_publicKey derivedNode) network;
     Ok {| extendedKey := BIP32_toBase58 derivedNode;
           publicKey := JS.toHex (BIP32_publicKey derivedNode);
           privateKey := JS.toHex <$> BIP32_privateKey derivedNode;
           derivedAddress := pay_address payment |}).

Record Verification : Type := {
  valid : bool;
  recovered : option string;
  error : option string
}.

Definition verifyMessage
    (address message signature : string) (network : option string)
    : result Verification :=
  network ← Utils.resolveNetwork network;
  let signatureBuffer := Buffer_fromBase64 signature in
  if negb (length signatureBuffer =? 65)%nat
  then Ok {| valid := false; recovered := None;
             error := Some "Invalid signature length" |}
  else Ok {| valid := false; recovered := None;
             error := Some "Message verification not fully implemented - use specialized libraries" |}.

End WithExternal.
End Utility.

(** ** The vocabulary of the specification

    The properties below are stated with these predicates, which are
    written from the wording of the specification and not from the code. *)

Module Spec.

(** A hex digit. *)
Definition isHexDigit (c : ascii) : Prop :=
  c ∈ JS.chars "0123456789abcdefABCDEF".

(** The same letter up to ASCII case, or the same code unit. *)
Definition sameLetter (a b : ascii) : bool :=
  Ascii.eqb a b
  || (JS.inRange "A" "Z" a && (JS.code b =? JS.code a + 32)%N)
  || (JS.inRange "A" "Z" b && (JS.code a =? JS.code b + 32)%N).

Definition equalIgnoringCase (s t : string) : Prop :=
  Forall2 (fun a b => sameLetter a b = true) (JS.chars s) (JS.chars t).

Definition networkNames : list string := ["mainnet"; "testnet"; "regtest"].

(** A network name is recognized when it is one of the three names up to
    case. *)
Definition recognized (name : string) : Prop :=
  ∃ t, t ∈ networkNames ∧ equalIgnoringCase name t.

(** The fixed byte costs of an input type: the bytes per input and the
    witness bytes per input. *)
Definition byteCosts (inputType : string) (perInput witness : Z) : Prop :=
  (inputType = "legacy" ∧ perInput = 148 ∧ witness = 0)
  ∨ (inputType = "segwit" ∧ perInput = 68 ∧ witness = 107)
  ∨ (inputType = "taproot" ∧ perInput = 68 ∧ witness = 65).

(** [c] is the least integer not below [a / b], for a positive [b]. *)
Definition isCeiling (c a b : Z) : Prop := b * (c - 1) < a ≤ b * c.

(** The reference of an input: the previous transaction id and the
    output index. *)
Definition OutPoint : Type := Buffer * N.

Definition outPoint (input : TxInput) : OutPoint := (hash input, index input).

(** The text that identifies an outpoint: the transaction id as the
    reversed hash in hex, a colon, the index in decimal. *)
Definition outPointId (p : OutPoint) : string :=
  JS.toHex (rev p.1) +:+ ":" +:+ JS.NToString p.2.

(** The sum of the output values. *)
Definition totalValue (outputs : list TxOutput) : Z :=
  foldr (fun output total => value output + total) 0 outputs.

(** 21,000,000 x 10^8 base units. *)
Definition supplyCap : Z := 21000000 * 10 ^ 8.

(** The five checks, each reported whether or not an earlier one failed;
    a negative output value is reported once per such output. *)
Definition violations (tx : Transaction) : list string :=
  (if decide (ins tx = []) then ["Transaction has no inputs"] else [])
  ++ (if decide (outs tx = []) then ["Transaction has no outputs"] else [])
  ++ (if decide (NoDup (outPoint <$> ins tx)) then []
      else ["Transaction has duplicate inputs"])
  ++ ((fun _ => "Negative output value found")
        <$> filter (fun output => value output < 0) (outs tx))
  ++ (if decide (supplyCap < totalValue (outs tx))
      then ["Total output exceeds maximum Bitcoin supply"] else []).




(** The offset of a hardened index. *)
Definition hardenedOffset : Z := 0x80000000.

(** The mark of a hardened segment. *)
Definition hardenedMark (c : ascii) : Prop := c = "'"%char ∨ c = "h"%char.

(** [segmentIndex segment d]: the segment, its trailing mark removed if
    it has one, parses to an index below the offset, and [d] is that
    index, plus the offset when the segment had the mark. *)
Inductive segmentIndex : string → Z → Prop :=
| plainIndex segment i :
    (∀ body c, segment = body +:+ String c EmptyString → ¬ hardenedMark c) →
    JS.parseInt segment = Some i → 0 ≤ i < hardenedOffset →
    segmentIndex segment i
| hardenedIndex body c i :
    hardenedMark c →
    JS.parseInt body = Some i → 0 ≤ i < hardenedOffset →
    segmentIndex (body +:+ String c EmptyString) (i + hardenedOffset).

(** The segments joined by slashes. *)
Fixpoint join (segments : list string) : string :=
  match segments with
  | [] => EmptyString
  | [segment] => segment
  | segment :: rest => segment +:+ "/" +:+ join rest
  end.

(** [rest] is [path] without a leading [m/]. *)
Definition withoutPrefix (path rest : string) : Prop :=
  path = "m/" +:+ rest ∨ (rest = path ∧ ∀ r, path ≠ "m/" +:+ r).

(** One derivation step after the other, from the first index on. *)
Fixpoint deriveAll `{External} (node : BIP32Node) (indexes : list Z)
    : result BIP32Node :=
  match indexes with
  | [] => Ok node
  | i :: rest => BIP32_derive node i ≫= fun child => deriveAll child rest
  end.

End Spec.

(** ** A stand-in for the external code

    The handlers are evaluated on concrete inputs against this instance of
    the interface.  It parses every non-empty hex string to the given
    transaction, tags a PSBT with the decoder that read it, and records
    the derivation steps of a BIP32 node. *)

Module Sample.

(** A base64 decoder: the 6-bit values of the alphabet's characters up to
    the first other one, regrouped into bytes; left-over bits are
    dropped. *)
Definition sextet (c : ascii) : option N :=
  let n := JS.code c in
  if JS.inRange "A" "Z" c then Some (n - 65)%N
  else if JS.inRange "a" "z" c then Some (n - 71)%N
  else if JS.inRange "0" "9" c then Some (n + 4)%N
  else if Ascii.eqb c "+" then Some 62%N
  else if Ascii.eqb c "/" then Some 63%N
  else None.

Definition byteOf (n : N) : Byte.byte :=
  match Byte.of_N (n mod 256) with
  | Some b => b
  | None => Byte.x00
  end.

Fixpoint decodeBase64 (s : list ascii) : Buffer :=
  match s with
  | a :: b :: c :: d :: rest =>
      match sextet a, sextet b, sextet c, sextet d with
      | Some x, Some y, Some z, Some w =>
          byteOf (4 * x + y / 16) :: byteOf (16 * y + z / 4)
            :: byteOf (64 * z + w) :: decodeBase64 rest
      | Some x, Some y, Some z, None =>
          [byteOf (4 * x + y / 16); byteOf (16 * y + z / 4)]
      | Some x, Some y, None, _ => [byteOf (4 * x + y / 16)]
      | _, _, _, _ => []
      end
  | [a; b; c] =>
      match sextet a, sextet b, sextet c with
      | Some x, Some y, Some z =>
          [byteOf (4 * x + y / 16); byteOf (16 * y + z / 4)]
      | Some x, Some y, None => [byteOf (4 * x + y / 16)]
      | _, _, _ => []
      end
  | [a; b] =>
      match sextet a, sextet b with
      | Some x, Some y => [byteOf (4 * x + y / 16)]
      | _, _ => []
      end
  | _ => []
  end.

Definition external (tx : Transaction) : External := {|
  Transaction_fromHex hex :=
    match JS.bufferFromHex hex with
    | [] => Throw "Buffer too small"
    | _ => Ok tx
    end;
  Transaction_getId _ := "txid";
  Transaction_byteLength _ := 0;
  Psbt := string;
  Psbt_fromBase64 text _ := Ok ("base64:" +:+ text);
  Psbt_fromHex text _ := Ok ("hex:" +:+ text);
  script_fromASM _ := Ok [];
  script_toASM _ := "OP_RETURN";
  payments_p2ms _ keys _ := Ok (concat keys);
  payments_p2pk key _ := Ok key;
  payments_p2pkh hash _ := Ok hash;
  payments_p2sh_hash hash _ := Ok hash;
  payments_p2wpkh_hash hash _ := Ok hash;
  payments_p2wsh_hash hash _ := Ok hash;
  payments_embed data := Ok (Byte.x6a :: concat data);
  payments_p2sh redeem _ := Ok {| pay_address := "2N"; pay_output := redeem |};
  payments_p2wsh redeem _ := Ok {| pay_address := "tb1q"; pay_output := redeem |};
  payments_p2wpkh key _ := Ok {| pay_address := "tb1q"; pay_output := key |};
  BIP32Node := list Z;
  BIP32_fromBase58 _ _ := Ok [];
  BIP32_derive node i := Ok (node ++ [i]);
  BIP32_toBase58 _ := "tprv";
  BIP32_publicKey _ := [];
  BIP32_privateKey _ := None;
  Buffer_fromBase64 text := decodeBase64 (JS.chars text);
  Number_toFixed _ _ := "0"
|}.

Definition input (h : Byte.byte) (i : N) : TxInput :=
  {| hash := [h]; index := i; sequence := 4294967295 |}.

Definition output (v : Z) : TxOutput :=
  {| script := []; value := v |}.

Definition transaction (inputs : list TxInput) (outputs : list TxOutput)
    : Transaction :=
  {| version := 2; locktime := 0; ins := inputs; outs := outputs |}.

(** One input spent to one output. *)
Definition plain : Transaction :=
  transaction [input Byte.x01 0] [output 5000].

(** The same outpoint twice, and no output. *)
Definition doubled : Transaction :=
  transaction [input Byte.x01 0; input Byte.x01 0] [].

(** A compressed public key as hex text: 33 bytes. *)
Definition key33 : string :=
  "02f9308a019258c31049344f85f89d5229b531c845836f99b08601f113bce036f9".

(** ['a'.repeat(count)] *)
Fixpoint repeatA (count : nat) : string :=
  match count with
  | O => EmptyString
  | S k => String "a" (repeatA k)
  end.

(** The base64 text of 65 zero bytes, and that of 64. *)
Definition signature65 : string :=
  "AAAAAAAAAAAAAAAAAAAAAAAAAAAAAAAAAAAAAAAAAAAAAAAAAAAAAAAAAAAAAAAAAAAAAAAAAAAAAAAAAAAAAAA=".

Definition signature64 : string :=
  "AAAAAAAAAAAAAAAAAAAAAAAAAAAAAAAAAAAAAAAAAAAAAAAAAAAAAAAAAAAAAAAAAAAAAAAAAAAAAAAAAAAAAA==".

End Sample.

(** ** src/index.ts and the handler switches: calling a tool *)

Module Dispatcher.

(** The functions the four [switch (name)] statements call. *)
Inductive Handler : Type :=
| GenerateAddress | ValidateAddress | DecodeAddress | AddressFromScript
| CreateTransaction | DecodeTransaction | SignTransaction
| EstimateTransactionFee | ValidateTransaction
| CreatePSBT | DecodePSBT | SignPSBT | FinalizePSBT | CombinePSBTs | UpdatePSBT
| GenerateKeypair | CreateMultisig | CompileScript | HashMessage
| DeriveChildKey | VerifyMessage.

#[global] Instance Handler_eq_dec : EqDecision Handler.
Proof. solve_decision. Defined.

Definition handleAddressTool (name : string) : result Handler :=
  if String.eqb name "generate_address" then Ok GenerateAddress
  else if String.eqb name "validate_address" then Ok ValidateAddress
  else if String.eqb name "decode_address" then Ok DecodeAddress
  else if String.eqb name "address_from_script" then Ok AddressFromScript
  else Throw ("Unknown address tool: " +:+ name).

Definition handleTransactionTool (name : string) : result Handler :=
  if String.eqb name "create_transaction" then Ok CreateTransaction
  else if String.eqb name "decode_transaction" then Ok DecodeTransaction
  else if String.eqb name "sign_transaction" then Ok SignTransaction
  else if String.eqb name "estimate_transaction_fee" then Ok EstimateTransactionFee
  else if String.eqb name "broadcast_transaction" then Ok ValidateTransaction
  else Throw ("Unknown transaction tool: " +:+ name).

Definition handlePSBTTool (name : string) : result Handler :=
  if String.eqb name "create_psbt" then Ok CreatePSBT
  else if String.eqb name "decode_psbt" then Ok DecodePSBT
  else if String.eqb name "sign_psbt" then Ok SignPSBT
  else if String.eqb name "finalize_psbt" then Ok FinalizePSBT
  else if String.eqb name "combine_psbts" then Ok CombinePSBTs
  else if String.eqb name "update_psbt" then Ok UpdatePSBT
  else Throw ("Unknown PSBT tool: " +:+ name).

Definition handleUtilityTool (name : string) : result Handler :=
  if String.eqb name "generate_keypair" then Ok GenerateKeypair
  else if String.eqb name "create_multisig" then Ok CreateMultisig
  else if String.eqb name "compile_script" then Ok CompileScript
  else if String.eqb name "hash_message" then Ok HashMessage
  else if String.eqb name "derive_child_key" then Ok DeriveChildKey
  else if String.eqb name "verify_message" then Ok VerifyMessage
  else Throw ("Unknown utility tool: " +:+ name).

Definition handle (c : Registry.Category) : string → result Handler :=
  match c with
  | Registry.AddressTool => handleAddressTool
  | Registry.TransactionTool => handleTransactionTool
  | Registry.PSBTTool => handlePSBTTool
  | Registry.UtilityTool => handleUtilityTool
  end.

(** What the request handler returns: the content of a result, or the
    content of an error with [isError] set. *)
Inductive Envelope (R : Type) : Type :=
| Content (result : R)
| ErrorContent (message : string).
Arguments Content {R} result.
Arguments ErrorContent {R} message.

(** The handler of [CallToolRequestSchema]; [run] stands for the bodies of
    the handler functions applied to the arguments of the request.  The
    lookup in the map is outside the [try], the rest is inside. *)
Definition callTool {R : Type} (run : Handler → result R) (name : string)
    : result (Envelope R) :=
  match Registry.setupTools !! name with
  | None => Throw ("Unknown tool: " +:+ name)
  | Some _ =>
      let outcome :=
        if Registry.declares Registry.addressTools name
        then handleAddressTool name ≫= run
        else if Registry.declares Registry.transactionTools name
        then handleTransactionTool name ≫= run
        else if Registry.declares Registry.psbtTools name
        then handlePSBTTool name ≫= run
        else if Registry.declares Registry.utilityTools name
        then handleUtilityTool name ≫= run
        else Throw ("No handler found for tool: " +:+ name) in
      match outcome with
      | Ok result => Ok (Content result)
      | Throw message => Ok (ErrorContent message)
      end
  end.

(** The handler of [ListToolsRequestSchema]: the values of the map.  The
    order in which a JavaScript [Map] lists them is not modelled. *)
Definition listTools : list Registry.Tool :=
  (map_to_list Registry.setupTools).*2.

End Dispatcher.

(** ** src/utils/bitcoin.ts: the size estimate *)

Module Sizes.

Definition estimateTransactionSize (inputs outputs : float)
    (hasWitness : bool) : float :=
  let baseSize := 10%float in
  let inputSize := if hasWitness then 41%float else 148%float in
  let outputSize := 34%float in
  let size :=
    (baseSize + (inputs * inputSize) + (outputs * outputSize))%float in
  if hasWitness
  then
    let witnessSize := (inputs * 107)%float in
    (size + JS.Math_ceil (witnessSize / 4))%float
  else size.

End Sizes.

(** ** More of the external code

    The library functions the remaining handlers call.  A PSBT is mutated
    in place by the library; here every operation returns the PSBT after
    the call.  [Psbt_signInput] returns it whether or not the call threw,
    since its callers ignore the error; [Psbt_finalizeAllInputs] returns it
    together with the outcome of the call, since [signTransaction] goes on
    with the PSBT after a failure.  Reading a PSBT (its input count, its
    serializations, [validateSignaturesOfInput], [extractTransaction]) is
    taken to leave it as it is, and signing to leave the number of inputs
    as it is. *)

(** The five templates [getAddressType] tries. *)
Inductive Template : Type := P2PKH | P2SH | P2WPKH | P2WSH | P2TR.

#[global] Instance Template_eq_dec : EqDecision Template.
Proof. solve_decision. Defined.

(** The argument of [psbt.addInput]. *)
Record InputData : Type := {
  in_hash : string;
  in_index : Z;
  in_witnessUtxo : option (Buffer * Z);
  in_nonWitnessUtxo : option Buffer;
  in_redeemScript : option Buffer;
  in_witnessScript : option Buffer
}.

(** The argument of [psbt.updateInput]. *)
Inductive InputUpdate : Type :=
| UpdateWitnessUtxo (script : Buffer) (value : Z)
| UpdateNonWitnessUtxo (tx : Buffer)
| UpdateRedeemScript (script : Buffer)
| UpdateWitnessScript (script : Buffer)
| UpdateBip32Derivation (derivations : list (Buffer * Buffer * string)).

(** An entry of [psbt.data.inputs] and of [psbt.data.outputs], as far as
    [decodePSBT] reads them. *)
Record PsbtInputData : Type := {
  pi_witnessUtxo : option (Buffer * Z);
  pi_nonWitnessUtxo : option Buffer;
  pi_redeemScript : option Buffer;
  pi_witnessScript : option Buffer;
  pi_partialSig : option (list (Buffer * Buffer));
  pi_sighashType : option Z
}.

Record PsbtOutputData : Type := {
  po_redeemScript : option Buffer;
  po_witnessScript : option Buffer
}.

Class Library `{External} : Type := {
  (** bitcoin.address *)
  address_toOutputScript : string → Utils.Network → result Buffer;
  address_fromOutputScript : Buffer → Utils.Network → result string;
  (** bitcoin.payments: the [address] of the payment built from an output
      script ([None] when it is undefined), and the payments built from a
      public key *)
  payments_fromOutput : Template → Buffer → Utils.Network → result (option string);
  payments_p2pkh_pubkey : Buffer → Utils.Network → result Payment;
  payments_p2tr : Buffer → Utils.Network → result Payment;
  (** The public key of [bitcoin.ECPair.makeRandom({ network })] in the
      call at hand, or what the call throws. *)
  ECPair_makeRandom : Utils.Network → result Buffer;
  (** [ECPair.fromWIF] of src/utils/bitcoin.ts, built from the ecpair
      package *)
  Signer : Type;
  ECPair_fromWIF : string → Utils.Network → result Signer;
  (** bitcoin.Psbt *)
  Psbt_new : Utils.Network → Psbt;
  Psbt_setVersion : Psbt → Z → result Psbt;
  Psbt_setLocktime : Psbt → Z → result Psbt;
  Psbt_addInput : Psbt → InputData → result Psbt;
  Psbt_addOutput : Psbt → string → Z → result Psbt;
  Psbt_extractTransaction : Psbt → bool → result Transaction;
  Psbt_toHex : Psbt → string;
  Psbt_toBase64 : Psbt → string;
  Psbt_inputCount : Psbt → nat;
  Psbt_signInput : Psbt → nat → Signer → Psbt;
  Psbt_validateSignaturesOfInput : Psbt → nat → result bool;
  Psbt_finalizeAllInputs : Psbt → Psbt * result ();
  Psbt_updateInput : Psbt → Z → InputUpdate → result Psbt;
  Psbt_data_inputs : Psbt → list PsbtInputData;
  Psbt_data_outputs : Psbt → list PsbtOutputData;
  Psbt_getFee : Psbt → result Z;
  Psbt_getFeeRate : Psbt → result Z;
  (** bitcoin.Transaction *)
  Transaction_toHex : Transaction → string;
  Transaction_weight : Transaction → Z;
  Transaction_virtualSize : Transaction → Z;
  (** [tx.ins[i].script] and [tx.ins[i].witness] *)
  Transaction_inputScript : Transaction → nat → Buffer;
  Transaction_inputWitness : Transaction → nat → list Buffer;
  (** bitcoin.crypto *)
  crypto_sha256 : Buffer → Buffer;
  crypto_hash160 : Buffer → Buffer;
  crypto_hash256 : Buffer → Buffer;
  crypto_taggedHash : string → Buffer → result Buffer;
  (** The text the engine gives a number of magnitude 2^53 or more *)
  Number_toString_large : Z → string;
  (** Signing adds no input and removes none. *)
  Psbt_signInput_inputCount : ∀ psbt index keyPair,
    Psbt_inputCount (Psbt_signInput psbt index keyPair) = Psbt_inputCount psbt
}.

(** ** src/utils/bitcoin.ts: address validity *)

Definition isValidAddress `{Library} (address : string)
    (network : option Utils.Network) : bool :=
  match network with
  | Some net => is_ok (address_toOutputScript address net)
  | None =>
      existsb (fun net => is_ok (address_toOutputScript address net))
        [Utils.mainnet_ Utils.networks; Utils.testnet_ Utils.networks;
         Utils.regtest_ Utils.networks]
  end.

(** ** src/tools/address.ts *)

Module Addresses.
Section WithLibrary.
Context `{Library}.

Record AddressInfo : Type := {
  address : string;
  type : string;
  network : string;
  script : string;
  redeemScript : option string;
  witnessScript : option string
}.

(** [buf.slice(1, 33)] *)
Definition xOnly (pubkey : Buffer) : Buffer := take 32 (drop 1 pubkey).

Definition generateAddress
    (type : string) (network publicKey redeemScript witnessScript : option string)
    : result AddressInfo :=
  let networkName := JS.orDefault network "testnet" in
  if negb (Utils.validateNetwork networkName)
  then Throw ("Invalid network: " +:+ networkName)
  else
    net ← Utils.getNetworkConfig networkName;
    pubkey ←
      match JS.truthy publicKey with
      | Some text =>
          let pubkey := JS.bufferFromHex text in
          if negb (length pubkey =? 33)%nat && negb (length pubkey =? 65)%nat
          then Throw "Invalid public key length"
          else Ok pubkey
      | None => ECPair_makeRandom net
      end;
    let lowered := JS.toLowerCase type in
    if String.eqb lowered "p2pkh" then
      payment ← payments_p2pkh_pubkey pubkey net;
      Ok {| address := pay_address payment; type := "p2pkh";
            network := networkName; script := JS.toHex (pay_output payment);
            redeemScript := None; witnessScript := None |}
    else if String.eqb lowered "p2wpkh" then
      payment ← payments_p2wpkh pubkey net;
      Ok {| address := pay_address payment; type := "p2wpkh";
            network := networkName; script := JS.toHex (pay_output payment);
            redeemScript := None; witnessScript := None |}
    else if String.eqb lowered "p2sh" then
      match JS.truthy redeemScript with
      | None =>
          p2wpkh ← payments_p2wpkh pubkey net;
          payment ← payments_p2sh (pay_output p2wpkh) net;
          Ok {| address := pay_address payment; type := "p2sh";
                network := networkName; script := JS.toHex (pay_output payment);
                redeemScript := Some (JS.toHex (pay_output p2wpkh));
                witnessScript := None |}
      | Some text =>
          payment ← payments_p2sh (JS.bufferFromHex text) net;
          Ok {| address := pay_address payment; type := "p2sh";
                network := networkName; script := JS.toHex (pay_output payment);
                redeemScript := Some text; witnessScript := None |}
      end
    else if String.eqb lowered "p2wsh" then
      match JS.truthy witnessScript with
      | None => Throw "Witness script required for P2WSH address"
      | Some text =>
          payment ← payments_p2wsh (JS.bufferFromHex text) net;
          Ok {| address := pay_address payment; type := "p2wsh";
                network := networkName; script := JS.toHex (pay_output payment);
                redeemScript := None; witnessScript := Some text |}
      end
    else if String.eqb lowered "p2tr" then
      let internalPubkey := xOnly pubkey in
      payment ← payments_p2tr internalPubkey net;
      Ok {| address := pay_address payment; type := "p2tr";
            network := networkName; script := JS.toHex (pay_output payment);
            redeemScript := None; witnessScript := None |}
    else Throw ("Unsupported address type: " +:+ type).

(** One [if] of [getAddressType]: the template's payment for the script
    has the address itself. *)
Definition templateMatches (t : Template) (outputScript : Buffer)
    (address : string) (net : Utils.Network) : result bool :=
  found ← payments_fromOutput t outputScript net;
  Ok (bool_decide (found = Some address)).

Definition getAddressType (address : string) (net : Utils.Network) : string :=
  let tried : result string :=
    outputScript ← address_toOutputScript address net;
    templateMatches P2PKH outputScript address net ≫= fun isP2pkh : bool =>
    if isP2pkh then Ok "p2pkh" else
    templateMatches P2SH outputScript address net ≫= fun isP2sh : bool =>
    if isP2sh then Ok "p2sh" else
    templateMatches P2WPKH outputScript address net ≫= fun isP2wpkh : bool =>
    if isP2wpkh then Ok "p2wpkh" else
    templateMatches P2WSH outputScript address net ≫= fun isP2wsh : bool =>
    if isP2wsh then Ok "p2wsh" else
    templateMatches P2TR outputScript address net ≫= fun isP2tr : bool =>
    if isP2tr then Ok "p2tr" else Ok "unknown" in
  match tried with
  | Ok type => type
  | Throw _ => "unknown"
  end.

Record AddressValidity : Type := {
  valid : bool;
  validNetwork : option string;
  validType : option string;
  error : option string
}.

(** The entries of the object literal in [validateAddress] and
    [decodeAddress], in the order [Object.entries] lists them. *)
Definition networkEntries : list (string * Utils.Network) :=
  [("mainnet", Utils.bitcoin); ("testnet", Utils.testnet);
   ("regtest", Utils.regtest)].

(** [for (const [networkName, network] of ...) if (isValidAddress(...))]:
    the first entry under which the address is valid. *)
Definition detectNetwork (address : string) : option (string * Utils.Network) :=
  List.find (fun entry => isValidAddress address (Some entry.2)) networkEntries.

Definition validateAddress (address : string) (network : option string)
    : AddressValidity :=
  match JS.truthy network with
  | Some networkName =>
      match Utils.getNetworkConfig networkName with
      | Throw message =>
          {| valid := false; validNetwork := None; validType := None;
             error := Some message |}
      | Ok net =>
          if isValidAddress address (Some net)
          then {| valid := true; validNetwork := Some networkName;
                  validType := Some (getAddressType address net);
                  error := None |}
          else {| valid := false; validNetwork := None; validType := None;
                  error := Some ("Invalid address for " +:+ networkName) |}
      end
  | None =>
      match detectNetwork address with
      | Some (networkName, net) =>
          {| valid := true; validNetwork := Some networkName;
             validType := Some (getAddressType address net); error := None |}
      | None =>
          {| valid := false; validNetwork := None; validType := None;
             error := Some "Invalid address format or unsupported network" |}
      end
  end.

Record DecodedAddress : Type := {
  dec_address : string;
  dec_network : string;
  dec_type : string;
  dec_script : string;
  dec_scriptAsm : string
}.

Definition decodeAddress (address : string) (network : option string)
    : result DecodedAddress :=
  rethrow "Failed to decode address: "
    ('(detectedNetwork, net) ←
       (match JS.truthy network with
        | Some networkName =>
            net ← Utils.getNetworkConfig networkName; Ok (networkName, net)
        | None =>
            match detectNetwork address with
            | Some entry => Ok entry
            | None => Throw "Cannot detect network for address"
            end
        end : result (string * Utils.Network));
     outputScript ← address_toOutputScript address net;
     let type := getAddressType address net in
     Ok {| dec_address := address; dec_network := detectedNetwork;
           dec_type := type; dec_script := JS.toHex outputScript;
           dec_scriptAsm := script_toASM outputScript |}).

Definition addressFromScript (script : string) (network : option string)
    (type : string) : result AddressInfo :=
  net ← Utils.resolveNetwork network;
  let networkName := JS.orDefault network "testnet" in
  let buffer := JS.bufferFromHex script in
  let lowered := JS.toLowerCase type in
  if String.eqb lowered "p2sh" then
    payment ← payments_p2sh buffer net;
    Ok {| address := pay_address payment; type := "p2sh";
          network := networkName; script := JS.toHex (pay_output payment);
          redeemScript := Some script; witnessScript := None |}
  else if String.eqb lowered "p2wsh" then
    payment ← payments_p2wsh buffer net;
    Ok {| address := pay_address payment; type := "p2wsh";
          network := networkName; script := JS.toHex (pay_output payment);
          redeemScript := None; witnessScript := Some script |}
  else Throw ("Unsupported script-to-address type: " +:+ type).

End WithLibrary.
End Addresses.

(** ** A stand-in for the rest of the external code

    Addresses are a network prefix followed by the hex text of the output
    script: [bc:] on mainnet, [tb:] on testnet and on regtest.  The first
    byte of a script tells its template.  A PSBT is a text that records
    what was done to it; a key signs when its text starts with [c].  Only
    a signed PSBT is finalized, and only a finalized one gives its
    transaction, its fee and its fee rate, whatever the flag of
    [extractTransaction], which only turns off the check of the fee
    rate. *)

Module SampleLibrary.

Definition prefixOf (net : Utils.Network) : string :=
  match net with
  | Utils.bitcoin => "bc:"
  | _ => "tb:"
  end.

Definition toOutputScript (address : string) (net : Utils.Network) : result Buffer :=
  if String.prefix (prefixOf net) address
  then Ok (JS.bufferFromHex (String.substring 3 (String.length address - 3) address))
  else Throw (address +:+ " has no matching Script").

Definition fromOutputScript (output : Buffer) (net : Utils.Network) : result string :=
  match output with
  | [] => Throw "no matching Address"
  | _ => Ok (prefixOf net +:+ JS.toHex output)
  end.

Definition templateByte (t : Template) : Byte.byte :=
  match t with
  | P2PKH => Byte.x76
  | P2SH => Byte.xa9
  | P2WPKH => Byte.x00
  | P2WSH => Byte.x20
  | P2TR => Byte.x51
  end.

Definition fromOutput (t : Template) (output : Buffer) (net : Utils.Network)
    : result (option string) :=
  match output with
  | first :: _ =>
      if bool_decide (first = templateByte t)
      then Ok (Some (prefixOf net +:+ JS.toHex output))
      else Throw "Output is invalid"
  | [] => Throw "Output is invalid"
  end.

Definition payTo (t : Template) (data : Buffer) (net : Utils.Network)
    : result Payment :=
  let output := templateByte t :: data in
  Ok {| pay_address := prefixOf net +:+ JS.toHex output; pay_output := output |}.

Definition signerOf (wif : string) (net : Utils.Network) : result string :=
  if String.prefix "c" wif then Ok wif else Throw "Invalid network version".

Definition signed (psbt : string) : bool := String.prefix "signed" psbt.

Definition finalized (psbt : string) : bool := String.prefix "final" psbt.

Definition library (tx : Transaction) : @Library (Sample.external tx) := {|
  address_toOutputScript := toOutputScript;
  address_fromOutputScript := fromOutputScript;
  payments_fromOutput := fromOutput;
  payments_p2pkh_pubkey := payTo P2PKH;
  payments_p2tr := payTo P2TR;
  ECPair_makeRandom _ := Ok (JS.bufferFromHex Sample.key33);
  Signer := string;
  ECPair_fromWIF := signerOf;
  Psbt_new _ := "psbt" : @Psbt (Sample.external tx);
  Psbt_setVersion psbt _ := Ok psbt;
  Psbt_setLocktime psbt _ := Ok psbt;
  Psbt_addInput psbt data := Ok (psbt +:+ " in:" +:+ in_hash data);
  Psbt_addOutput psbt address _ := Ok (psbt +:+ " out:" +:+ address);
  Psbt_extractTransaction psbt _ :=
    if finalized psbt then Ok tx else Throw "Not finalized";
  Psbt_toHex psbt := psbt;
  Psbt_toBase64 psbt := psbt;
  Psbt_inputCount _ := 1%nat;
  Psbt_signInput psbt _ _ := if signed psbt then psbt else "signed " +:+ psbt;
  Psbt_validateSignaturesOfInput psbt _ :=
    if signed psbt then Ok true else Throw "No signatures to validate";
  Psbt_finalizeAllInputs psbt :=
    if signed psbt then ("final " +:+ psbt, Ok ())
    else (psbt, Throw "Can not finalize input #0");
  Psbt_updateInput psbt _ _ := Ok (psbt +:+ " updated");
  Psbt_data_inputs _ :=
    [{| pi_witnessUtxo := Some ([Byte.x51], 1000); pi_nonWitnessUtxo := None;
        pi_redeemScript := None; pi_witnessScript := None;
        pi_partialSig := None; pi_sighashType := None |}];
  Psbt_data_outputs _ :=
    [{| po_redeemScript := None; po_witnessScript := None |}];
  Psbt_getFee psbt :=
    if finalized psbt then Ok 100
    else Throw "PSBT must be finalized to calculate fee";
  Psbt_getFeeRate psbt :=
    if finalized psbt then Ok 1
    else Throw "PSBT must be finalized to calculate fee rate";
  Transaction_toHex _ := "0200";
  Transaction_weight _ := 0;
  Transaction_virtualSize _ := 0;
  Transaction_inputScript _ _ := [];
  Transaction_inputWitness _ _ := [];
  crypto_sha256 data := rev data;
  crypto_hash160 data := take 20 (rev data);
  crypto_hash256 data := rev (rev data);
  crypto_taggedHash tag data :=
    if String.eqb tag "TapLeaf" then Ok (rev data) else Throw "unknown tag";
  Number_toString_large _ := "1e+21";
  Psbt_signInput_inputCount _ _ _ := eq_refl
|}.

End SampleLibrary.

(** ** Vocabulary for the address properties *)

Module Templates.

(** The name [getAddressType] answers for a template. *)
Definition templateName (t : Template) : string :=
  match t with
  | P2PKH => "p2pkh"
  | P2SH => "p2sh"
  | P2WPKH => "p2wpkh"
  | P2WSH => "p2wsh"
  | P2TR => "p2tr"
  end.

(** The order in which [getAddressType] tries the templates. *)
Definition templates : list Template := [P2PKH; P2SH; P2WPKH; P2WSH; P2TR].

(** The members of [ts] in front of the first [t]. *)
Fixpoint before (t : Template) (ts : list Template) : list Template :=
  match ts with
  | [] => []
  | t' :: rest => if bool_decide (t' = t) then [] else t' :: before t rest
  end.

(** The templates tried before [t]. *)
Definition earlier (t : Template) : list Template := before t templates.

End Templates.

Module Search.
Section WithLibrary.
Context `{Library}.

(** The chain of [if]s of [getAddressType] over a list of templates: the
    name of the first template whose payment has the address. *)
Fixpoint firstMatch (ts : list Template) (outputScript : Buffer)
    (address : string) (net : Utils.Network) : result string :=
  match ts with
  | [] => Ok "unknown"
  | t :: rest =>
      Addresses.templateMatches t outputScript address net ≫= fun isIt : bool =>
      if isIt then Ok (Templates.templateName t)
      else firstMatch rest outputScript address net
  end.

End WithLibrary.
End Search.

(** ** Vocabulary for derivation paths written in the usual way *)

Module Paths.

(** A decimal digit. *)
Definition isDigit (c : ascii) : Prop := JS.inRange "0" "9" c = true.

(** One step of a path: an index, hardened or not. *)
Inductive Step : Type :=
| Normal (i : N)
| Hardened (i : N).

Definition stepNumber (step : Step) : N :=
  match step with Normal i | Hardened i => i end.

(** The index the step stands for. *)
Definition stepIndex (step : Step) : Z :=
  match step with
  | Normal i => Z.of_N i
  | Hardened i => Z.of_N i + Spec.hardenedOffset
  end.

(** The step as text: the number in decimal, with ['] when hardened. *)
Definition renderStep (step : Step) : string :=
  match step with
  | Normal i => JS.NToString i
  | Hardened i => JS.NToString i +:+ "'"
  end.

(** The path as text: [m/] and the steps, separated by slashes. *)
Definition renderPath (steps : list Step) : string :=
  "m/" +:+ Spec.join (map renderStep steps).

End Paths.

(** ** Numbers in conditions and messages

    Amounts, indices, versions and lock times are integers.  A template
    literal renders an integer below 2^53 in magnitude in plain decimal;
    a larger number is rendered by the engine with the shortest digits
    that read back as the same double, and in exponent form from 1e21. *)

Definition Number_toString `{Library} (z : Z) : string :=
  if Z.abs z <? 2 ^ 53
  then
    if z <? 0 then "-" +:+ JS.NToString (Z.to_N (- z))
    else JS.NToString (Z.to_N z)
  else Number_toString_large z.

(** [x || d] on an optional number: zero is falsy. *)
Definition numberOr (x : option Z) (d : Z) : Z :=
  match x with
  | Some v => if v =? 0 then d else v
  | None => d
  end.

(** The value of an optional number in a condition that goes on to use
    it: [None] when it is absent or zero. *)
Definition numberTruthy (x : option Z) : option Z :=
  match x with
  | Some v => if v =? 0 then None else Some v
  | None => None
  end.

(** [errors.length > 0 ? errors : undefined] *)
Definition someIfAny (errors : list string) : option (list string) :=
  if (0 <? length errors)%nat then Some errors else None.

(** ** Building a transaction (src/tools/transaction.ts, src/tools/psbt.ts) *)

Record OutputArg : Type := {
  out_address : string;
  out_amount : Z
}.

(** The loop over [args.outputs], the same in [createTransaction] and in
    [createPSBT]. *)
Fixpoint addOutputs `{Library} (psbt : Psbt) (outputs : list OutputArg)
    (network : Utils.Network) : result Psbt :=
  match outputs with
  | [] => Ok psbt
  | output :: rest =>
      if out_amount output <=? 0
      then Throw ("Invalid output amount: "
                  +:+ Number_toString (out_amount output))
      else
        match address_toOutputScript (out_address output) network with
        | Throw _ => Throw ("Invalid address: " +:+ out_address output)
        | Ok _ =>
            psbt ← Psbt_addOutput psbt (out_address output) (out_amount output);
            addOutputs psbt rest network
        end
  end.

(** The conversion of the private keys: the key pairs that remain after
    the [filter], and the messages pushed to [errors]. *)
Fixpoint keyPairsFrom {K : Type} (fromWIF : string → result K)
    (index : nat) (privateKeys : list string) : list K * list string :=
  match privateKeys with
  | [] => ([], [])
  | wif :: rest =>
      let '(keyPairs, errors) := keyPairsFrom fromWIF (S index) rest in
      match fromWIF wif with
      | Ok keyPair => (keyPair :: keyPairs, errors)
      | Throw message =>
          (keyPairs,
           ("Invalid private key at index " +:+ JS.natToString index +:+ ": "
            +:+ message) :: errors)
      end
  end.

(** [for (i ...) for (const keyPair of keyPairs) try { psbt.signInput(i,
    keyPair) } catch { continue }] *)
Definition signInputs `{Library} (psbt : Psbt) (keyPairs : list Signer) : Psbt :=
  foldl (fun psbt i => foldl (fun psbt keyPair => Psbt_signInput psbt i keyPair)
                             psbt keyPairs)
        psbt (seq 0 (Psbt_inputCount psbt)).

(** [for (i ...) try { psbt.validateSignaturesOfInput(i, () => true) }
    catch (error) { ... }]: the inputs whose validation throws, each with
    the message thrown. *)
Definition failedInputs `{Library} (psbt : Psbt) : list (nat * string) :=
  omap (fun i => match Psbt_validateSignaturesOfInput psbt i with
                 | Ok _ => None
                 | Throw message => Some (i, message)
                 end)
       (seq 0 (Psbt_inputCount psbt)).

Module TransactionTools.
Section WithLibrary.
Context `{Library}.

Record InputArg : Type := {
  txid : string;
  vout : Z;
  amount : Z;
  address : option string;
  scriptPubKey : option string
}.

Record Created : Type := {
  created_hex : string;
  created_txid : string;
  created_size : Z;
  created_weight : Z;
  created_vsize : Z
}.

(** The loop over [args.inputs] of [createTransaction]. *)
Fixpoint addInputs (psbt : Psbt) (inputs : list InputArg) : result Psbt :=
  match inputs with
  | [] => Ok psbt
  | input :: rest =>
      if negb (Utils.isValidHex (txid input))
         || negb (String.length (txid input) =? 64)%nat
      then Throw ("Invalid txid: " +:+ txid input)
      else if vout input <? 0
      then Throw ("Invalid vout: " +:+ Number_toString (vout input))
      else if amount input <=? 0
      then Throw ("Invalid amount: " +:+ Number_toString (amount input))
      else
        let witnessUtxo :=
          (match JS.truthy (scriptPubKey input) with
           | Some text => JS.bufferFromHex text
           | None => []
           end, amount input) in
        psbt ← Psbt_addInput psbt
                 {| in_hash := txid input; in_index := vout input;
                    in_witnessUtxo := Some witnessUtxo;
                    in_nonWitnessUtxo := None; in_redeemScript := None;
                    in_witnessScript := None |};
        addInputs psbt rest
  end.

Definition createTransaction
    (inputs : list InputArg) (outputs : list OutputArg)
    (network : option string) (locktime version : option Z)
    : result Created :=
  let networkName := JS.orDefault network "testnet" in
  if negb (Utils.validateNetwork networkName)
  then Throw ("Invalid network: " +:+ networkName)
  else
    network ← Utils.getNetworkConfig networkName;
    let psbt := Psbt_new network in
    psbt ← Psbt_setVersion psbt (numberOr version 2);
    psbt ← Psbt_setLocktime psbt (numberOr locktime 0);
    psbt ← addInputs psbt inputs;
    psbt ← addOutputs psbt outputs network;
    tx ← Psbt_extractTransaction psbt true;
    Ok {| created_hex := Transaction_toHex tx;
          created_txid := Transaction_getId tx;
          created_size := Transaction_byteLength tx;
          created_weight := Transaction_weight tx;
          created_vsize := Transaction_virtualSize tx |}.

Record DecodedInput : Type := {
  input_txid : string;
  input_vout : N;
  input_scriptSig : string;
  input_sequence : N;
  input_witness : list string
}.

Record DecodedOutput : Type := {
  output_address : option string;
  output_script : string;
  output_amount : Z
}.

Record TransactionInfo : Type := {
  info_txid : string;
  info_version : Z;
  info_locktime : Z;
  info_inputs : list DecodedInput;
  info_outputs : list DecodedOutput;
  info_size : Z;
  info_weight : Z;
  info_vsize : Z;
  info_hex : string
}.

(** [try { address = bitcoin.address.fromOutputScript(script, network) }
    catch { }] *)
Definition addressOf (script : Buffer) (network : Utils.Network)
    : option string :=
  match address_fromOutputScript script network with
  | Ok address => Some address
  | Throw _ => None
  end.

Definition decodeTransaction (hex : string) (network : option string)
    : result TransactionInfo :=
  let networkName := JS.orDefault network "testnet" in
  if negb (Utils.validateNetwork networkName)
  then Throw ("Invalid network: " +:+ networkName)
  else if negb (Utils.isValidHex hex)
  then Throw "Invalid hex format"
  else
    network ← Utils.getNetworkConfig networkName;
    tx ← Transaction_fromHex hex;
    let inputs :=
      imap (fun position input =>
              {| input_txid := JS.toHex (rev (hash input));
                 input_vout := index input;
                 input_scriptSig :=
                   JS.toHex (Transaction_inputScript tx position);
                 input_sequence := sequence input;
                 input_witness :=
                   map JS.toHex (Transaction_inputWitness tx position) |})
           (ins tx) in
    let outputs :=
      map (fun output =>
             {| output_address := addressOf (script output) network;
                output_script := JS.toHex (script output);
                output_amount := value output |})
          (outs tx) in
    Ok {| info_txid := Transaction_getId tx;
          info_version := version tx;
          info_locktime := locktime tx;
          info_inputs := inputs;
          info_outputs := outputs;
          info_size := Transaction_byteLength tx;
          info_weight := Transaction_weight tx;
          info_vsize := Transaction_virtualSize tx;
          info_hex := hex |}.

Record Signed : Type := {
  hex : string;
  signed : bool;
  errors : option (list string)
}.

Definition signTransaction
    (hex : string) (privateKeys : list string) (network : option string)
    : result Signed :=
  let networkName := JS.orDefault network "testnet" in
  if negb (Utils.validateNetwork networkName)
  then Throw ("Invalid network: " +:+ networkName)
  else if negb (Utils.isValidHex hex)
  then Throw "Invalid hex format"
  else
    network ← Utils.getNetworkConfig networkName;
    psbt ← Psbt_fromHex hex network;
    let '(keyPairs, errors) :=
      keyPairsFrom (fun wif => ECPair_fromWIF wif network) 0 privateKeys in
    if (length keyPairs =? 0)%nat
    then Throw "No valid private keys provided"
    else
      let psbt := signInputs psbt keyPairs in
      let failures := failedInputs psbt in
      let errors :=
        errors ++
        map (fun '(i, message) =>
               "Failed to validate input " +:+ JS.natToString i +:+ ": "
               +:+ message) failures in
      if (length failures =? 0)%nat
      then
        let '(psbt, finalized) := Psbt_finalizeAllInputs psbt in
        match finalized ≫= fun _ => Psbt_extractTransaction psbt false with
        | Ok finalTx =>
            Ok {| hex := Transaction_toHex finalTx; signed := true;
                  errors := None |}
        | Throw message =>
            let errors :=
              errors ++ ["Failed to finalize transaction: " +:+ message] in
            Ok {| hex := Psbt_toHex psbt; signed := false;
                  errors := someIfAny errors |}
        end
      else
        Ok {| hex := Psbt_toHex psbt; signed := false;
              errors := someIfAny errors |}.

End WithLibrary.
End TransactionTools.

Module PsbtTools.
Section WithLibrary.
Context `{Library}.

Record InputArg : Type := {
  txid : string;
  vout : Z;
  amount : Z;
  scriptPubKey : option string;
  redeemScript : option string;
  witnessScript : option string;
  witnessUtxo : option (string * Z);
  nonWitnessUtxo : option string
}.

Record Encoded : Type := {
  psbt : string;
  base64 : string
}.

(** [if (field) inputData.field = Buffer.from(field, 'hex')] *)
Definition decodedIfGiven (field : option string) : option Buffer :=
  JS.bufferFromHex <$> JS.truthy field.

(** The object [inputData] of [createPSBT]. *)
Definition inputData (input : InputArg) : InputData :=
  {| in_hash := txid input;
     in_index := vout input;
     in_witnessUtxo :=
       match witnessUtxo input with
       | Some (script, value) => Some (JS.bufferFromHex script, value)
       | None =>
           match JS.truthy (scriptPubKey input) with
           | Some text =>
               if amount input =? 0 then None
               else Some (JS.bufferFromHex text, amount input)
           | None => None
           end
       end;
     in_nonWitnessUtxo := decodedIfGiven (nonWitnessUtxo input);
     in_redeemScript := decodedIfGiven (redeemScript input);
     in_witnessScript := decodedIfGiven (witnessScript input) |}.

(** The loop over [args.inputs] of [createPSBT]. *)
Fixpoint addInputs (psbt : Psbt) (inputs : list InputArg) : result Psbt :=
  match inputs with
  | [] => Ok psbt
  | input :: rest =>
      if negb (Utils.isValidHex (txid input))
         || negb (String.length (txid input) =? 64)%nat
      then Throw ("Invalid txid: " +:+ txid input)
      else
        psbt ← Psbt_addInput psbt (inputData input);
        addInputs psbt rest
  end.

Definition createPSBT
    (inputs : list InputArg) (outputs : list OutputArg)
    (network : option string) (version locktime : option Z)
    : result Encoded :=
  network ← Utils.resolveNetwork network;
  let psbt := Psbt_new network in
  psbt ← match numberTruthy version with
         | Some version => Psbt_setVersion psbt version
         | None => Ok psbt
         end;
  psbt ← match numberTruthy locktime with
         | Some locktime => Psbt_setLocktime psbt locktime
         | None => Ok psbt
         end;
  psbt ← addInputs psbt inputs;
  psbt ← addOutputs psbt outputs network;
  Ok {| psbt := Psbt_toHex psbt; base64 := Psbt_toBase64 psbt |}.

Record PsbtInput : Type := {
  pin_index : nat;
  pin_txid : string;
  pin_vout : N;
  pin_sequence : N;
  pin_witnessUtxo : option (string * Z);
  pin_nonWitnessUtxo : option string;
  pin_redeemScript : option string;
  pin_witnessScript : option string;
  pin_partialSig : list (string * string);
  pin_sighashType : option Z
}.

Record PsbtOutput : Type := {
  pout_index : nat;
  pout_address : option string;
  pout_script : string;
  pout_amount : Z;
  pout_redeemScript : option string;
  pout_witnessScript : option string
}.

Record DecodedPsbt : Type := {
  dec_version : Z;
  dec_locktime : Z;
  dec_inputs : list PsbtInput;
  dec_outputs : list PsbtOutput;
  dec_fee : Z;
  dec_feeRate : Z;
  extractable : bool
}.

(** Reading a property of [undefined], as Node reports it. *)
Definition undefinedProperty {A} (property : string) : result A :=
  Throw ("Cannot read properties of undefined (reading '" +:+ property +:+ "')").

(** [array.map((item, index) => ...)] with a callback that may throw. *)
Fixpoint mapWithIndex {A B} (callback : A → nat → result B) (position : nat)
    (items : list A) : result (list B) :=
  match items with
  | [] => Ok []
  | item :: rest =>
      first ← callback item position;
      others ← mapWithIndex callback (S position) rest;
      Ok (first :: others)
  end.

Definition decodePSBT (psbt : string) (network : option string)
    : result DecodedPsbt :=
  network ← Utils.resolveNetwork network;
  psbt ← rethrow "Invalid PSBT format: " (Psbts.parsePSBT psbt network);
  tx ← Psbt_extractTransaction psbt true;
  inputs ←
    mapWithIndex
      (fun input position =>
         match ins tx !! position with
         | None => undefinedProperty "hash"
         | Some txInput =>
             Ok {| pin_index := position;
                   pin_txid := JS.toHex (rev (hash txInput));
                   pin_vout := index txInput;
                   pin_sequence := sequence txInput;
                   pin_witnessUtxo :=
                     (fun '(script, value) => (JS.toHex script, value))
                       <$> pi_witnessUtxo input;
                   pin_nonWitnessUtxo := JS.toHex <$> pi_nonWitnessUtxo input;
                   pin_redeemScript := JS.toHex <$> pi_redeemScript input;
                   pin_witnessScript := JS.toHex <$> pi_witnessScript input;
                   pin_partialSig :=
                     match pi_partialSig input with
                     | Some partialSig =>
                         map (fun '(pubkey, signature) =>
                                (JS.toHex pubkey, JS.toHex signature))
                             partialSig
                     | None => []
                     end;
                   pin_sighashType := pi_sighashType input |}
         end)
      0 (Psbt_data_inputs psbt);
  outputs ←
    mapWithIndex
      (fun output position =>
         match outs tx !! position with
         | None => undefinedProperty "script"
         | Some txOutput =>
             Ok {| pout_index := position;
                   pout_address :=
                     match address_fromOutputScript (script txOutput) network with
                     | Ok address => Some address
                     | Throw _ => None
                     end;
                   pout_script := JS.toHex (script txOutput);
                   pout_amount := value txOutput;
                   pout_redeemScript := JS.toHex <$> po_redeemScript output;
                   pout_witnessScript := JS.toHex <$> po_witnessScript output |}
         end)
      0 (Psbt_data_outputs psbt);
  fee ← Psbt_getFee psbt;
  feeRate ← Psbt_getFeeRate psbt;
  extracted ← Psbt_extractTransaction psbt false;
  Ok {| dec_version := version tx;
        dec_locktime := locktime tx;
        dec_inputs := inputs;
        dec_outputs := outputs;
        dec_fee := fee;
        dec_feeRate := feeRate;
        extractable := true |}.

Record SignedPsbt : Type := {
  signed_psbt : string;
  signed_base64 : string;
  signed : bool;
  errors : option (list string)
}.

(** [bitcoin.ECPair.fromWIF(wif, network)].  The bitcoinjs-lib these
    sources load is the one whose [initEccLib] src/utils/bitcoin.ts calls
    and for which it builds [ECPair] from the ecpair package: it exports
    no [ECPair] of its own, so [bitcoin.ECPair] is [undefined] and reading
    [fromWIF] of it throws. *)
Definition bitcoin_ECPair_fromWIF (wif : string) (network : Utils.Network)
    : result Signer :=
  undefinedProperty "fromWIF".

Definition signPSBT
    (psbt : string) (privateKeys : list string) (network : option string)
    : result SignedPsbt :=
  net ← Utils.resolveNetwork network;
  psbt ← rethrow "Invalid PSBT format: " (Psbts.parsePSBT psbt net);
  let '(keyPairs, errors) :=
    keyPairsFrom (fun wif => bitcoin_ECPair_fromWIF wif net) 0 privateKeys in
  if (length keyPairs =? 0)%nat
  then Throw "No valid private keys provided"
  else
    let psbt := signInputs psbt keyPairs in
    let allInputsSigned := (length (failedInputs psbt) =? 0)%nat in
    Ok {| signed_psbt := Psbt_toHex psbt;
          signed_base64 := Psbt_toBase64 psbt;
          signed := allInputsSigned;
          errors := someIfAny errors |}.

Record Finalized : Type := {
  finalized : bool;
  final_hex : option string;
  final_txid : option string;
  final_errors : option (list string)
}.

Definition finalizePSBT (psbt : string) (network : option string)
    : result Finalized :=
  psbt ← Psbts.loadPSBT psbt network;
  let errors :=
    map (fun '(i, message) =>
           "Input " +:+ JS.natToString i +:+ " validation failed: "
           +:+ message) (failedInputs psbt) in
  if (0 <? length errors)%nat
  then Ok {| finalized := false; final_hex := None; final_txid := None;
             final_errors := Some errors |}
  else
    let '(psbt, finalized) := Psbt_finalizeAllInputs psbt in
    match finalized ≫= fun _ => Psbt_extractTransaction psbt false with
    | Ok tx =>
        Ok {| finalized := true; final_hex := Some (Transaction_toHex tx);
              final_txid := Some (Transaction_getId tx);
              final_errors := None |}
    | Throw message =>
        Ok {| finalized := false; final_hex := None; final_txid := None;
              final_errors := Some ["Finalization failed: " +:+ message] |}
    end.

(** The fields of [args.updates] that [updatePSBT] reads. *)
Record Updates : Type := {
  up_witnessUtxo : option (string * Z);
  up_nonWitnessUtxo : option string;
  up_redeemScript : option string;
  up_witnessScript : option string;
  up_bip32Derivation : option (list (string * string * string))
}.

(** [if (field) psbt.updateInput(args.inputIndex, ...)] *)
Definition updateIfGiven {A} (field : option A) (update : A → InputUpdate)
    (inputIndex : Z) (psbt : Psbt) : result Psbt :=
  match field with
  | Some given => Psbt_updateInput psbt inputIndex (update given)
  | None => Ok psbt
  end.

Definition updatePSBT (psbt : string) (inputIndex : Z) (updates : Updates)
    (network : option string) : result Encoded :=
  psbt ← Psbts.loadPSBT psbt network;
  if (inputIndex <? 0) || (inputIndex >=? Z.of_nat (Psbt_inputCount psbt))
  then Throw ("Invalid input index: " +:+ Number_toString inputIndex)
  else
    rethrow "Failed to update PSBT: "
      (psbt ← updateIfGiven (up_witnessUtxo updates)
                (fun '(script, value) =>
                   UpdateWitnessUtxo (JS.bufferFromHex script) value)
                inputIndex psbt;
       psbt ← updateIfGiven (JS.truthy (up_nonWitnessUtxo updates))
                (fun text => UpdateNonWitnessUtxo (JS.bufferFromHex text))
                inputIndex psbt;
       psbt ← updateIfGiven (JS.truthy (up_redeemScript updates))
                (fun text => UpdateRedeemScript (JS.bufferFromHex text))
                inputIndex psbt;
       psbt ← updateIfGiven (JS.truthy (up_witnessScript updates))
                (fun text => UpdateWitnessScript (JS.bufferFromHex text))
                inputIndex psbt;
       psbt ← updateIfGiven (up_bip32Derivation updates)
                (fun derivations =>
                   UpdateBip32Derivation
                     (map (fun '(pubkey, masterFingerprint, path) =>
                             (JS.bufferFromHex pubkey,
                              JS.bufferFromHex masterFingerprint, path))
                          derivations))
                inputIndex psbt;
       Ok {| psbt := Psbt_toHex psbt; base64 := Psbt_toBase64 psbt |}).

End WithLibrary.
End PsbtTools.

(** ** Hashing (src/tools/utility.ts) *)

Module UtilityTools.
Section WithLibrary.
Context `{Library}.

(** [Buffer.from(s, 'utf8')] on a string of code units below 256: one byte
    below 128, two bytes from there on. *)
Definition utf8Unit (c : ascii) : list Byte.byte :=
  let n := JS.code c in
  if (n <? 128)%N then [byte_of_ascii c]
  else [byte_of_ascii (ascii_of_N (192 + n / 64));
        byte_of_ascii (ascii_of_N (128 + n mod 64))].

Definition Buffer_fromUtf8 (s : string) : Buffer :=
  concat (map utf8Unit (JS.chars s)).

Record Hashed : Type := {
  hash : string;
  hashType : string
}.

Definition hashMessage (message : string)
    (hashType tag encoding : option string) : result Hashed :=
  let hashType := JS.orDefault hashType "sha256" in
  let encoding := JS.orDefault encoding "utf8" in
  messageBuffer ←
    (if String.eqb encoding "hex"
     then if negb (Utils.isValidHex message)
          then Throw "Invalid hex message"
          else Ok (JS.bufferFromHex message)
     else Ok (Buffer_fromUtf8 message));
  hash ←
    (if String.eqb hashType "sha256" then Ok (crypto_sha256 messageBuffer)
     else if String.eqb hashType "hash160" then Ok (crypto_hash160 messageBuffer)
     else if String.eqb hashType "hash256" then Ok (crypto_hash256 messageBuffer)
     else if String.eqb hashType "taggedHash" then
       match JS.truthy tag with
       | None => Throw "Tag required for tagged hash"
       | Some tag => crypto_taggedHash tag messageBuffer
       end
     else Throw ("Unsupported hash type: " +:+ hashType));
  Ok {| hash := JS.toHex hash; hashType := hashType |}.

End WithLibrary.
End UtilityTools.
(** * Doubles

    The vocabulary in which the size and fee estimates are stated: the
    integer a double holds, and the normal form of an integer below 2^53
    as a double. *)

Module Doubles.

(** The 53-bit mantissa of a positive integer below 2^53, and the double
    of that integer with a sign. *)
Definition mantissa (n : positive) : positive :=
  Z.to_pos (Z.pos n * 2 ^ (52 - Z.log2 (Z.pos n))).

Definition canon (s : bool) (n : positive) : spec_float :=
  S754_finite s (mantissa n) (Z.log2 (Z.pos n) - 52).

(** The double nearest to an integer, as a specification float. *)
Definition SFofZ (z : Z) : spec_float := binary_normalize prec emax z 0 false.

Definition signed (s : bool) (n : positive) : Z := cond_Zopp s (Z.pos n).

(** [Number.isSafeInteger]: the integers every one of which is a double. *)
Definition safeInteger (z : Z) : Prop := Z.abs z < 2 ^ 53.

(** The integer a double holds, if it holds one; [-0] holds 0. *)
Definition integerValue (x : float) : option Z :=
  match Prim2SF x with
  | S754_zero _ => Some 0
  | S754_finite s m e =>
      if 0 <=? e then Some (cond_Zopp s (Z.pos m * 2 ^ e))
      else if Z.pos m mod 2 ^ (- e) =? 0
           then Some (cond_Zopp s (Z.pos m / 2 ^ (- e)))
           else None
  | _ => None
  end.

End Doubles.


(** * Properties *)

(** ** Strings as lists of code units *)

Module StringFacts.

Lemma chars_app s t : JS.chars (s +:+ t) = JS.chars s ++ JS.chars t.
Proof. induction s as [|c s IH]; simpl; [done | by rewrite <- IH]. Qed.

Lemma chars_inj s t : JS.chars s = JS.chars t → s = t.
Proof.
  intros Heq. rewrite <- (String.string_of_list_ascii_of_string s),
    <- (String.string_of_list_ascii_of_string t). unfold JS.chars in Heq.
  by rewrite Heq.
Qed.

Lemma length_chars s : length (JS.chars s) = String.length s.
Proof. induction s as [|c s IH]; simpl; [done | by rewrite IH]. Qed.

Lemma chars_of_list l : JS.chars (String.string_of_list_ascii l) = l.
Proof. apply String.list_ascii_of_string_of_list_ascii. Qed.

Lemma of_list_chars s : String.string_of_list_ascii (JS.chars s) = s.
Proof. apply String.string_of_list_ascii_of_string. Qed.

End StringFacts.

(** ** The pattern matcher decides the words of a pattern *)

Module RegExpFacts.
Import RegExp.

Lemma nullable_matches r : nullable r = true ↔ matches r [].
Proof.
  induction r as [| |p|r1 IH1 r2 IH2|r1 IH1 r2 IH2|r IH]; simpl.
  - split; [discriminate | inversion 1].
  - split; [constructor | reflexivity].
  - split; [discriminate | inversion 1].
  - rewrite andb_true_iff, IH1, IH2. split.
    + intros [H1 H2]. apply (m_cat _ _ [] [] H1 H2).
    + inversion 1 as [| |? ? s1 s2 H1 H2 E1 E2| | | |]; subst.
      apply app_eq_nil in E2 as [-> ->]. auto.
  - rewrite orb_true_iff, IH1, IH2. split.
    + intros [?|?]; [apply m_alt_l | apply m_alt_r]; assumption.
    + inversion 1; subst; auto.
  - split; [constructor | reflexivity].
Qed.

(** A non-empty word of [Star r] starts with a non-empty word of [r]. *)
Lemma matches_star_cons r a s :
  matches (Star r) (a :: s) →
  ∃ s1 s2, s = s1 ++ s2 ∧ matches r (a :: s1) ∧ matches (Star r) s2.
Proof.
  intros Hm. remember (Star r) as r' eqn:Er. remember (a :: s) as w eqn:Ew.
  revert s Ew.
  induction Hm as [| | | | | |r0 u1 u2 H1 _ H2 IH2]; intros t Ew; try discriminate.
  injection Er as ->. destruct u1 as [|b u1]; simpl in Ew.
  - apply IH2; auto.
  - injection Ew as -> <-. eauto.
Qed.

Lemma deriv_matches a r s : matches (deriv a r) s ↔ matches r (a :: s).
Proof.
  revert s. induction r as [| |p|r1 IH1 r2 IH2|r1 IH1 r2 IH2|r IH]; intros s; simpl.
  - split; inversion 1.
  - split; inversion 1.
  - destruct (p a) eqn:Hp; split.
    + inversion 1; subst. by constructor.
    + inversion 1; subst. constructor.
    + inversion 1.
    + inversion 1; subst. congruence.
  - assert (Hcat : matches (Cat (deriv a r1) r2) s →
                   matches (Cat r1 r2) (a :: s)).
    { inversion 1 as [| |? ? s1 s2 H1 H2| | | |]; subst.
      apply IH1 in H1. apply (m_cat _ _ (a :: s1) s2 H1 H2). }
    destruct (nullable r1) eqn:Hn; split.
    + inversion 1 as [| | |? ? ? H1|? ? ? H2| |]; subst; [by apply Hcat|].
      apply IH2 in H2. apply nullable_matches in Hn.
      apply (m_cat _ _ [] (a :: s) Hn H2).
    + inversion 1 as [| |? ? s1 s2 H1 H2 E1 E2| | | |]; subst.
      destruct s1 as [|b s1]; simpl in E2.
      * subst s2. apply m_alt_r. by apply IH2.
      * injection E2 as -> <-. apply m_alt_l. constructor; [by apply IH1 | done].
    + apply Hcat.
    + inversion 1 as [| |? ? s1 s2 H1 H2 E1 E2| | | |]; subst.
      destruct s1 as [|b s1]; simpl in E2.
      * apply nullable_matches in H1. congruence.
      * injection E2 as -> <-. constructor; [by apply IH1 | done].
  - split.
    + inversion 1; subst; [apply m_alt_l | apply m_alt_r]; by apply IH1 || by apply IH2.
    + inversion 1; subst; [apply m_alt_l | apply m_alt_r]; by apply IH1 || by apply IH2.
  - split.
    + inversion 1 as [| |? ? s1 s2 H1 H2| | | |]; subst.
      apply IH in H1. apply (m_star_cons _ (a :: s1) s2 H1 H2).
    + intros (s1 & s2 & -> & H1 & H2)%matches_star_cons.
      constructor; [by apply IH | done].
Qed.

Lemma run_matches r s : run r s = true ↔ matches r s.
Proof.
  revert r. induction s as [|a s IH]; intros r; simpl.
  - apply nullable_matches.
  - rewrite IH. apply deriv_matches.
Qed.

(** [test] decides the words of the pattern. *)
Lemma test_matches r s : test r s = true ↔ matches r (JS.chars s).
Proof. apply run_matches. Qed.

(** [/^[class]*$/]: every code unit is in the class. *)
Lemma matches_star_class p s :
  matches (Star (Class p)) s ↔ Forall (fun c => p c = true) s.
Proof.
  split.
  - induction s as [|a s IH]; [constructor|].
    intros (s1 & s2 & -> & H1 & H2)%matches_star_cons.
    inversion H1; subst. simpl in *. constructor; auto.
  - induction 1 as [|a s Ha _ IH]; [constructor|].
    apply (m_star_cons _ [a] s); [by constructor | done].
Qed.

End RegExpFacts.

(** ** Facts about src/utils/bitcoin.ts *)

Module UtilsFacts.
Import Utils.

Lemma hexClass_isHexDigit c : RegExp.hexClass c = true ↔ Spec.isHexDigit c.
Proof.
  unfold Spec.isHexDigit.
  rewrite <- (bool_decide_spec (c ∈ JS.chars "0123456789abcdefABCDEF")).
  destruct c as [[] [] [] [] [] [] [] []]; vm_compute; intuition congruence.
Qed.
Import RegExpFacts.

Lemma isValidHex_iff s :
  isValidHex s = true ↔
  Forall Spec.isHexDigit (JS.chars s) ∧ Nat.Even (String.length s).
Proof.
  unfold isValidHex. rewrite andb_true_iff, test_matches.
  unfold RegExp.hexStar. rewrite matches_star_class, Nat.eqb_eq.
  rewrite (Forall_iff _ _ _ hexClass_isHexDigit).
  rewrite Nat.Div0.mod_divides. reflexivity.
Qed.

Lemma allAscii_complete c : c ∈ JS.allAscii.
Proof.
  apply (bool_decide_unpack (c ∈ JS.allAscii)).
  destruct c as [[] [] [] [] [] [] [] []]; vm_compute; exact I.
Qed.

Lemma toLowerChar_sameLetter a b :
  JS.inRange "a" "z" b = true →
  Ascii.eqb (JS.toLowerChar a) b = Spec.sameLetter a b.
Proof.
  assert (Hall : forallb (fun a => forallb (fun b =>
            implb (JS.inRange "a" "z" b)
                  (Bool.eqb (Ascii.eqb (JS.toLowerChar a) b) (Spec.sameLetter a b)))
            JS.allAscii) JS.allAscii = true) by (vm_compute; reflexivity).
  rewrite forallb_forall in Hall.
  specialize (Hall a (proj1 (list_elem_of_In _ _) (allAscii_complete a))).
  rewrite forallb_forall in Hall.
  specialize (Hall b (proj1 (list_elem_of_In _ _) (allAscii_complete b))).
  intros Hb. rewrite Hb in Hall. simpl in Hall.
  by apply Bool.eqb_prop.
Qed.

Lemma toLowerCase_equalIgnoringCase name t :
  Forall (fun b => JS.inRange "a" "z" b = true) (JS.chars t) →
  JS.toLowerCase name = t ↔ Spec.equalIgnoringCase name t.
Proof.
  unfold Spec.equalIgnoringCase. revert t.
  induction name as [|a name IH]; intros [|b t] Ht; simpl.
  - split; [constructor | done].
  - split; [done | inversion 1].
  - split; [done | inversion 1].
  - simpl in Ht. apply Forall_cons in Ht as [Hb Ht].
    rewrite Forall2_cons, <- (IH t Ht), <- (toLowerChar_sameLetter a b Hb).
    rewrite Ascii.eqb_eq. split; [by intros [= -> ->] | by intros [-> ->]].
Qed.

Lemma validateNetwork_lowered name :
  validateNetwork name = true ↔ JS.toLowerCase name ∈ Spec.networkNames.
Proof.
  unfold validateNetwork, JS.includes, Spec.networkNames. simpl.
  rewrite !orb_true_iff, !String.eqb_eq, !elem_of_cons, elem_of_nil. intuition congruence.
Qed.

Lemma networkNames_lowercase t :
  t ∈ Spec.networkNames → Forall (fun b => JS.inRange "a" "z" b = true) (JS.chars t).
Proof.
  unfold Spec.networkNames. rewrite !elem_of_cons, elem_of_nil.
  intros [->|[->|[->|[]]]]; repeat constructor.
Qed.

Lemma validateNetwork_recognized name :
  validateNetwork name = true ↔ Spec.recognized name.
Proof.
  rewrite validateNetwork_lowered. unfold Spec.recognized. split.
  - intros Hin. exists (JS.toLowerCase name). split; [done|].
    by apply toLowerCase_equalIgnoringCase; [apply networkNames_lowercase|].
  - intros (t & Hin & Heq).
    apply toLowerCase_equalIgnoringCase in Heq as ->; [done|].
    by apply networkNames_lowercase.
Qed.

Lemma getNetworkConfig_cases name :
  match getNetworkConfig name with
  | Ok net =>
      JS.toLowerCase name =
        match net with
        | bitcoin => "mainnet" | testnet => "testnet" | regtest => "regtest"
        end
  | Throw msg =>
      msg = "Unsupported network: " +:+ name ∧ validateNetwork name = false
  end.
Proof.
  unfold getNetworkConfig, validateNetwork, JS.includes. simpl.
  destruct (String.eqb_spec (JS.toLowerCase name) "mainnet") as [->|]; [done|].
  destruct (String.eqb_spec (JS.toLowerCase name) "testnet") as [->|]; [done|].
  destruct (String.eqb_spec (JS.toLowerCase name) "regtest") as [->|]; [done|].
  done.
Qed.

End UtilsFacts.

(** ** Hex validity and network resolution *)

(** C9 — [isValidHex s] is true exactly when every character of [s] is a
    hex digit and the length of [s] is even; the empty string is valid. *)
Theorem isValidHex_spec (s : string) :
  (Utils.isValidHex s = true ↔
     Forall Spec.isHexDigit (JS.chars s) ∧ Nat.Even (String.length s))
  ∧ Utils.isValidHex EmptyString = true.
Proof. split; [apply UtilsFacts.isValidHex_iff | reflexivity]. Qed.

Example isValidHex_odd_length : Utils.isValidHex "abc" = false.
Proof. reflexivity. Qed.

Example isValidHex_not_hex : Utils.isValidHex "0g" = false.
Proof. reflexivity. Qed.

(** C10 — [getNetworkConfig name] returns a network exactly when
    [validateNetwork name] is true, which is exactly when [name] is one of
    mainnet, testnet, regtest up to case; for any other string the former
    throws and the latter is false. *)
Theorem network_resolution (name : string) :
  (is_ok (Utils.getNetworkConfig name) = true ↔ Utils.validateNetwork name = true)
  ∧ (Utils.validateNetwork name = true ↔ Spec.recognized name)
  ∧ (Spec.equalIgnoringCase name "mainnet" →
       Utils.getNetworkConfig name = Ok Utils.bitcoin)
  ∧ (Spec.equalIgnoringCase name "testnet" →
       Utils.getNetworkConfig name = Ok Utils.testnet)
  ∧ (Spec.equalIgnoringCase name "regtest" →
       Utils.getNetworkConfig name = Ok Utils.regtest)
  ∧ (¬ Spec.recognized name →
       Utils.getNetworkConfig name = Throw ("Unsupported network: " +:+ name)
       ∧ Utils.validateNetwork name = false).
Proof.
  pose proof (UtilsFacts.getNetworkConfig_cases name) as Hcases.
  pose proof (UtilsFacts.validateNetwork_recognized name) as Hrec.
  assert (Hto : ∀ t, t ∈ Spec.networkNames →
            Spec.equalIgnoringCase name t → JS.toLowerCase name = t).
  { intros t Ht Heq. apply UtilsFacts.toLowerCase_equalIgnoringCase; [|done].
    by apply UtilsFacts.networkNames_lowercase. }
  assert (Hin : ∀ t, t ∈ Spec.networkNames → JS.toLowerCase name = t →
            Utils.validateNetwork name = true).
  { intros t Ht <-. by apply UtilsFacts.validateNetwork_lowered. }
  assert (Hm : "mainnet" ∈ Spec.networkNames) by repeat constructor.
  assert (Ht : "testnet" ∈ Spec.networkNames) by repeat constructor.
  assert (Hr : "regtest" ∈ Spec.networkNames) by repeat constructor.
  pose proof (Hto _ Hm) as Hm'. pose proof (Hto _ Ht) as Ht'.
  pose proof (Hto _ Hr) as Hr'.
  destruct (Utils.getNetworkConfig name) as [net|msg]; simpl.
  - assert (Hv : Utils.validateNetwork name = true).
    { destruct net; (eapply Hin; [|exact Hcases]); repeat constructor. }
    split; [done|]. split; [done|].
    split; [intros Heq%Hm'; destruct net; congruence|].
    split; [intros Heq%Ht'; destruct net; congruence|].
    split; [intros Heq%Hr'; destruct net; congruence|].
    intros Hn. destruct Hn. by apply Hrec.
  - destruct Hcases as [-> Hf].
    split; [rewrite Hf; done|]. split; [done|].
    split; [intros Heq%Hm'; rewrite (Hin _ Hm Heq) in Hf; done|].
    split; [intros Heq%Ht'; rewrite (Hin _ Ht Heq) in Hf; done|].
    split; [intros Heq%Hr'; rewrite (Hin _ Hr Heq) in Hf; done|].
    done.
Qed.

Example network_mixed_case :
  Utils.getNetworkConfig "MainNet" = Ok Utils.bitcoin
  ∧ Utils.validateNetwork "TESTNET" = true
  ∧ Utils.getNetworkConfig "signet" = Throw "Unsupported network: signet"
  ∧ Utils.validateNetwork "signet" = false.
Proof. repeat split; reflexivity. Qed.

(** ** PSBT input routing *)

Module PsbtFacts.
Import RegExp RegExpFacts.

Lemma hexClass_base64Class c : hexClass c = true → base64Class c = true.
Proof. destruct c as [[] [] [] [] [] [] [] []]; vm_compute; congruence. Qed.

Lemma matches_UpTo2_nil r : matches (UpTo2 r) [].
Proof. apply (m_cat _ _ [] []); apply m_alt_l; constructor. Qed.

(** A word over the hex alphabet is a word of the base64 pattern: all of
    it is read by the starred class, and no padding follows. *)
Lemma hex_matches_base64 s :
  Forall (fun c => hexClass c = true) s → matches base64Pattern s.
Proof.
  intros Hs. rewrite <- (app_nil_r s). apply m_cat.
  - apply matches_star_class. eapply Forall_impl; [done|].
    apply hexClass_base64Class.
  - apply matches_UpTo2_nil.
Qed.

Lemma isValidHex_base64 s :
  Utils.isValidHex s = true → test base64Pattern s = true.
Proof.
  unfold Utils.isValidHex. rewrite andb_true_iff, !test_matches.
  intros [Hs _]. apply hex_matches_base64. by apply matches_star_class.
Qed.

End PsbtFacts.

(** C3 — every string over the hex alphabet matches the pattern by which
    the PSBT handlers detect base64, so a valid hex input is parsed by the
    base64 decoder, and only an input that is not valid hex reaches the hex
    decoder. *)
Theorem hex_takes_base64_branch `{External} (psbt : string) :
  (Forall Spec.isHexDigit (JS.chars psbt) →
     RegExp.test RegExp.base64Pattern psbt = true)
  ∧ (Utils.isValidHex psbt = true →
       Psbts.detectEncoding psbt = Psbts.Base64
       ∧ (∀ network,
            Psbts.parsePSBT psbt network = Psbt_fromBase64 psbt network)
       ∧ (∀ network,
            Psbts.loadPSBT psbt network =
            Utils.resolveNetwork network ≫= fun net =>
              rethrow "Invalid PSBT format: " (Psbt_fromBase64 psbt net)))
  ∧ (Psbts.detectEncoding psbt = Psbts.Hex → Utils.isValidHex psbt = false).
Proof.
  split; [|split].
  - intros Hs. apply RegExpFacts.test_matches, PsbtFacts.hex_matches_base64.
    eapply Forall_impl; [done|]. intros c. apply UtilsFacts.hexClass_isHexDigit.
  - intros Hv%PsbtFacts.isValidHex_base64.
    unfold Psbts.loadPSBT, Psbts.parsePSBT, Psbts.detectEncoding.
    rewrite Hv. done.
  - unfold Psbts.detectEncoding. intros Hd.
    destruct (Utils.isValidHex psbt) eqn:Hv; [|done].
    apply PsbtFacts.isValidHex_base64 in Hv. by rewrite Hv in Hd.
Qed.

(** The hex serialization of the PSBT magic bytes goes to the base64
    decoder. *)
Lemma hex_takes_base64_branch_witness :
  Utils.isValidHex "70736274ff" = true
  ∧ @Psbts.parsePSBT (Sample.external Sample.plain) "70736274ff" Utils.testnet
    = Ok "base64:70736274ff".
Proof.
  split; [reflexivity|].
  destruct (@hex_takes_base64_branch (Sample.external Sample.plain) "70736274ff")
    as (_ & Hb & _).
  destruct (Hb eq_refl) as (_ & -> & _). reflexivity.
Defined.

(** An input outside both alphabets is the only kind that reaches the hex
    decoder. *)
Example non_base64_takes_hex_branch :
  @Psbts.parsePSBT (Sample.external Sample.plain) "70-73" Utils.testnet
  = Ok "hex:70-73".
Proof. reflexivity. Qed.

(** ** Tool names *)

Module RegistryFacts.
Import Registry.

Lemma setup_other (l : list Tool) (acc : gmap string Tool) (key : string) :
  key ∉ name <$> l →
  foldl (fun m tool => <[name tool := tool]> m) acc l !! key = acc !! key.
Proof.
  revert acc. induction l as [|t l IH]; intros acc Hk; simpl; [done|].
  rewrite fmap_cons, not_elem_of_cons in Hk. destruct Hk as [Hne Hk].
  rewrite IH by done. by rewrite lookup_insert_ne.
Qed.

(** With unique names no [set] replaces an earlier one: every tool is
    found under its own name. *)
Lemma setup_lookup (l : list Tool) (acc : gmap string Tool) (t : Tool) :
  NoDup (name <$> l) → t ∈ l →
  foldl (fun m tool => <[name tool := tool]> m) acc l !! name t = Some t.
Proof.
  revert acc. induction l as [|u l IH]; intros acc Hnd Ht; simpl.
  - by apply elem_of_nil in Ht.
  - rewrite fmap_cons in Hnd. apply NoDup_cons in Hnd as [Hu Hnd].
    apply elem_of_cons in Ht as [->|Ht].
    + rewrite setup_other by done. apply lookup_insert_eq.
    + by apply IH.
Qed.

Lemma setup_size (l : list Tool) (acc : gmap string Tool) :
  NoDup (name <$> l) → (∀ t, t ∈ l → acc !! name t = None) →
  size (foldl (fun m tool => <[name tool := tool]> m) acc l)
  = (size acc + length l)%nat.
Proof.
  revert acc. induction l as [|u l IH]; intros acc Hnd Hfresh; simpl; [lia|].
  rewrite fmap_cons in Hnd. apply NoDup_cons in Hnd as [Hu Hnd].
  rewrite IH; [|done|].
  - rewrite map_size_insert_None; [lia|]. apply Hfresh. by left.
  - intros t Ht. rewrite lookup_insert_ne; [apply Hfresh; by right|].
    intros Heq. apply Hu. rewrite Heq. by apply list_elem_of_fmap_2.
Qed.

Lemma names_NoDup : NoDup (name <$> allTools).
Proof. apply (bool_decide_unpack _). vm_compute. exact I. Qed.

End RegistryFacts.

(** C1 — across the four registries every tool name occurs exactly once;
    hence the map the dispatcher builds holds every tool under its own
    name, none replaced by a later one, and a name is declared by one
    registry only, the one the dispatcher routes it to. *)
Theorem tool_names_unique :
  NoDup (Registry.name <$> Registry.allTools)
  ∧ (∀ t, t ∈ Registry.allTools →
       length (filter (fun u => Registry.name u = Registry.name t)
                      Registry.allTools) = 1%nat)
  ∧ (∀ t, t ∈ Registry.allTools →
       Registry.setupTools !! Registry.name t = Some t)
  ∧ size Registry.setupTools = length Registry.allTools
  ∧ (∀ c t, t ∈ Registry.registry c →
       Registry.route (Registry.name t) = Ok c
       ∧ ∀ c', Registry.declares (Registry.registry c') (Registry.name t) = true →
               c' = c).
Proof.
  split; [apply RegistryFacts.names_NoDup|].
  split.
  { intros t Ht.
    repeat (apply elem_of_cons in Ht as [->|Ht]); [..|by apply elem_of_nil in Ht];
      vm_compute; reflexivity. }
  split.
  { intros t Ht. apply RegistryFacts.setup_lookup;
      [apply RegistryFacts.names_NoDup | done]. }
  split.
  { unfold Registry.setupTools, Registry.setupFrom.
    rewrite RegistryFacts.setup_size.
    - by rewrite map_size_empty.
    - apply RegistryFacts.names_NoDup.
    - intros. apply lookup_empty. }
  intros c t Ht.
  destruct c; simpl in Ht;
    repeat (apply elem_of_cons in Ht as [->|Ht]); try (by apply elem_of_nil in Ht);
    (split; [vm_compute; reflexivity | intros []; vm_compute; congruence]).
Qed.
(** * Arithmetic of doubles on integers

    On integers below 2^53 in magnitude the operations of the doubles
    are those of the integers: sums, differences and products that stay
    below 2^53 are exact, a quarter is exact up to its two fraction bits,
    and [Math.ceil] rounds it up. *)

Module DoubleFacts.
Import Doubles.

Lemma digits_log2 (n : positive) :
  Z.pos (digits2_pos n) = Z.log2 (Z.pos n) + 1.
Proof.
  induction n as [n IH|n IH|]; cbn [digits2_pos]; [| |reflexivity].
  - rewrite Pos2Z.inj_succ, IH.
    change (Z.pos n~1) with (2 * Z.pos n + 1).
    rewrite Z.log2_succ_double by lia. lia.
  - rewrite Pos2Z.inj_succ, IH.
    change (Z.pos n~0) with (2 * Z.pos n).
    rewrite Z.log2_double by lia. lia.
Qed.

Lemma iter_pos_nat {A} (f : A -> A) (p : positive) (x : A) :
  SpecFloat.iter_pos f p x = Nat.iter (Pos.to_nat p) f x.
Proof.
  revert x. induction p as [p IH|p IH|]; intros x; cbn [SpecFloat.iter_pos].
  - rewrite !IH, Pos2Nat.inj_xI.
    rewrite <- Nat.iter_add.
    replace (S (2 * Pos.to_nat p))%nat with (Pos.to_nat p + Pos.to_nat p + 1)%nat by lia.
    rewrite (Nat.iter_add (Pos.to_nat p + Pos.to_nat p) 1). reflexivity.
  - rewrite !IH, Pos2Nat.inj_xO, <- Nat.iter_add. f_equal. lia.
  - reflexivity.
Qed.

Lemma shr_1_even (p : positive) :
  shr_1 (Build_shr_record (Z.pos p~0) false false)
  = Build_shr_record (Z.pos p) false false.
Proof. reflexivity. Qed.

Lemma iter_shr_exact (k : nat) (n : positive) :
  Nat.iter k shr_1 (Build_shr_record (Z.pos n * 2 ^ Z.of_nat k) false false)
  = Build_shr_record (Z.pos n) false false.
Proof.
  revert n. induction k as [|k IH]; intros n.
  - cbn [Nat.iter Z.of_nat]. rewrite Z.pow_0_r, Z.mul_1_r. reflexivity.
  - rewrite Nat.iter_succ_r.
    replace (Z.pos n * 2 ^ Z.of_nat (S k)) with (Z.pos (n~0) * 2 ^ Z.of_nat k).
    2:{ rewrite Nat2Z.inj_succ, Z.pow_succ_r by lia. lia. }
    assert (exists q, Z.pos n~0 * 2 ^ Z.of_nat k = Z.pos (q~0) /\ Z.pos q = Z.pos n * 2 ^ Z.of_nat k) as (q & Hq & Hq').
    { assert (0 < 2 ^ Z.of_nat k) by (apply Z.pow_pos_nonneg; lia).
      exists (Z.to_pos (Z.pos n * 2 ^ Z.of_nat k)). rewrite Pos2Z.inj_xO.
      rewrite Z2Pos.id by lia. split; lia. }
    rewrite Hq, shr_1_even, Hq'. apply IH.
Qed.

Lemma fexp_normal (e : Z) : -1021 <= e -> fexp prec emax e = e - 53.
Proof. intros He. unfold fexp, SpecFloat.emin, prec, emax. lia. Qed.

Lemma shr_fexp_exact (M N : positive) (p E : Z) :
  Z.log2 (Z.pos N) = 52 -> 0 <= p -> Z.pos M = Z.pos N * 2 ^ p ->
  -1074 <= E + p ->
  shr_fexp prec emax (Z.pos M) E loc_Exact
  = (Build_shr_record (Z.pos N) false false, E + p).
Proof.
  intros HN Hp HM HE. unfold shr_fexp. cbn [Zdigits2 shr_record_of_loc].
  rewrite digits_log2, HM, Z.log2_mul_pow2, HN by lia.
  rewrite fexp_normal by lia.
  replace (p + 52 + 1 + E - 53 - E) with p by lia.
  unfold shr. destruct p as [|pp|pp]; [| |lia].
  - f_equal; [|lia]. f_equal. lia.
  - f_equal. rewrite iter_pos_nat, <- (positive_nat_Z pp).
    apply iter_shr_exact.
Qed.

Lemma binary_round_aux_exact (s : bool) (M N : positive) (p E : Z) :
  Z.log2 (Z.pos N) = 52 -> 0 <= p -> Z.pos M = Z.pos N * 2 ^ p ->
  -1074 <= E + p <= 971 ->
  binary_round_aux prec emax s (Z.pos M) E loc_Exact = S754_finite s N (E + p).
Proof.
  intros HN Hp HM HE. unfold binary_round_aux.
  rewrite (shr_fexp_exact M N p E) by lia.
  cbn [shr_m loc_of_shr_record round_nearest_even].
  rewrite (shr_fexp_exact N N 0 (E + p)) by lia.
  cbn [shr_m]. rewrite Z.add_0_r.
  destruct (Z.leb_spec (E + p) (emax - prec)) as [_|Hbig]; [reflexivity|].
  unfold emax, prec in Hbig. lia.
Qed.

Lemma iter_xO (d : positive) (m : positive) :
  Z.pos (Pos.iter xO m d) = Z.pos m * 2 ^ Z.pos d.
Proof.
  rewrite Pos2Nat.inj_iter, <- (positive_nat_Z d).
  induction (Pos.to_nat d) as [|k IH].
  - simpl. lia.
  - cbn [nat_rect]. rewrite Pos2Z.inj_xO, IH, Nat2Z.inj_succ, Z.pow_succ_r by lia.
    lia.
Qed.

(** Rounding a value [n * 2^(k + E)] whose odd part fits the mantissa gives
    the value itself, in canonical form. *)

Lemma binary_round_exact (s : bool) (M n N : positive) (k E : Z) :
  0 <= k -> Z.pos M = Z.pos n * 2 ^ k ->
  Z.log2 (Z.pos n) <= 52 ->
  Z.pos N = Z.pos n * 2 ^ (52 - Z.log2 (Z.pos n)) ->
  -1074 <= E + k + Z.log2 (Z.pos n) - 52 <= 971 ->
  binary_round prec emax s M E
  = S754_finite s N (E + k + Z.log2 (Z.pos n) - 52).
Proof.
  intros Hk HM Hn HN HE. unfold binary_round.
  set (l := Z.log2 (Z.pos n)) in *.
  assert (0 <= l) by apply Z.log2_nonneg.
  assert (HlN : Z.log2 (Z.pos N) = 52).
  { rewrite HN, Z.log2_mul_pow2 by lia. fold l. lia. }
  rewrite digits_log2, HM, Z.log2_mul_pow2 by lia. fold l.
  rewrite fexp_normal by lia.
  unfold shl_align.
  destruct (k + l + 1 + E - 53 - E) as [|d|d] eqn:Hd.
  - rewrite (binary_round_aux_exact s M N 0 E); [f_equal; lia|done|lia| |lia].
    rewrite HM, HN. replace k with (52 - l) by lia. lia.
  - rewrite (binary_round_aux_exact s M N (Z.pos d) E); [f_equal; lia|done|lia| |lia].
    rewrite HM, HN, <- Z.mul_assoc, <- Z.pow_add_r by lia. do 2 f_equal. lia.
  - rewrite (binary_round_aux_exact s (Pos.iter xO M d) N 0);
      [f_equal; lia|done|lia| |lia].
    rewrite iter_xO, HM, HN, <- Z.mul_assoc, <- Z.pow_add_r by lia.
    rewrite Z.pow_0_r, Z.mul_1_r. do 2 f_equal. lia.
Qed.

(** The canonical form of the integer [n] with sign [s]. *)

Lemma mantissa_pos (n : positive) :
  Z.log2 (Z.pos n) <= 52 ->
  Z.pos (mantissa n) = Z.pos n * 2 ^ (52 - Z.log2 (Z.pos n)).
Proof.
  intros Hn. unfold mantissa. rewrite Z2Pos.id; [done|].
  apply Z.mul_pos_pos; [done|]. apply Z.pow_pos_nonneg; lia.
Qed.

Lemma log2_mantissa (n : positive) :
  Z.log2 (Z.pos n) <= 52 -> Z.log2 (Z.pos (mantissa n)) = 52.
Proof.
  intros Hn. pose proof (Z.log2_nonneg (Z.pos n)).
  rewrite mantissa_pos, Z.log2_mul_pow2 by lia. lia.
Qed.

Lemma small_log2 (n : positive) : Z.pos n < 2 ^ 53 <-> Z.log2 (Z.pos n) <= 52.
Proof.
  split.
  - intros Hn. apply Z.log2_lt_pow2 in Hn; lia.
  - intros Hn. apply Z.log2_lt_pow2; lia.
Qed.

Lemma round_canon (s : bool) (M n : positive) (k E : Z) :
  0 <= k -> Z.pos M = Z.pos n * 2 ^ k -> Z.pos n < 2 ^ 53 -> E + k = 0 ->
  binary_round prec emax s M E = canon s n.
Proof.
  intros Hk HM Hn HE. apply small_log2 in Hn.
  pose proof (Z.log2_nonneg (Z.pos n)).
  rewrite (binary_round_exact s M n (mantissa n) k E); try lia.
  - unfold canon. f_equal. lia.
  - by apply mantissa_pos.
Qed.

Lemma SFofZ_pos (n : positive) :
  Z.pos n < 2 ^ 53 -> SFofZ (Z.pos n) = canon false n.
Proof.
  intros Hn. unfold SFofZ. cbn [binary_normalize].
  apply (round_canon false n n 0 0); lia.
Qed.

Lemma SFofZ_neg (n : positive) :
  Z.pos n < 2 ^ 53 -> SFofZ (Z.neg n) = canon true n.
Proof.
  intros Hn. unfold SFofZ. cbn [binary_normalize].
  apply (round_canon true n n 0 0); lia.
Qed.

Lemma normalize_canon (c : Z) (K : Z) :
  0 <= K -> Z.abs c < 2 ^ 53 ->
  binary_normalize prec emax (c * 2 ^ K) (- K) false = SFofZ c.
Proof.
  intros HK Hc. assert (0 < 2 ^ K) by (apply Z.pow_pos_nonneg; lia).
  destruct c as [|n|n].
  - reflexivity.
  - rewrite SFofZ_pos by lia.
    destruct (Z.pos n * 2 ^ K) as [|M|M] eqn:HM; [lia| |lia].
    cbn [binary_normalize]. apply (round_canon false M n K); lia.
  - rewrite SFofZ_neg by lia.
    destruct (Z.neg n * 2 ^ K) as [|M|M] eqn:HM; [lia|lia|].
    cbn [binary_normalize]. apply (round_canon true M n K); lia.
Qed.

Lemma valid_canon (s : bool) (n : positive) :
  Z.pos n < 2 ^ 53 -> valid_binary (canon s n) = true.
Proof.
  intros Hn%small_log2. pose proof (Z.log2_nonneg (Z.pos n)).
  unfold canon, SpecFloat.valid_binary, bounded, canonical_mantissa.
  rewrite digits_log2, log2_mantissa, fexp_normal by lia.
  apply andb_true_iff. split; [apply Z.eqb_eq; lia|].
  apply Z.leb_le. unfold emax, prec. lia.
Qed.

Lemma valid_SFofZ (z : Z) : Z.abs z < 2 ^ 53 -> valid_binary (SFofZ z) = true.
Proof.
  intros Hz. destruct z as [|n|n]; [done|..].
  - rewrite SFofZ_pos by lia. apply valid_canon. lia.
  - rewrite SFofZ_neg by lia. apply valid_canon. lia.
Qed.

Lemma shl_align_fst (m : positive) (e ez : Z) :
  ez <= e -> Z.pos (fst (shl_align m e ez)) = Z.pos m * 2 ^ (e - ez).
Proof.
  intros Hle. unfold shl_align.
  destruct (ez - e) as [|d|d] eqn:Hd; cbn [fst].
  - replace (e - ez) with 0 by lia. lia.
  - lia.
  - rewrite iter_xO. do 2 f_equal. lia.
Qed.

(** The mantissa of a canonical integer, aligned to a lower exponent. *)

Lemma aligned (n : positive) (ez : Z) :
  Z.pos n < 2 ^ 53 -> ez <= Z.log2 (Z.pos n) - 52 ->
  Z.pos (fst (shl_align (mantissa n) (Z.log2 (Z.pos n) - 52) ez))
  = Z.pos n * 2 ^ (- ez).
Proof.
  intros Hn%small_log2 Hez. pose proof (Z.log2_nonneg (Z.pos n)).
  rewrite shl_align_fst, mantissa_pos by lia.
  rewrite <- Z.mul_assoc, <- Z.pow_add_r by lia. do 2 f_equal. lia.
Qed.

Lemma SFofZ_signed (s : bool) (n : positive) :
  Z.pos n < 2 ^ 53 -> SFofZ (signed s n) = canon s n.
Proof. destruct s; [apply SFofZ_neg | apply SFofZ_pos]. Qed.

Lemma SFadd_canon (sa sb : bool) (a b : positive) :
  Z.pos a < 2 ^ 53 -> Z.pos b < 2 ^ 53 ->
  Z.abs (signed sa a + signed sb b) < 2 ^ 53 ->
  SF64add (canon sa a) (canon sb b) = SFofZ (signed sa a + signed sb b).
Proof.
  intros Ha Hb Hsum. unfold SF64add, canon, SFadd.
  set (ea := Z.log2 (Z.pos a) - 52). set (eb := Z.log2 (Z.pos b) - 52).
  set (ez := Z.min ea eb).
  pose proof (proj1 (small_log2 a) Ha). pose proof (proj1 (small_log2 b) Hb).
  pose proof (Z.log2_nonneg (Z.pos a)). pose proof (Z.log2_nonneg (Z.pos b)).
  rewrite <- (normalize_canon _ (- ez)) by lia.
  rewrite Z.opp_involutive. f_equal.
  unfold ea, eb. rewrite !aligned by (fold ea eb; lia). fold ea eb ez.
  unfold signed. destruct sa, sb; cbn [cond_Zopp]; lia.
Qed.

Lemma SFsub_canon (sa sb : bool) (a b : positive) :
  Z.pos a < 2 ^ 53 -> Z.pos b < 2 ^ 53 ->
  Z.abs (signed sa a - signed sb b) < 2 ^ 53 ->
  SF64sub (canon sa a) (canon sb b) = SFofZ (signed sa a - signed sb b).
Proof.
  intros Ha Hb Hsum. unfold SF64sub, canon, SFsub.
  set (ea := Z.log2 (Z.pos a) - 52). set (eb := Z.log2 (Z.pos b) - 52).
  set (ez := Z.min ea eb).
  pose proof (proj1 (small_log2 a) Ha). pose proof (proj1 (small_log2 b) Hb).
  pose proof (Z.log2_nonneg (Z.pos a)). pose proof (Z.log2_nonneg (Z.pos b)).
  rewrite <- (normalize_canon _ (- ez)) by lia.
  rewrite Z.opp_involutive. f_equal.
  unfold ea, eb. rewrite !aligned by (fold ea eb; lia). fold ea eb ez.
  unfold signed. destruct sa, sb; cbn [cond_Zopp]; lia.
Qed.

Lemma SFmul_canon (sa sb : bool) (a b : positive) :
  Z.pos (a * b) < 2 ^ 53 ->
  SF64mul (canon sa a) (canon sb b) = canon (xorb sa sb) (a * b).
Proof.
  intros Hab. unfold SF64mul, canon, SFmul.
  assert (Z.pos a < 2 ^ 53 /\ Z.pos b < 2 ^ 53) as [Ha Hb] by nia.
  pose proof (proj1 (small_log2 a) Ha). pose proof (proj1 (small_log2 b) Hb).
  pose proof (proj1 (small_log2 (a * b)) Hab) as Hlab.
  pose proof (Z.log2_nonneg (Z.pos a)). pose proof (Z.log2_nonneg (Z.pos b)).
  pose proof (Z.log2_mul_below (Z.pos a) (Z.pos b) ltac:(lia) ltac:(lia)) as Hbelow.
  rewrite Pos2Z.inj_mul in Hlab.
  set (la := Z.log2 (Z.pos a)) in *. set (lb := Z.log2 (Z.pos b)) in *.
  set (lab := Z.log2 (Z.pos a * Z.pos b)) in *.
  rewrite (binary_round_aux_exact _ _ (mantissa (a * b)) (52 - la - lb + lab)).
  - f_equal. rewrite Pos2Z.inj_mul. fold lab. lia.
  - apply log2_mantissa. by rewrite Pos2Z.inj_mul.
  - lia.
  - rewrite Pos2Z.inj_mul, !mantissa_pos by (rewrite ?Pos2Z.inj_mul; done).
    rewrite Pos2Z.inj_mul. fold la lb lab.
    replace (Z.pos a * 2 ^ (52 - la) * (Z.pos b * 2 ^ (52 - lb)))
      with (Z.pos a * Z.pos b * (2 ^ (52 - la) * 2 ^ (52 - lb))) by lia.
    rewrite <- !Z.mul_assoc, <- !Z.pow_add_r by lia. do 3 f_equal. lia.
  - lia.
Qed.

Lemma SFofZ_cases (z : Z) :
  Z.abs z < 2 ^ 53 ->
  (z = 0 /\ SFofZ z = S754_zero false)
  \/ exists s n, z = signed s n /\ Z.pos n < 2 ^ 53 /\ SFofZ z = canon s n.
Proof.
  intros Hz. destruct z as [|n|n]; [by left|right..].
  - exists false, n. rewrite SFofZ_pos by lia. repeat split; lia.
  - exists true, n. rewrite SFofZ_neg by lia. repeat split; lia.
Qed.

Lemma SFadd_SFofZ (x y : Z) :
  Z.abs x < 2 ^ 53 -> Z.abs y < 2 ^ 53 -> Z.abs (x + y) < 2 ^ 53 ->
  SF64add (SFofZ x) (SFofZ y) = SFofZ (x + y).
Proof.
  intros Hx Hy Hxy.
  destruct (SFofZ_cases x Hx) as [[-> ->]|(sx & a & -> & Ha & ->)];
    destruct (SFofZ_cases y Hy) as [[-> ->]|(sy & b & -> & Hb & ->)].
  - reflexivity.
  - rewrite Z.add_0_l, SFofZ_signed by done. reflexivity.
  - rewrite Z.add_0_r, SFofZ_signed by done. reflexivity.
  - by apply SFadd_canon.
Qed.

Lemma SFsub_SFofZ (x y : Z) :
  Z.abs x < 2 ^ 53 -> Z.abs y < 2 ^ 53 -> Z.abs (x - y) < 2 ^ 53 ->
  SF64sub (SFofZ x) (SFofZ y) = SFofZ (x - y).
Proof.
  intros Hx Hy Hxy.
  destruct (SFofZ_cases x Hx) as [[-> ->]|(sx & a & -> & Ha & ->)];
    destruct (SFofZ_cases y Hy) as [[-> ->]|(sy & b & -> & Hb & ->)].
  - reflexivity.
  - replace (0 - signed sy b) with (signed (negb sy) b)
      by (unfold signed; destruct sy; cbn; lia).
    rewrite SFofZ_signed by done. reflexivity.
  - rewrite Z.sub_0_r, SFofZ_signed by done. reflexivity.
  - by apply SFsub_canon.
Qed.

Lemma SFmul_SFofZ (x y : Z) :
  0 < y < 2 ^ 53 -> Z.abs (x * y) < 2 ^ 53 ->
  SF64mul (SFofZ x) (SFofZ y) = SFofZ (x * y).
Proof.
  intros Hy Hxy. assert (Z.abs x < 2 ^ 53) as Hx by nia.
  destruct (SFofZ_cases x Hx) as [[-> ->]|(sx & a & -> & Ha & ->)];
    destruct y as [|b|b]; try lia.
  - rewrite SFofZ_pos by lia. reflexivity.
  - rewrite SFofZ_pos by lia.
    replace (signed sx a * Z.pos b) with (signed sx (a * b))
      by (unfold signed; destruct sx; cbn; lia).
    assert (Z.pos (a * b) < 2 ^ 53)
      by (unfold signed in Hxy; destruct sx; cbn in Hxy; lia).
    rewrite SFofZ_signed, SFmul_canon by done. by destruct sx.
Qed.

(** ** Integers as doubles *)

Lemma Prim2SF_Number (z : Z) :
  Z.abs z < 2 ^ 53 -> Prim2SF (JS.Number z) = SFofZ z.
Proof. intros Hz. apply Prim2SF_SF2Prim. by apply valid_SFofZ. Qed.

Lemma Number_add (x y : Z) :
  Z.abs x < 2 ^ 53 -> Z.abs y < 2 ^ 53 -> Z.abs (x + y) < 2 ^ 53 ->
  (JS.Number x + JS.Number y)%float = JS.Number (x + y).
Proof.
  intros Hx Hy Hxy. apply Prim2SF_inj.
  rewrite add_spec, !Prim2SF_Number by done. by apply SFadd_SFofZ.
Qed.

Lemma Number_sub (x y : Z) :
  Z.abs x < 2 ^ 53 -> Z.abs y < 2 ^ 53 -> Z.abs (x - y) < 2 ^ 53 ->
  (JS.Number x - JS.Number y)%float = JS.Number (x - y).
Proof.
  intros Hx Hy Hxy. apply Prim2SF_inj.
  rewrite sub_spec, !Prim2SF_Number by done. by apply SFsub_SFofZ.
Qed.

Lemma Number_mul (x y : Z) :
  0 < y < 2 ^ 53 -> Z.abs (x * y) < 2 ^ 53 ->
  (JS.Number x * JS.Number y)%float = JS.Number (x * y).
Proof.
  intros Hy Hxy. apply Prim2SF_inj.
  rewrite mul_spec, !Prim2SF_Number by nia. by apply SFmul_SFofZ.
Qed.

Lemma Number_leb_0 (x : Z) :
  Z.abs x < 2 ^ 53 -> (JS.Number x <=? 0)%float = (x <=? 0).
Proof.
  intros Hx. rewrite leb_spec, Prim2SF_Number by done.
  change (Prim2SF 0) with (S754_zero false).
  destruct (SFofZ_cases x Hx) as [[-> ->]|(s & n & -> & Hn & ->)]; [done|].
  by destruct s.
Qed.

(** ** Division by four and [Math.ceil] *)

Lemma SFofZ_4 : SFofZ 4 = S754_finite false 4503599627370496 (-50).
Proof. reflexivity. Qed.

Lemma SFdiv4_canon (s : bool) (n : positive) :
  Z.pos n < 2 ^ 53 ->
  SF64div (canon s n) (SFofZ 4)
  = S754_finite s (mantissa n) (Z.log2 (Z.pos n) - 54).
Proof.
  intros Hn%small_log2. pose proof (Z.log2_nonneg (Z.pos n)).
  rewrite SFofZ_4. unfold SF64div, canon, SFdiv, SFdiv_core_binary.
  cbn [Zdigits2]. rewrite digits_log2, log2_mantissa by done.
  change (Z.pos (digits2_pos 4503599627370496)) with 53.
  set (l := Z.log2 (Z.pos n)) in *.
  rewrite fexp_normal by lia.
  replace (Z.min (52 + 1 + (l - 52) - (53 + -50) - 53) (l - 52 - -50))
    with (l - 55) by lia.
  replace (l - 52 - -50 - (l - 55)) with 53 by lia.
  cbv iota. rewrite Z.shiftl_mul_pow2 by lia.
  assert (Z.div_eucl (Z.pos (mantissa n) * 2 ^ 53) 4503599627370496
          = (2 * Z.pos (mantissa n), 0)) as ->.
  { pose proof (Z_div_mod (Z.pos (mantissa n) * 2 ^ 53) 4503599627370496
                  ltac:(lia)) as Hdm.
    destruct (Z.div_eucl _ _) as [q r]. f_equal; nia. }
  change (new_location 4503599627370496 0) with loc_Exact.
  change (2 * Z.pos (mantissa n)) with (Z.pos (mantissa n)~0).
  cbv iota beta.
  rewrite (binary_round_aux_exact _ _ (mantissa n) 1).
  - rewrite xorb_false_r. f_equal. lia.
  - by apply log2_mantissa.
  - lia.
  - lia.
  - lia.
Qed.

Lemma shifted_mantissa (n : positive) (d : Z) :
  Z.pos n < 2 ^ 53 -> 0 <= d ->
  Z.pos (mantissa n) / 2 ^ (52 - Z.log2 (Z.pos n) + d) = Z.pos n / 2 ^ d
  /\ (Z.pos (mantissa n) mod 2 ^ (52 - Z.log2 (Z.pos n) + d) = 0
      <-> Z.pos n mod 2 ^ d = 0).
Proof.
  intros Hn%small_log2 Hd. pose proof (Z.log2_nonneg (Z.pos n)).
  set (l := Z.log2 (Z.pos n)) in *.
  assert (0 < 2 ^ (52 - l)) by (apply Z.pow_pos_nonneg; lia).
  assert (0 < 2 ^ d) by (apply Z.pow_pos_nonneg; lia).
  rewrite mantissa_pos by done. fold l.
  rewrite Z.pow_add_r by lia.
  rewrite (Z.mul_comm (2 ^ (52 - l)) (2 ^ d)).
  split.
  - rewrite Z.div_mul_cancel_r by lia. reflexivity.
  - rewrite Z.mul_mod_distr_r by lia. nia.
Qed.

Lemma opp_Number (z : Z) :
  z <> 0 -> Z.abs z < 2 ^ 53 -> (- JS.Number z)%float = JS.Number (- z).
Proof.
  intros Hnz Hz. apply Prim2SF_inj.
  rewrite opp_spec, !Prim2SF_Number by lia.
  destruct z as [|n|n]; [done|..].
  - rewrite SFofZ_pos by lia. change (- Z.pos n) with (Z.neg n).
    rewrite SFofZ_neg by lia. reflexivity.
  - rewrite SFofZ_neg by lia. change (- Z.neg n) with (Z.pos n).
    rewrite SFofZ_pos by lia. reflexivity.
Qed.

Lemma ceil_Number (z : Z) :
  Z.abs z < 2 ^ 53 -> JS.Math_ceil (JS.Number z) = JS.Number z.
Proof.
  intros Hz. unfold JS.Math_ceil. rewrite Prim2SF_Number by done.
  destruct (SFofZ_cases z Hz) as [[-> ->]|(s & n & -> & Hn & ->)]; [done|].
  unfold canon. destruct (Z.leb_spec 0 (Z.log2 (Z.pos n) - 52)) as [|He]; [done|].
  destruct (shifted_mantissa n 0 Hn ltac:(lia)) as [Hdiv _].
  rewrite Z.pow_0_r, Z.div_1_r in Hdiv.
  cbv zeta. rewrite Z.shiftr_div_pow2 by lia.
  replace (- (Z.log2 (Z.pos n) - 52)) with (52 - Z.log2 (Z.pos n) + 0) by lia.
  rewrite Hdiv, Z.shiftl_mul_pow2 by lia.
  rewrite Z.add_0_r, <- mantissa_pos by (by apply small_log2).
  rewrite Z.eqb_refl. cbn [negb].
  destruct s; cbn [signed cond_Zopp]; [|done].
  by rewrite opp_Number by lia.
Qed.

Lemma integerValue_Number (z : Z) :
  Z.abs z < 2 ^ 53 -> integerValue (JS.Number z) = Some z.
Proof.
  intros Hz. unfold integerValue. rewrite Prim2SF_Number by done.
  destruct (SFofZ_cases z Hz) as [[-> ->]|(s & n & -> & Hn & ->)]; [done|].
  unfold canon. pose proof (proj1 (small_log2 n) Hn).
  destruct (shifted_mantissa n 0 Hn ltac:(lia)) as [Hdiv Hmod].
  rewrite Z.pow_0_r, Z.div_1_r in Hdiv. rewrite Z.pow_0_r, Z.mod_1_r in Hmod.
  destruct (Z.leb_spec 0 (Z.log2 (Z.pos n) - 52)) as [He|He].
  - replace (Z.log2 (Z.pos n) - 52) with 0 by lia.
    rewrite mantissa_pos by done.
    replace (52 - Z.log2 (Z.pos n)) with 0 by lia.
    rewrite !Z.pow_0_r, !Z.mul_1_r. reflexivity.
  - replace (- (Z.log2 (Z.pos n) - 52)) with (52 - Z.log2 (Z.pos n) + 0) by lia.
    rewrite (proj2 Hmod eq_refl), Hdiv. reflexivity.
Qed.

Lemma ceil_quarter (a : Z) :
  Z.abs a < 2 ^ 53 ->
  JS.Math_ceil (JS.Number a / JS.Number 4)
  = if a <? 0 then (- JS.Number ((- a) / 4))%float else JS.Number ((a + 3) / 4).
Proof.
  intros Ha.
  assert (Prim2SF (JS.Number a / JS.Number 4) = SF64div (SFofZ a) (SFofZ 4)) as Hdiv.
  { rewrite div_spec, !Prim2SF_Number by lia. reflexivity. }
  destruct (SFofZ_cases a Ha) as [[-> Hzero]|(s & n & -> & Hn & Hcanon)].
  - rewrite Hzero in Hdiv.
    change (SF64div (S754_zero false) (SFofZ 4)) with (S754_zero false) in Hdiv.
    unfold JS.Math_ceil. rewrite Hdiv.
    apply Prim2SF_inj. rewrite Hdiv. reflexivity.
  - rewrite Hcanon, SFdiv4_canon in Hdiv by done.
    unfold JS.Math_ceil. rewrite Hdiv.
    pose proof (proj1 (small_log2 n) Hn). pose proof (Z.log2_nonneg (Z.pos n)).
    destruct (Z.leb_spec 0 (Z.log2 (Z.pos n) - 54)) as [|_]; [lia|].
    destruct (shifted_mantissa n 2 Hn ltac:(lia)) as [Hwhole Hmod].
    cbv zeta. rewrite Z.shiftr_div_pow2, Z.shiftl_mul_pow2 by lia.
    replace (- (Z.log2 (Z.pos n) - 54)) with (52 - Z.log2 (Z.pos n) + 2) by lia.
    rewrite Hwhole. change (2 ^ 2) with 4 in *.
    pose proof (Z.div_mod (Z.pos n) 4 ltac:(lia)) as Hdm.
    pose proof (Z.mod_pos_bound (Z.pos n) 4 ltac:(lia)) as Hbound.
    destruct s; cbn [signed cond_Zopp].
    + change (Z.neg n <? 0) with true. cbv iota.
      change (- Z.neg n) with (Z.pos n). reflexivity.
    + change (Z.pos n <? 0) with false. cbv iota. f_equal.
      pose proof (Z.div_mod (Z.pos (mantissa n))
                    (2 ^ (52 - Z.log2 (Z.pos n) + 2))
                    ltac:(apply Z.pow_nonzero; lia)) as Hdm'.
      rewrite Hwhole in Hdm'.
      pose proof (Z.div_mod (Z.pos n + 3) 4 ltac:(lia)) as Hdm3.
      pose proof (Z.mod_pos_bound (Z.pos n + 3) 4 ltac:(lia)) as Hbound3.
      destruct (Z.eqb_spec (Z.pos n / 4 * 2 ^ (52 - Z.log2 (Z.pos n) + 2))
                  (Z.pos (mantissa n))) as [Heq|Hne]; cbn [negb].
      * assert (Z.pos n mod 4 = 0) by (apply Hmod; lia). lia.
      * assert (Z.pos n mod 4 <> 0) by (intros Hz%Hmod; lia). lia.
Qed.

End DoubleFacts.

(** ** Fee estimation *)

Module FeeFacts.
Import Doubles.

Lemma positive_number (z : Z) :
  0 < z → z < 2 ^ 53 → (JS.Number z <=? 0)%float = false.
Proof.
  intros Hpos Hz. rewrite DoubleFacts.Number_leb_0 by lia. by apply Z.leb_gt.
Qed.

Lemma negative_zero : Prim2SF (- JS.Number 0)%float = S754_zero true.
Proof. reflexivity. Qed.

Lemma zero_times (x : float) (s : bool) (r : Z) :
  Prim2SF x = S754_zero s → 0 < r → r < 2 ^ 53 →
  Prim2SF (x * JS.Number r)%float = S754_zero s.
Proof.
  intros Hx Hpos Hr. rewrite mul_spec, Hx, DoubleFacts.Prim2SF_Number by lia.
  destruct r as [|n|n]; [lia| |lia].
  rewrite DoubleFacts.SFofZ_pos by done. unfold canon, SF64mul, SFmul.
  by destruct s.
Qed.

Lemma ceil_zero (x : float) (s : bool) :
  Prim2SF x = S754_zero s → JS.Math_ceil x = x.
Proof. intros Hx. unfold JS.Math_ceil. by rewrite Hx. Qed.

Lemma integerValue_zero (x : float) (s : bool) :
  Prim2SF x = S754_zero s → integerValue x = Some 0.
Proof. intros Hx. unfold integerValue. by rewrite Hx. Qed.

(** The quarter of an integer, rounded up, and its product with a positive
    integer, rounded up. *)
Lemma ceil_quarter_value (a r : Z) :
  let quarter := JS.Math_ceil (JS.Number a / JS.Number 4) in
  Z.abs a < 2 ^ 53 → 0 < r → r < 2 ^ 53 → Z.abs a * r < 2 ^ 53 →
  ∃ v,
    integerValue quarter = Some v
    ∧ Spec.isCeiling v a 4
    ∧ integerValue (JS.Math_ceil (quarter * JS.Number r)) = Some (v * r).
Proof.
  intros quarter Ha Hr Hr' Har. subst quarter.
  rewrite DoubleFacts.ceil_quarter by done. unfold Spec.isCeiling.
  destruct (Z.ltb_spec a 0) as [Hneg|Hpos].
  - pose proof (Z.div_mod (- a) 4 ltac:(lia)).
    pose proof (Z.mod_pos_bound (- a) 4 ltac:(lia)).
    destruct (decide ((- a) `div` 4 = 0)) as [Hzero|Hnonzero].
    + rewrite Hzero. exists 0.
      pose proof (zero_times _ _ r negative_zero Hr Hr') as Hproduct.
      rewrite (integerValue_zero _ _ negative_zero).
      rewrite (ceil_zero _ _ Hproduct), (integerValue_zero _ _ Hproduct).
      split; [done|]. split; [lia|done].
    + exists (- ((- a) `div` 4)).
      rewrite DoubleFacts.opp_Number by lia.
      rewrite DoubleFacts.Number_mul by nia.
      rewrite DoubleFacts.ceil_Number by nia.
      rewrite !DoubleFacts.integerValue_Number by nia.
      split; [done|]. split; [lia|done].
  - pose proof (Z.div_mod (a + 3) 4 ltac:(lia)).
    pose proof (Z.mod_pos_bound (a + 3) 4 ltac:(lia)).
    exists ((a + 3) `div` 4).
    rewrite DoubleFacts.Number_mul by nia.
    rewrite DoubleFacts.ceil_Number by nia.
    rewrite !DoubleFacts.integerValue_Number by nia.
    split; [done|]. split; [lia|done].
Qed.

Section WithExternal.
Context `{External}.

Lemma inputCosts_byteCosts (inputType : string) (perInput witness : Z) :
  Spec.byteCosts inputType perInput witness →
  Transactions.inputCosts inputType
  = Ok (JS.Number perInput, JS.Number witness).
Proof. by intros [(-> & -> & ->)|[(-> & -> & ->)|(-> & -> & ->)]]. Qed.

Lemma inputCosts_ok (inputType : string) (costs : float * float) :
  Transactions.inputCosts inputType = Ok costs →
  ∃ perInput witness, Spec.byteCosts inputType perInput witness.
Proof.
  unfold Transactions.inputCosts, Spec.byteCosts.
  destruct (String.eqb_spec inputType "legacy") as [->|_]; [by eauto 10|].
  destruct (String.eqb_spec inputType "segwit") as [->|_]; [by eauto 10|].
  destruct (String.eqb_spec inputType "taproot") as [->|_]; [by eauto 10|].
  discriminate.
Qed.

Lemma weight_bound (inputs outputs perInput witness : Z) (t : string) :
  Spec.byteCosts t perInput witness → 0 < inputs → 0 < outputs →
  Z.abs (let size := 10 + inputs * perInput + outputs * 34 in
         if witness =? 0 then size * 4
         else (size - inputs * witness) * 4 + (inputs * witness + 2))
  ≤ 4 * (10 + 148 * inputs + 34 * outputs).
Proof.
  intros [(_ & -> & ->)|[(_ & -> & ->)|(_ & -> & ->)]] Hi Ho; simpl; lia.
Qed.

Lemma estimate_weight (inputs outputs : Z) (rate : float)
    (inputType : option string) (perInput witness : Z) :
  Spec.byteCosts (JS.orDefault inputType "segwit") perInput witness →
  0 < inputs → 0 < outputs →
  4 * (10 + 148 * inputs + 34 * outputs) < 2 ^ 53 →
  (rate <=? 0)%float = false →
  ∃ e weight,
    Transactions.estimateTransactionFee
      (JS.Number inputs) (JS.Number outputs) rate inputType = Ok e
    ∧ weight
      = (let size := 10 + inputs * perInput + outputs * 34 in
         if witness =? 0 then size * 4
         else (size - inputs * witness) * 4 + (inputs * witness + 2))
    ∧ Transactions.weight e = JS.Number weight
    ∧ Transactions.vsize e = JS.Math_ceil (JS.Number weight / JS.Number 4)
    ∧ Transactions.fee e = JS.Math_ceil (Transactions.vsize e * rate)
    ∧ Transactions.feeRate e = rate
    ∧ (witness = 0 →
       Transactions.size e = JS.Number (10 + inputs * perInput + outputs * 34)).
Proof.
  intros Hcosts Hi Ho Hbound Hrate.
  unfold Transactions.estimateTransactionFee.
  rewrite !positive_number, Hrate by lia. cbn [orb].
  cbv zeta. rewrite (inputCosts_byteCosts _ _ _ Hcosts).
  cbn [mbind result_bind]. cbv beta iota.
  eexists _, _. split; [reflexivity|]. split; [reflexivity|].
  cbn [Transactions.weight Transactions.vsize Transactions.fee
       Transactions.feeRate Transactions.size].
  change 34%float with (JS.Number 34). change 10%float with (JS.Number 10).
  change 4%float with (JS.Number 4). change 2%float with (JS.Number 2).
  destruct Hcosts as [(-> & -> & ->)|[(-> & -> & ->)|(-> & -> & ->)]];
    cbn [String.eqb Ascii.eqb Bool.eqb orb Z.eqb]; cbv zeta;
    repeat first
      [ rewrite DoubleFacts.Number_mul by lia
      | rewrite DoubleFacts.Number_add by lia
      | rewrite DoubleFacts.Number_sub by lia ];
    (split; [reflexivity|]); (split; [reflexivity|]);
    (split; [reflexivity|]); (split; [reflexivity|]);
    first [ done | intros [=] ].
Qed.

End WithExternal.

End FeeFacts.

(** C2 — for positive integers [inputs], [outputs] and [rate] small enough
    for the doubles to be exact (four times the legacy size, times the
    rate, below 2^53), whatever [estimateTransactionFee] returns holds
    integers with [vsize] the ceiling of [weight / 4] and [fee] equal to
    [vsize * rate]; for each of the three input types (segwit when none
    is given) it does return; for legacy inputs the size is 10 bytes of
    base, 148 per input and 34 per output, the weight four times the size,
    the virtual size the size and the fee the size times the rate.  If an
    integer below 2^53 in magnitude is given for each number and one of
    the counts is not positive it throws, and so it does if the counts are
    positive and the rate is not. *)
Theorem fee_estimation `{External}
    (inputs outputs rate : Z) (inputType : option string) :
  let estimate :=
    Transactions.estimateTransactionFee
      (JS.Number inputs) (JS.Number outputs) (JS.Number rate) inputType in
  (0 < inputs → 0 < outputs → 0 < rate →
   4 * (10 + 148 * inputs + 34 * outputs) * rate < 2 ^ 53 →
   (∀ e, estimate = Ok e →
      ∃ weight vsize,
        Doubles.integerValue (Transactions.weight e) = Some weight
        ∧ Doubles.integerValue (Transactions.vsize e) = Some vsize
        ∧ Spec.isCeiling vsize weight 4
        ∧ Doubles.integerValue (Transactions.fee e) = Some (vsize * rate))
   ∧ (∀ perInput witness,
        Spec.byteCosts (JS.orDefault inputType "segwit") perInput witness →
        ∃ e, estimate = Ok e)
   ∧ (inputType = Some "legacy" →
      ∃ e,
        estimate = Ok e
        ∧ Transactions.size e = JS.Number (10 + 148 * inputs + 34 * outputs)
        ∧ Transactions.weight e
          = JS.Number (4 * (10 + 148 * inputs + 34 * outputs))
        ∧ Transactions.vsize e = JS.Number (10 + 148 * inputs + 34 * outputs)
        ∧ Transactions.fee e
          = JS.Number ((10 + 148 * inputs + 34 * outputs) * rate)))
  ∧ (Doubles.safeInteger inputs → Doubles.safeInteger outputs →
     inputs ≤ 0 ∨ outputs ≤ 0 →
     estimate = Throw "Inputs and outputs must be positive numbers")
  ∧ (Doubles.safeInteger inputs → Doubles.safeInteger outputs →
     Doubles.safeInteger rate →
     0 < inputs → 0 < outputs → rate ≤ 0 →
     estimate = Throw "Fee rate must be positive").
Proof.
  intros estimate. split; [|split].
  - intros Hi Ho Hr Hbound.
    assert (4 * (10 + 148 * inputs + 34 * outputs) < 2 ^ 53) as Hsize by nia.
    assert (rate < 2 ^ 53) as Hr' by nia.
    pose proof (FeeFacts.positive_number rate Hr Hr') as Hrate.
    split; [|split].
    + intros e He.
      assert (∃ perInput witness,
                Spec.byteCosts (JS.orDefault inputType "segwit") perInput witness)
        as (perInput & witness & Hcosts).
      { subst estimate. unfold Transactions.estimateTransactionFee in He.
        rewrite !FeeFacts.positive_number in He by lia.
        cbn [orb] in He. cbv zeta in He.
        destruct (Transactions.inputCosts (JS.orDefault inputType "segwit"))
          as [costs|] eqn:Hcosts; [|discriminate].
        by eapply FeeFacts.inputCosts_ok. }
      destruct (FeeFacts.estimate_weight inputs outputs (JS.Number rate)
                  inputType perInput witness Hcosts Hi Ho Hsize Hrate)
        as (e' & weight & He' & Hweight & Hw & Hv & Hf & _).
      subst estimate. rewrite He' in He. injection He as <-.
      pose proof (FeeFacts.weight_bound inputs outputs perInput witness _
                    Hcosts Hi Ho) as Hwb.
      rewrite <- Hweight in Hwb.
      destruct (FeeFacts.ceil_quarter_value weight rate)
        as (vsize & Hvsize & Hceil & Hfee); [lia|done|done|nia|].
      exists weight, vsize. rewrite Hw, Hf, Hv.
      rewrite DoubleFacts.integerValue_Number by lia. done.
    + intros perInput witness Hcosts.
      destruct (FeeFacts.estimate_weight inputs outputs (JS.Number rate)
                  inputType perInput witness Hcosts Hi Ho Hsize Hrate)
        as (e & _ & He & _). by exists e.
    + intros ->.
      destruct (FeeFacts.estimate_weight inputs outputs (JS.Number rate)
                  (Some "legacy") 148 0 ltac:(by left) Hi Ho Hsize Hrate)
        as (e & weight & He & Hweight & Hw & Hv & Hf & _ & Hs).
      exists e. cbn [Z.eqb] in Hweight. subst weight.
      split; [exact He|].
      rewrite Hf, Hv, Hw, (Hs eq_refl).
      replace (10 + inputs * 148 + outputs * 34)
        with (10 + 148 * inputs + 34 * outputs) by lia.
      replace ((10 + 148 * inputs + 34 * outputs) * 4)
        with (4 * (10 + 148 * inputs + 34 * outputs)) by lia.
      split; [done|]. split; [done|].
      rewrite DoubleFacts.ceil_quarter by lia.
      rewrite (proj2 (Z.ltb_ge _ 0)) by lia.
      replace ((4 * (10 + 148 * inputs + 34 * outputs) + 3) `div` 4)
        with (10 + 148 * inputs + 34 * outputs)
        by (apply Z.div_unique with 3; lia).
      split; [done|].
      rewrite DoubleFacts.Number_mul by nia.
      by rewrite DoubleFacts.ceil_Number by nia.
  - unfold Doubles.safeInteger. intros Hi Ho Hneg. subst estimate.
    unfold Transactions.estimateTransactionFee.
    rewrite !DoubleFacts.Number_leb_0 by done.
    destruct (Z.leb_spec inputs 0); [done|].
    destruct (Z.leb_spec outputs 0); [done|]. lia.
  - unfold Doubles.safeInteger. intros Hi Ho Hr Hipos Hopos Hrate.
    subst estimate. unfold Transactions.estimateTransactionFee.
    rewrite !DoubleFacts.Number_leb_0 by done.
    rewrite (proj2 (Z.leb_gt inputs 0)), (proj2 (Z.leb_gt outputs 0)) by done.
    by rewrite (proj2 (Z.leb_le rate 0)) by done.
Qed.

(** Two segwit inputs and two outputs at 10 sat/vB: weight 216, virtual
    size 54, fee 540. *)
Lemma fee_estimation_witness :
  ∃ e,
    @Transactions.estimateTransactionFee (Sample.external Sample.plain)
      (JS.Number 2) (JS.Number 2) (JS.Number 10) (Some "segwit") = Ok e
    ∧ ∃ weight vsize,
        Doubles.integerValue (Transactions.weight e) = Some weight
        ∧ Doubles.integerValue (Transactions.vsize e) = Some vsize
        ∧ Spec.isCeiling vsize weight 4
        ∧ Doubles.integerValue (Transactions.fee e) = Some (vsize * 10).
Proof.
  destruct (@fee_estimation (Sample.external Sample.plain) 2 2 10 (Some "segwit"))
    as [Hpos _].
  destruct (Hpos ltac:(lia) ltac:(lia) ltac:(lia) ltac:(lia))
    as (Hany & Hknown & _).
  destruct (Hknown 68 107) as (e & He).
  { right. left. done. }
  exists e. split; [exact He|]. exact (Hany e He).
Defined.

(** The fee is the ceiling of the product of two doubles, itself a
    double, and not of the product of the numbers: one legacy input and
    one output make 192 virtual bytes, and at the integer rate 2^53 - 1
    the fee returned is 64 below 192 times the rate. *)
Lemma fee_is_not_the_product :
  ∃ e,
    @Transactions.estimateTransactionFee (Sample.external Sample.plain)
      (JS.Number 1) (JS.Number 1) (JS.Number (2 ^ 53 - 1)) (Some "legacy")
      = Ok e
    ∧ Doubles.integerValue (Transactions.vsize e) = Some 192
    ∧ Doubles.integerValue (Transactions.fee e)
      = Some (192 * (2 ^ 53 - 1) - 64)
    ∧ ¬ Spec.isCeiling (192 * (2 ^ 53 - 1) - 64) (192 * (2 ^ 53 - 1)) 1.
Proof.
  eexists. split; [reflexivity|].
  split; [reflexivity|]. split; [reflexivity|].
  unfold Spec.isCeiling. lia.
Qed.

Example fee_unknown_input_type :
  @Transactions.estimateTransactionFee (Sample.external Sample.plain)
    1 1 1 (Some "p2sh") = Throw "Unknown input type: p2sh".
Proof. reflexivity. Qed.

(** A rate with a fraction is a double too: 340 virtual bytes at 1.1
    sat/vB cost 375, the product of the doubles being just above 374. *)
Example fee_fractional_rate :
  Transactions.fee <$>
    (match @Transactions.estimateTransactionFee (Sample.external Sample.plain)
             2 1 (11 / 10) (Some "legacy") with
     | Ok e => Some e
     | Throw _ => None
     end) = Some 375%float.
Proof. reflexivity. Qed.

(** Not a number passes both comparisons. *)
Example fee_of_nan :
  (match @Transactions.estimateTransactionFee (Sample.external Sample.plain)
           nan 1 1 (Some "legacy") with
   | Ok e => Some (Prim2SF (Transactions.fee e))
   | Throw _ => None
   end) = Some S754_nan.
Proof. reflexivity. Qed.

(** With witness inputs the witness bytes are taken off the size before it
    is weighted: four segwit inputs and one output give a negative
    weight. *)
Example fee_segwit_weight :
  (match @Transactions.estimateTransactionFee (Sample.external Sample.plain)
           4 1 1 (Some "segwit") with
   | Ok e => Some (Doubles.integerValue (Transactions.weight e),
                   Doubles.integerValue (Transactions.vsize e),
                   Doubles.integerValue (Transactions.fee e))
   | Throw _ => None
   end) = Some (Some (-18), Some (-4), Some (-4)).
Proof. reflexivity. Qed.

(** ** Transaction validation *)

Module TxFacts.
(** Two texts cut at their first colon are equal piece by piece. *)
Lemma split_at_colon (a b c d : list ascii) :
  ":"%char ∉ a → ":"%char ∉ c →
  a ++ ":"%char :: b = c ++ ":"%char :: d → a = c ∧ b = d.
Proof.
  revert c. induction a as [|x a IH]; intros [|y c] Ha Hc Heq; simpl in Heq.
  - by injection Heq as ->.
  - injection Heq as <- _. destruct Hc. by left.
  - injection Heq as -> _. destruct Ha. by left.
  - injection Heq as -> Heq. rewrite not_elem_of_cons in Ha, Hc.
    destruct (IH c) as [-> ->]; tauto.
Qed.

(** *** Hex text of a buffer *)

Lemma byteToHex_decode b rest :
  JS.bufferFromHex_go (JS.byteToHex b ++ rest) = b :: JS.bufferFromHex_go rest.
Proof. destruct b; reflexivity. Qed.

Lemma toHex_decode buf :
  JS.bufferFromHex_go (concat (map JS.byteToHex buf)) = buf.
Proof.
  induction buf as [|b buf IH]; [done|].
  change (concat (map JS.byteToHex (b :: buf)))
    with (JS.byteToHex b ++ concat (map JS.byteToHex buf)).
  by rewrite byteToHex_decode, IH.
Qed.

(** Reading the hex text of a buffer gives the buffer back. *)
Lemma bufferFromHex_toHex buf : JS.bufferFromHex (JS.toHex buf) = buf.
Proof.
  unfold JS.bufferFromHex, JS.toHex, JS.chars.
  rewrite String.list_ascii_of_string_of_list_ascii. apply toHex_decode.
Qed.

Lemma toHex_inj buf1 buf2 : JS.toHex buf1 = JS.toHex buf2 → buf1 = buf2.
Proof.
  intros Heq. rewrite <- (bufferFromHex_toHex buf1), <- (bufferFromHex_toHex buf2).
  by rewrite Heq.
Qed.

Lemma byteToHex_no_colon b : ":"%char ∉ JS.byteToHex b.
Proof.
  apply (bool_decide_unpack _). destruct b; vm_compute; exact I.
Qed.

Lemma toHex_no_colon buf : ":"%char ∉ JS.chars (JS.toHex buf).
Proof.
  unfold JS.toHex, JS.chars. rewrite String.list_ascii_of_string_of_list_ascii.
  induction buf as [|b buf IH]; [apply not_elem_of_nil|].
  change (concat (map JS.byteToHex (b :: buf)))
    with (JS.byteToHex b ++ concat (map JS.byteToHex buf)).
  rewrite elem_of_app. intros [Hb|Hb]; [by apply (byteToHex_no_colon b)|done].
Qed.

(** *** Decimal text of an index *)

Lemma NToString_inj n1 n2 : JS.NToString n1 = JS.NToString n2 → n1 = n2.
Proof.
  unfold JS.NToString. intros Heq.
  assert (Hu : Some (N.to_uint n1) = Some (N.to_uint n2)).
  { by rewrite <- !NilEmpty.usu, Heq. }
  injection Hu as Hu.
  by rewrite <- (DecimalN.Unsigned.of_to n1), <- (DecimalN.Unsigned.of_to n2), Hu.
Qed.

(** *** Input identifiers *)

Lemma inputId_outPointId input :
  Transactions.inputId input = Spec.outPointId (Spec.outPoint input).
Proof. reflexivity. Qed.

Lemma outPointId_inj : Inj (=) (=) Spec.outPointId.
Proof.
  intros [h1 n1] [h2 n2] Heq. unfold Spec.outPointId in Heq. simpl in Heq.
  apply (f_equal JS.chars) in Heq. rewrite !StringFacts.chars_app in Heq. simpl in Heq.
  apply split_at_colon in Heq as [Hh Hn]; [|apply toHex_no_colon..].
  apply StringFacts.chars_inj, toHex_inj in Hh. apply StringFacts.chars_inj, NToString_inj in Hn.
  f_equal; [|done].
  by rewrite <- (rev_involutive h1), <- (rev_involutive h2), Hh.
Qed.

(** Distinct identifiers are distinct outpoints. *)
Lemma inputIds_NoDup inputs :
  NoDup (map Transactions.inputId inputs) ↔ NoDup (Spec.outPoint <$> inputs).
Proof.
  pose proof outPointId_inj as Hinj.
  rewrite <- (NoDup_fmap Spec.outPointId (Spec.outPoint <$> inputs)).
  rewrite <- list_fmap_compose. reflexivity.
Qed.

(** *** The size of a set built from a list *)

Lemma size_list_to_set_le (l : list string) :
  (size (list_to_set l : gset string) ≤ length l)%nat.
Proof.
  induction l as [|x l IH]; [by rewrite list_to_set_nil, size_empty|].
  rewrite list_to_set_cons, size_union_alt, size_singleton. simpl.
  assert (size (list_to_set l ∖ {[x]} : gset string) ≤ size (list_to_set l : gset string))%nat.
  { apply subseteq_size, subseteq_difference_l. done. }
  lia.
Qed.

Lemma size_list_to_set_NoDup (l : list string) :
  size (list_to_set l : gset string) = length l ↔ NoDup l.
Proof.
  split; [|apply size_list_to_set].
  induction l as [|x l IH]; [constructor|].
  rewrite list_to_set_cons. simpl. intros Hsize.
  pose proof (size_list_to_set_le l) as Hle.
  destruct (decide (x ∈ l)) as [Hin|Hnin].
  - rewrite (subseteq_union_1_L {[x]} (list_to_set l)) in Hsize by set_solver.
    lia.
  - rewrite size_union, size_singleton in Hsize by set_solver.
    constructor; [done|]. apply IH. lia.
Qed.

(** *** The loop over the outputs *)

Lemma checkOutputs_eq outputs errs :
  Transactions.checkOutputs outputs errs =
  (errs ++ ((fun _ => "Negative output value found")
              <$> filter (fun output => value output < 0) outputs),
   Spec.totalValue outputs).
Proof.
  unfold Transactions.checkOutputs.
  assert (Hgen : ∀ total,
    foldl (fun '(errors, totalOutput) output =>
             (if value output <? 0
              then errors ++ ["Negative output value found"] else errors,
              totalOutput + value output)) (errs, total) outputs
    = (errs ++ ((fun _ => "Negative output value found")
                  <$> filter (fun output => value output < 0) outputs),
       total + Spec.totalValue outputs)).
  { revert errs. induction outputs as [|o outputs IH]; intros errs total; simpl.
    - by rewrite app_nil_r, Z.add_0_r.
    - rewrite IH, filter_cons. f_equal; [|lia].
      destruct (Z.ltb_spec (value o) 0); case_decide; try lia.
      + by rewrite <- app_assoc.
      + done. }
  by rewrite Hgen.
Qed.

(** The array [errors] holds exactly the violations of the five checks. *)
Lemma collectErrors_violations tx :
  Transactions.collectErrors tx = Spec.violations tx.
Proof.
  unfold Transactions.collectErrors, Spec.violations.
  rewrite checkOutputs_eq.
  assert (Hcap : 21000000 * 100000000 = Spec.supplyCap) by reflexivity.
  rewrite Hcap.
  assert (Hins : (length (ins tx) =? 0)%nat = bool_decide (ins tx = [])).
  { by destruct (ins tx). }
  assert (Houts : (length (outs tx) =? 0)%nat = bool_decide (outs tx = [])).
  { by destruct (outs tx). }
  assert (Hdup : (length (map Transactions.inputId (ins tx))
                  =? size (list_to_set (map Transactions.inputId (ins tx)) : gset string))%nat
                 = bool_decide (NoDup (Spec.outPoint <$> ins tx))).
  { destruct (Nat.eqb_spec (length (map Transactions.inputId (ins tx)))
                (size (list_to_set (map Transactions.inputId (ins tx)) : gset string)))
      as [Heq|Hne]; symmetry.
    - apply bool_decide_eq_true_2.
      by apply inputIds_NoDup, size_list_to_set_NoDup.
    - apply bool_decide_eq_false_2.
      intros Hnd%inputIds_NoDup%size_list_to_set_NoDup. congruence. }
  assert (Hover : (Spec.totalValue (outs tx) >? Spec.supplyCap)
                  = bool_decide (Spec.supplyCap < Spec.totalValue (outs tx))).
  { destruct (Z.gtb_spec (Spec.totalValue (outs tx)) Spec.supplyCap); symmetry;
      [apply bool_decide_eq_true_2 | apply bool_decide_eq_false_2]; lia. }
  rewrite Hins, Houts, Hdup, Hover, !bool_decide_decide.
  destruct (decide (ins tx = [])), (decide (outs tx = [])),
    (decide (NoDup (Spec.outPoint <$> ins tx))),
    (decide (Spec.supplyCap < Spec.totalValue (outs tx)));
    simpl; rewrite <- ?app_assoc; simpl; rewrite ?app_nil_r; reflexivity.
Qed.

End TxFacts.

Lemma violations_nil (tx : Transaction) :
  Spec.violations tx = [] ↔
  ins tx ≠ [] ∧ outs tx ≠ [] ∧ NoDup (Spec.outPoint <$> ins tx)
  ∧ Forall (fun output => 0 ≤ value output) (outs tx)
  ∧ Spec.totalValue (outs tx) ≤ Spec.supplyCap.
Proof.
  unfold Spec.violations.
  assert (Hneg : ∀ outputs : list TxOutput,
            (fun _ : TxOutput => "Negative output value found")
              <$> filter (fun output => value output < 0) outputs = []
            ↔ Forall (fun output => 0 ≤ value output) outputs).
  { induction outputs as [|o outputs IH]; [by split; [constructor|]|].
    rewrite filter_cons, Forall_cons, <- IH.
    case_decide; simpl; [split; [done | lia] | split; [intros; split; [lia|done] | tauto]]. }
  rewrite <- Hneg. clear Hneg.
  set (negatives := (fun _ : TxOutput => "Negative output value found")
                      <$> filter (fun output => value output < 0) (outs tx)).
  repeat case_decide; simpl; rewrite ?app_nil_r; split;
    try discriminate;
    try (intros [_ Hnil]%app_eq_nil; discriminate);
    try (intros (? & ? & ? & ? & ?); done || lia).
  intros Hnil. repeat split; done || lia.
Qed.

(** C4 — for a transaction hex that parses, [validateTransaction] reports
    every violation among the five checks (no inputs, no outputs, a
    duplicate input reference, a negative output value, a total output
    above the supply cap), not only the first one, and [valid] is true
    exactly when no violation was found. *)
Theorem validation_collects_all `{External}
    (hex : string) (network : option string) (tx : Transaction) :
  Utils.validateNetwork (JS.orDefault network "testnet") = true →
  Utils.isValidHex hex = true →
  Transaction_fromHex hex = Ok tx →
  ∃ v,
    Transactions.validateTransaction hex network = Ok v
    ∧ Transactions.collectErrors tx = Spec.violations tx
    ∧ Transactions.errors v
      = (if decide (Spec.violations tx = []) then None
         else Some (Spec.violations tx))
    ∧ (Transactions.valid v = true ↔ Spec.violations tx = [])
    ∧ (Transactions.valid v = true ↔
         ins tx ≠ [] ∧ outs tx ≠ [] ∧ NoDup (Spec.outPoint <$> ins tx)
         ∧ Forall (fun output => 0 ≤ value output) (outs tx)
         ∧ Spec.totalValue (outs tx) ≤ Spec.supplyCap).
Proof.
  intros Hnet Hhex Hparse. unfold Transactions.validateTransaction.
  rewrite Hnet, Hhex, Hparse. simpl negb. cbv iota.
  eexists. split; [reflexivity|]. simpl.
  rewrite <- violations_nil, TxFacts.collectErrors_violations.
  split; [done|].
  destruct (Spec.violations tx) as [|e errs]; simpl; repeat split; done.
Qed.

(** The same outpoint spent twice and no output: both violations are
    reported. *)
Lemma validation_collects_all_witness :
  ∃ v,
    @Transactions.validateTransaction (Sample.external Sample.doubled) "00" None
      = Ok v
    ∧ Transactions.valid v = false
    ∧ Transactions.errors v
      = Some ["Transaction has no outputs"; "Transaction has duplicate inputs"].
Proof.
  destruct (@validation_collects_all (Sample.external Sample.doubled)
              "00" None Sample.doubled eq_refl eq_refl eq_refl)
    as (v & Hv & _ & He & Hvalid & _).
  exists v. split; [exact Hv|].
  assert (Hviol : Spec.violations Sample.doubled
                  = ["Transaction has no outputs"; "Transaction has duplicate inputs"])
    by (vm_compute; reflexivity).
  rewrite Hviol in He, Hvalid. split.
  - destruct (Transactions.valid v); [|done].
    discriminate (proj1 Hvalid eq_refl).
  - by rewrite He.
Defined.

Example validation_plain_is_valid :
  @Transactions.validateTransaction (Sample.external Sample.plain) "00" None
  = Ok {| Transactions.valid := true; Transactions.txid := Some "txid";
          Transactions.byteSize := Some 0; Transactions.errors := None |}.
Proof. vm_compute. reflexivity. Qed.

Example validation_invalid_hex :
  @Transactions.validateTransaction (Sample.external Sample.plain) "0" None
  = Ok {| Transactions.valid := false; Transactions.txid := None;
          Transactions.byteSize := None;
          Transactions.errors := Some ["Invalid hex format"] |}.
Proof. vm_compute. reflexivity. Qed.

(** ** Multisig creation *)

Module MultisigFacts.
Import RegExp RegExpFacts.


Lemma hexValue_bound c :
  hexClass c = true → ∃ x, JS.hexValue c = Some x ∧ (x < 16)%N.
Proof.
  destruct c as [[] [] [] [] [] [] [] []]; vm_compute; try discriminate;
    intros _; eexists; (split; [reflexivity | reflexivity]).
Qed.

Lemma hex_pair_decodes a b r :
  hexClass a = true → hexClass b = true →
  ∃ byte, JS.bufferFromHex_go (a :: b :: r) = byte :: JS.bufferFromHex_go r.
Proof.
  intros (x & Hx & Hxb)%hexValue_bound (y & Hy & Hyb)%hexValue_bound.
  simpl. rewrite Hx, Hy.
  destruct (Byte.of_N (16 * x + y)) as [byte|] eqn:Hbyte; [by eexists|].
  apply Byte.of_N_None_iff in Hbyte. lia.
Qed.

(** Text made of hex digits decodes to one byte for each whole pair. *)
Lemma decoded_length s :
  Forall (fun c => hexClass c = true) s →
  length (JS.bufferFromHex_go s) = (length s `div` 2)%nat.
Proof.
  assert (Hboth : ∀ s,
    (Forall (fun c => hexClass c = true) s →
     length (JS.bufferFromHex_go s) = (length s `div` 2)%nat)
    ∧ (∀ a, Forall (fun c => hexClass c = true) (a :: s) →
       length (JS.bufferFromHex_go (a :: s)) = (length (a :: s) `div` 2)%nat)).
  { clear s. induction s as [|b s [IH0 IH1]]; (split; [|intros a Ha]).
    - done.
    - done.
    - apply IH1.
    - apply Forall_cons in Ha as [Ha Hbs].
      pose proof Hbs as [Hb Hs]%Forall_cons.
      destruct (hex_pair_decodes a b s Ha Hb) as [byte ->].
      simpl length. rewrite IH0 by done.
      change (S (S (length s))) with (1 * 2 + length s)%nat.
      rewrite Nat.div_add_l by done. lia. }
  apply Hboth.
Qed.

Lemma bufferFromHex_length text :
  Forall Spec.isHexDigit (JS.chars text) →
  length (JS.bufferFromHex text) = (String.length text `div` 2)%nat.
Proof.
  intros Hall. unfold JS.bufferFromHex.
  rewrite decoded_length, StringFacts.length_chars; [done|].
  eapply Forall_impl; [done|]. intros c. apply UtilsFacts.hexClass_isHexDigit.
Qed.


End MultisigFacts.

Module KeyFacts.




End KeyFacts.





(** ** Script compilation and message verification *)

Lemma resolveNetwork_recognized (network : option string) :
  Utils.validateNetwork (JS.orDefault network "testnet") = true →
  ∃ net, Utils.resolveNetwork network = Ok net.
Proof.
  intros Hnet. unfold Utils.resolveNetwork. rewrite Hnet. simpl.
  pose proof (UtilsFacts.getNetworkConfig_cases (JS.orDefault network "testnet")) as Hc.
  destruct (Utils.getNetworkConfig (JS.orDefault network "testnet")) as [net|msg];
    [by eexists|]. destruct Hc as [_ Hc]. congruence.
Qed.

(** C8 — [compileScript] with script type nulldata and no [scriptAsm]
    throws the "Data required" error when [data] is absent, throws the
    error citing the 80-byte limit when the decoded data is longer than 80
    bytes, and otherwise (in particular at exactly 80 bytes) adds no
    failure of its own: it returns the script the library embeds the data
    in. *)
Theorem nulldata_cap `{External}
    (scriptAsm publicKey publicKeyHash scriptHash data : option string)
    (multisigConfig : option (Z * list string)) (network : option string) :
  JS.falsy scriptAsm = true →
  Utils.validateNetwork (JS.orDefault network "testnet") = true →
  (JS.falsy data = true →
   Utility.compileScript scriptAsm (Some "nulldata") publicKey publicKeyHash
     scriptHash data multisigConfig network
   = Throw "Data required for OP_RETURN script")
  ∧ (∀ text, JS.truthy data = Some text →
       (80 < length (JS.bufferFromHex text))%nat →
       Utility.compileScript scriptAsm (Some "nulldata") publicKey publicKeyHash
         scriptHash data multisigConfig network
       = Throw "OP_RETURN data too large (max 80 bytes)")
  ∧ (∀ text script, JS.truthy data = Some text →
       (length (JS.bufferFromHex text) ≤ 80)%nat →
       payments_embed [JS.bufferFromHex text] = Ok script →
       Utility.compileScript scriptAsm (Some "nulldata") publicKey publicKeyHash
         scriptHash data multisigConfig network
       = Ok {| Utility.type := "nulldata";
               Utility.hex := JS.toHex script;
               Utility.asm := script_toASM script;
               Utility.addresses := None;
               Utility.script_p2sh := None;
               Utility.script_p2wsh := None |}).
Proof.
  intros Hasm Hnet. destruct (resolveNetwork_recognized network Hnet) as [net Hres].
  assert (Hnone : JS.truthy scriptAsm = None).
  { by destruct scriptAsm as [[|]|]. }
  unfold Utility.compileScript. rewrite Hres, Hnone. simpl.
  unfold Utility.requireHex. split; [|split].
  - intros Hdata. by destruct data as [[|]|].
  - intros text -> Hlen. simpl.
    by rewrite (proj2 (Nat.ltb_lt _ _) Hlen).
  - intros text script -> Hlen Hembed. simpl.
    rewrite (proj2 (Nat.ltb_ge _ _) Hlen), Hembed. reflexivity.
Qed.

(** 80 bytes of data are embedded; 81 bytes are refused; no data is
    refused. *)
Lemma nulldata_cap_witness :
  @Utility.compileScript (Sample.external Sample.plain) None (Some "nulldata")
    None None None (Some (Sample.repeatA 162)) None None
  = Throw "OP_RETURN data too large (max 80 bytes)"
  ∧ is_ok (@Utility.compileScript (Sample.external Sample.plain) None
             (Some "nulldata") None None None (Some (Sample.repeatA 160)) None None)
    = true
  ∧ @Utility.compileScript (Sample.external Sample.plain) None (Some "nulldata")
      None None None None None None
    = Throw "Data required for OP_RETURN script".
Proof.
  split; [|split].
  - apply (proj1 (proj2 (@nulldata_cap (Sample.external Sample.plain)
             None None None None (Some (Sample.repeatA 162)) None None
             eq_refl eq_refl)) (Sample.repeatA 162) eq_refl).
    vm_compute. lia.
  - erewrite (proj2 (proj2 (@nulldata_cap (Sample.external Sample.plain)
               None None None None (Some (Sample.repeatA 160)) None None
               eq_refl eq_refl)) (Sample.repeatA 160) _ eq_refl);
      [reflexivity | vm_compute; lia | reflexivity].
  - apply (proj1 (@nulldata_cap (Sample.external Sample.plain)
             None None None None None None None eq_refl eq_refl) eq_refl).
Defined.

(** C7 — with a recognized network [verifyMessage] never reports a valid
    signature: a decoded signature that is not 65 bytes long gives the
    "Invalid signature length" error, and one that is gives the message
    that verification is not implemented. *)
Theorem verifyMessage_stub `{External}
    (address message signature : string) (network : option string) :
  Utils.validateNetwork (JS.orDefault network "testnet") = true →
  ∃ v,
    Utility.verifyMessage address message signature network = Ok v
    ∧ Utility.valid v = false
    ∧ (length (Buffer_fromBase64 signature) ≠ 65%nat →
       Utility.error v = Some "Invalid signature length")
    ∧ (length (Buffer_fromBase64 signature) = 65%nat →
       Utility.error v
       = Some "Message verification not fully implemented - use specialized libraries").
Proof.
  intros Hnet. destruct (resolveNetwork_recognized network Hnet) as [net Hres].
  unfold Utility.verifyMessage. rewrite Hres. simpl.
  destruct (Nat.eqb_spec (length (Buffer_fromBase64 signature)) 65) as [Heq|Hne];
    simpl; eexists; (split; [reflexivity|]); simpl; repeat split; done.
Qed.

(** A signature of 65 bytes on mainnet, and one of 64 bytes. *)
Lemma verifyMessage_stub_witness :
  (∃ v,
     @Utility.verifyMessage (Sample.external Sample.plain)
       "addr" "Hello Bitcoin" Sample.signature65 (Some "mainnet") = Ok v
     ∧ Utility.valid v = false
     ∧ Utility.error v
       = Some "Message verification not fully implemented - use specialized libraries")
  ∧ (∃ v,
     @Utility.verifyMessage (Sample.external Sample.plain)
       "addr" "Hello Bitcoin" Sample.signature64 None = Ok v
     ∧ Utility.valid v = false
     ∧ Utility.error v = Some "Invalid signature length").
Proof.
  split.
  - destruct (@verifyMessage_stub (Sample.external Sample.plain)
                "addr" "Hello Bitcoin" Sample.signature65 (Some "mainnet") eq_refl)
      as (v & Hv & Hvalid & _ & Himpl).
    exists v. repeat split; [done..|]. apply Himpl. vm_compute. reflexivity.
  - destruct (@verifyMessage_stub (Sample.external Sample.plain)
                "addr" "Hello Bitcoin" Sample.signature64 None eq_refl)
      as (v & Hv & Hvalid & Hlen & _).
    exists v. repeat split; [done..|]. apply Hlen. vm_compute. discriminate.
Defined.

Example verifyMessage_unknown_network :
  @Utility.verifyMessage (Sample.external Sample.plain)
    "addr" "Hello Bitcoin" Sample.signature65 (Some "signet")
  = Throw "Invalid network: signet".
Proof. reflexivity. Qed.

(** ** Derivation paths *)

Module PathFacts.

(** *** The last code unit of a segment *)

Lemma snoc_inj body1 c1 body2 c2 :
  body1 +:+ String c1 EmptyString = body2 +:+ String c2 EmptyString →
  body1 = body2 ∧ c1 = c2.
Proof.
  intros Heq%(f_equal JS.chars). rewrite !StringFacts.chars_app in Heq.
  apply app_inj_tail in Heq as [Hb ->]. split; [|done].
  by apply StringFacts.chars_inj.
Qed.

Lemma endsWith_snoc s c :
  JS.endsWith s c = true ↔ ∃ body, s = body +:+ String c EmptyString.
Proof.
  unfold JS.endsWith. split.
  - destruct (rev (JS.chars s)) as [|x l] eqn:Hrev; [done|].
    intros ->%Ascii.eqb_eq. exists (String.string_of_list_ascii (rev l)).
    apply StringFacts.chars_inj.
    rewrite StringFacts.chars_app, StringFacts.chars_of_list.
    by rewrite <- (rev_involutive (JS.chars s)), Hrev.
  - intros [body ->]. rewrite StringFacts.chars_app, rev_app_distr. simpl.
    apply Ascii.eqb_refl.
Qed.

Lemma dropLast_snoc body c :
  JS.dropLast (body +:+ String c EmptyString) = body.
Proof.
  unfold JS.dropLast. rewrite StringFacts.chars_app. simpl.
  by rewrite removelast_last, StringFacts.of_list_chars.
Qed.

(** A segment either ends with the mark or it does not. *)
Lemma marked_or_not segment :
  (∃ body c, segment = body +:+ String c EmptyString ∧ Spec.hardenedMark c
             ∧ JS.endsWith segment "'" || JS.endsWith segment "h" = true)
  ∨ ((∀ body c, segment = body +:+ String c EmptyString → ¬ Spec.hardenedMark c)
     ∧ JS.endsWith segment "'" || JS.endsWith segment "h" = false).
Proof.
  destruct (JS.endsWith segment "'") eqn:Hq.
  { left. apply endsWith_snoc in Hq as [body ->].
    exists body, "'"%char. repeat split. by left. }
  destruct (JS.endsWith segment "h") eqn:Hh.
  { left. apply endsWith_snoc in Hh as [body ->].
    exists body, "h"%char. repeat split. by right. }
  right. split; [|done]. intros body c -> [-> | ->].
  - rewrite (proj2 (endsWith_snoc _ _)) in Hq; [done | by eexists].
  - rewrite (proj2 (endsWith_snoc _ _)) in Hh; [done | by eexists].
Qed.

(** *** One segment *)

Lemma in_range_false i :
  0 ≤ i < Spec.hardenedOffset → (i <? 0) || (i >=? 0x80000000) = false.
Proof.
  unfold Spec.hardenedOffset. intros Hi.
  destruct (Z.ltb_spec i 0); [lia|]. simpl.
  rewrite Z.geb_leb. apply Z.leb_gt. lia.
Qed.

Lemma out_of_range_true i :
  ¬ 0 ≤ i < Spec.hardenedOffset → (i <? 0) || (i >=? 0x80000000) = true.
Proof.
  unfold Spec.hardenedOffset. intros Hi.
  destruct (Z.ltb_spec i 0); [done|]. simpl.
  rewrite Z.geb_leb. apply Z.leb_le. lia.
Qed.

Lemma derivationIndex_segmentIndex segment d :
  Utility.derivationIndex segment = Ok d ↔ Spec.segmentIndex segment d.
Proof.
  unfold Utility.derivationIndex.
  destruct (marked_or_not segment) as [(body & c & -> & Hc & ->)|[Hplain ->]].
  - rewrite dropLast_snoc. split.
    + destruct (JS.parseInt body) as [i|] eqn:Hparse; [|done].
      destruct (decide (0 ≤ i < Spec.hardenedOffset)) as [Hi|Hi].
      * rewrite in_range_false by done. intros [= <-]. by constructor.
      * by rewrite out_of_range_true.
    + inversion 1 as [? i Hno _ _ Hs|body' c' i Hc' Hparse Hi Hs]; subst.
      * destruct (Hno body c eq_refl Hc).
      * apply snoc_inj in Hs as [-> ->].
        by rewrite Hparse, in_range_false.
  - split.
    + destruct (JS.parseInt segment) as [i|] eqn:Hparse; [|done].
      destruct (decide (0 ≤ i < Spec.hardenedOffset)) as [Hi|Hi].
      * rewrite in_range_false by done. intros [= <-]. by constructor.
      * by rewrite out_of_range_true.
    + inversion 1 as [? i Hno Hparse Hi|body c i Hc _ _ Hs]; subst.
      * by rewrite Hparse, in_range_false.
      * destruct (Hplain body c eq_refl Hc).
Qed.

(** The three ways a segment fails. *)
Lemma derivationIndex_throws segment :
  (∃ message, Utility.derivationIndex segment = Throw message) ↔
  ∀ d, ¬ Spec.segmentIndex segment d.
Proof.
  split.
  - intros [message Hthrow] d Hd%derivationIndex_segmentIndex. congruence.
  - intros Hnone. destruct (Utility.derivationIndex segment) as [d|message] eqn:Hd.
    + destruct (Hnone d). by apply derivationIndex_segmentIndex.
    + by eexists.
Qed.

(** A segment is refused for one of three reasons: the text to parse is
    not a number, the number is negative, or it is not below the offset. *)
Lemma refused_hardened body c :
  Spec.hardenedMark c →
  (∀ d, ¬ Spec.segmentIndex (body +:+ String c EmptyString) d) ↔
  (JS.parseInt body = None
   ∨ ∃ i, JS.parseInt body = Some i ∧ (i < 0 ∨ Spec.hardenedOffset ≤ i)).
Proof.
  intros Hc. split.
  - intros Hnone. destruct (JS.parseInt body) as [i|] eqn:Hparse; [|by left].
    right. exists i. split; [done|].
    destruct (decide (0 ≤ i < Spec.hardenedOffset)) as [Hi|Hi]; [|lia].
    destruct (Hnone (i + Spec.hardenedOffset)). by constructor.
  - intros Hwhy d Hd.
    inversion Hd as [? i Hno _ _ Hs|body' c' i Hc' Hparse Hi Hs]; subst.
    + destruct (Hno body c eq_refl Hc).
    + apply snoc_inj in Hs as [-> ->].
      destruct Hwhy as [Hnan|(j & Hj & Hout)]; [congruence|].
      assert (i = j) by congruence. lia.
Qed.

Lemma refused_plain segment :
  (∀ body c, segment = body +:+ String c EmptyString → ¬ Spec.hardenedMark c) →
  (∀ d, ¬ Spec.segmentIndex segment d) ↔
  (JS.parseInt segment = None
   ∨ ∃ i, JS.parseInt segment = Some i ∧ (i < 0 ∨ Spec.hardenedOffset ≤ i)).
Proof.
  intros Hplain. split.
  - intros Hnone. destruct (JS.parseInt segment) as [i|] eqn:Hparse; [|by left].
    right. exists i. split; [done|].
    destruct (decide (0 ≤ i < Spec.hardenedOffset)) as [Hi|Hi]; [|lia].
    destruct (Hnone i). by constructor.
  - intros Hwhy d Hd.
    inversion Hd as [? i Hno Hparse Hi|body c i Hc _ _ Hs]; subst.
    + destruct Hwhy as [Hnan|(j & Hj & Hout)]; [congruence|].
      rewrite Hj in Hparse. simplify_eq. lia.
    + destruct (Hplain body c eq_refl Hc).
Qed.

(** *** Splitting at the slashes *)

Lemma split_go_nonempty sep cur s : JS.split_go sep cur s ≠ [].
Proof.
  revert cur. induction s as [|c s IH]; intros cur; simpl; [done|].
  destruct (Ascii.eqb c sep); [done | apply IH].
Qed.

Lemma join_cons segment rest :
  rest ≠ [] →
  Spec.join (segment :: rest) = segment +:+ "/" +:+ Spec.join rest.
Proof. by destruct rest. Qed.

Lemma split_go_join cur s :
  JS.chars (Spec.join (JS.split_go "/" cur s)) = rev cur ++ s.
Proof.
  revert cur. induction s as [|c s IH]; intros cur; simpl JS.split_go.
  - simpl. by rewrite StringFacts.chars_of_list, app_nil_r.
  - destruct (Ascii.eqb_spec c "/") as [->|Hne].
    + rewrite join_cons by apply split_go_nonempty.
      rewrite !StringFacts.chars_app, StringFacts.chars_of_list, IH. done.
    + rewrite IH. simpl. by rewrite <- app_assoc.
Qed.

Lemma elem_of_rev (x : ascii) l : x ∈ rev l ↔ x ∈ l.
Proof. rewrite !list_elem_of_In. symmetry. apply in_rev. Qed.

Lemma split_go_no_slash cur s :
  "/"%char ∉ cur →
  Forall (fun segment => "/"%char ∉ JS.chars segment) (JS.split_go "/" cur s).
Proof.
  revert cur. induction s as [|c s IH]; intros cur Hcur; simpl.
  - constructor; [|done]. rewrite StringFacts.chars_of_list.
    by rewrite elem_of_rev.
  - destruct (Ascii.eqb_spec c "/") as [->|Hne].
    + constructor.
      * rewrite StringFacts.chars_of_list. by rewrite elem_of_rev.
      * apply IH, not_elem_of_nil.
    + apply IH. rewrite not_elem_of_cons. split; [congruence | done].
Qed.

(** The segments are the pieces between the slashes: joined they give
    the text back, and none holds a slash. *)
Lemma split_join s :
  Spec.join (JS.split "/" s) = s
  ∧ Forall (fun segment => "/"%char ∉ JS.chars segment) (JS.split "/" s).
Proof.
  split.
  - apply StringFacts.chars_inj. unfold JS.split. by rewrite split_go_join.
  - apply split_go_no_slash, not_elem_of_nil.
Qed.

Lemma stripPrefix_withoutPrefix path :
  Spec.withoutPrefix path (JS.stripPrefix_m_slash path).
Proof.
  unfold Spec.withoutPrefix.
  destruct path as [|a [|b r]]; simpl; [right; split; [done|]; intros r' Hr; discriminate..|].
  destruct (Ascii.eqb_spec a "m") as [->|Ha]; simpl.
  - destruct (Ascii.eqb_spec b "/") as [->|Hb]; [by left|].
    right. split; [done|]. intros r' [= ? ?]. done.
  - right. split; [done|]. intros r' [= ? ?]. done.
Qed.

End PathFacts.

Section Derivation.
Context `{External}.

(** Valid segments become derivation steps, applied in order. *)
Lemma derivePath_deriveAll segments indexes node :
  Forall2 Spec.segmentIndex
    (filter (fun segment => segment ≠ EmptyString) segments) indexes →
  Utility.derivePath segments node = Spec.deriveAll node indexes.
Proof.
  revert indexes node.
  induction segments as [|segment segments IH]; intros indexes node Hall; simpl.
  - rewrite filter_nil in Hall. by inversion Hall.
  - rewrite filter_cons in Hall.
    destruct (String.eqb_spec segment EmptyString) as [->|Hne].
    + case_decide; [done|]. by apply IH.
    + case_decide; [|done]. inversion Hall as [|? d ? ds Hd Hrest]; subst.
      apply PathFacts.derivationIndex_segmentIndex in Hd. rewrite Hd. simpl.
      destruct (BIP32_derive node d); simpl; [by apply IH | done].
Qed.

(** One invalid segment makes the whole derivation fail. *)
Lemma derivePath_throws segments node :
  Exists (fun segment => segment ≠ EmptyString
                         ∧ ∀ d, ¬ Spec.segmentIndex segment d) segments →
  ∃ message, Utility.derivePath segments node = Throw message.
Proof.
  intros Hex. revert node.
  induction Hex as [segment segments [Hne Hbad]|segment segments Hex IH];
    intros node; simpl.
  - destruct (String.eqb_spec segment EmptyString); [done|].
    apply PathFacts.derivationIndex_throws in Hbad as [message ->]. by eexists.
  - destruct (String.eqb segment EmptyString); [apply IH|].
    destruct (Utility.derivationIndex segment) as [d|message]; simpl; [|by eexists].
    destruct (BIP32_derive node d); simpl; [apply IH | by eexists].
Qed.

End Derivation.

(** C6 — [deriveChildKey] removes a leading [m/], cuts the rest at the
    slashes, skips the empty segments and reads every other segment, its
    trailing ['] or [h] removed, as a decimal index; a segment whose index
    is NaN, negative or at least 0x80000000 makes it fail, and otherwise
    the steps are derived one after the other, with 0x80000000 added to
    the index of a segment that had the mark. *)
Theorem derivation_path_parsing `{External}
    (extendedKey derivationPath : string) (network : option string) :
  let segments := Utility.pathSegments derivationPath in
  let steps := filter (fun segment => segment ≠ EmptyString) segments in
  let invalid segment := ∀ d, ¬ Spec.segmentIndex segment d in
  (∃ rest, Spec.withoutPrefix derivationPath rest
           ∧ Spec.join segments = rest
           ∧ Forall (fun segment => "/"%char ∉ JS.chars segment) segments)
  ∧ (∀ segment d,
       Utility.derivationIndex segment = Ok d ↔ Spec.segmentIndex segment d)
  ∧ (∀ segment,
       invalid segment ↔
       Utility.derivationIndex segment
       = Throw ("Invalid derivation index: " +:+ segment))
  ∧ (∀ body c,
       Spec.hardenedMark c →
       invalid (body +:+ String c EmptyString) ↔
       (JS.parseInt body = None
        ∨ ∃ i, JS.parseInt body = Some i ∧ (i < 0 ∨ 0x80000000 ≤ i)))
  ∧ (∀ segment,
       (∀ body c, segment = body +:+ String c EmptyString → ¬ Spec.hardenedMark c) →
       invalid segment ↔
       (JS.parseInt segment = None
        ∨ ∃ i, JS.parseInt segment = Some i ∧ (i < 0 ∨ 0x80000000 ≤ i)))
  ∧ (∀ node indexes,
       Forall2 Spec.segmentIndex steps indexes →
       Utility.derivePath segments node = Spec.deriveAll node indexes)
  ∧ (Exists invalid steps →
     (∀ node, ∃ message, Utility.derivePath segments node = Throw message)
     ∧ ∃ message,
         Utility.deriveChildKey extendedKey derivationPath network = Throw message)
  ∧ (∀ indexes,
       Forall2 Spec.segmentIndex steps indexes →
       Utility.deriveChildKey extendedKey derivationPath network =
       Utils.resolveNetwork network ≫= fun net =>
         rethrow "Key derivation failed: "
           (BIP32_fromBase58 extendedKey net ≫= fun node =>
            Spec.deriveAll node indexes ≫= fun derivedNode =>
            payments_p2wpkh (BIP32_publicKey derivedNode) net ≫= fun payment =>
            Ok {| Utility.extendedKey := BIP32_toBase58 derivedNode;
                  Utility.publicKey := JS.toHex (BIP32_publicKey derivedNode);
                  Utility.privateKey := JS.toHex <$> BIP32_privateKey derivedNode;
                  Utility.derivedAddress := pay_address payment |})).
Proof.
  intros segments steps invalid.
  assert (Hexists : Exists invalid steps →
            Exists (fun segment => segment ≠ EmptyString ∧ invalid segment) segments).
  { unfold steps. rewrite !Exists_exists.
    intros (segment & [Hne Hin]%list_elem_of_filter & Hinv). eauto. }
  split.
  { exists (JS.stripPrefix_m_slash derivationPath).
    split; [apply PathFacts.stripPrefix_withoutPrefix|].
    apply PathFacts.split_join. }
  split; [apply PathFacts.derivationIndex_segmentIndex|].
  split.
  { intros segment. unfold invalid.
    rewrite <- PathFacts.derivationIndex_throws. split; [|by eexists].
    intros [message Hm]. rewrite Hm. f_equal.
    unfold Utility.derivationIndex in Hm.
    repeat case_match; congruence. }
  split; [intros body c; apply PathFacts.refused_hardened|].
  split; [apply PathFacts.refused_plain|].
  split; [intros node indexes; apply derivePath_deriveAll|].
  split.
  { intros Hex%Hexists. split; [intros node; by apply derivePath_throws|].
    unfold Utility.deriveChildKey.
    destruct (Utils.resolveNetwork network) as [net|]; simpl; [|by eexists].
    destruct (BIP32_fromBase58 extendedKey net) as [node|]; simpl; [|by eexists].
    fold segments.
    destruct (derivePath_throws segments node Hex) as [message ->]. by eexists. }
  intros indexes Hall. unfold Utility.deriveChildKey.
  destruct (Utils.resolveNetwork network) as [net|]; simpl; [|done].
  destruct (BIP32_fromBase58 extendedKey net) as [node|]; simpl; [|done].
  fold segments. by rewrite (derivePath_deriveAll segments indexes node Hall).
Qed.

(** A path with two hardened steps, an empty segment and a plain step. *)
Lemma derivation_path_parsing_witness :
  @Utility.derivePath (Sample.external Sample.plain)
    (Utility.pathSegments "m/44'/0h//7") []
  = Ok [44 + 0x80000000; 0x80000000; 7]
  ∧ ∃ message,
      @Utility.deriveChildKey (Sample.external Sample.plain)
        "tprv" "m/44'/2147483648" None = Throw message.
Proof.
  pose proof (@derivation_path_parsing (Sample.external Sample.plain)
                "tprv" "m/44'/0h//7" None) as (_ & Hidx & _ & _ & _ & Hsteps & _).
  pose proof (@derivation_path_parsing (Sample.external Sample.plain)
                "tprv" "m/44'/2147483648" None)
    as (_ & Hidx' & Hbad & _ & _ & _ & Hfail & _).
  assert (Hgood : filter (fun segment => segment ≠ EmptyString)
                    (Utility.pathSegments "m/44'/0h//7") = ["44'"; "0h"; "7"])
    by (vm_compute; reflexivity).
  assert (Hover : filter (fun segment => segment ≠ EmptyString)
                    (Utility.pathSegments "m/44'/2147483648")
                  = ["44'"; "2147483648"])
    by (vm_compute; reflexivity).
  rewrite Hgood in Hsteps. rewrite Hover in Hfail.
  split.
  - rewrite (Hsteps [] [44 + 0x80000000; 0x80000000; 7]); [reflexivity|].
    constructor; [apply Hidx; reflexivity|].
    constructor; [apply Hidx; reflexivity|].
    constructor; [apply Hidx; reflexivity|]. constructor.
  - apply Hfail. apply Exists_cons_tl, Exists_cons_hd.
    apply Hbad. reflexivity.
Defined.

Example derivationIndex_lenient :
  Utility.derivationIndex " 12abc" = Ok 12
  ∧ Utility.derivationIndex "+7h" = Ok (7 + 0x80000000)
  ∧ Utility.derivationIndex "-1" = Throw "Invalid derivation index: -1"
  ∧ Utility.derivationIndex "h" = Throw "Invalid derivation index: h".
Proof. repeat split; reflexivity. Qed.

(** * Further properties of the code *)

Lemma append_assoc (a b c : string) : (a +:+ b) +:+ c = a +:+ b +:+ c.
Proof.
  apply StringFacts.chars_inj. rewrite !StringFacts.chars_app. symmetry. apply app_assoc.
Qed.

(** ** Calling and listing tools *)

Module DispatchFacts.
Import Registry.

Lemma setup_found (l : list Tool) (acc : gmap string Tool) key t :
  foldl (fun m tool => <[name tool := tool]> m) acc l !! key = Some t →
  (t ∈ l ∧ name t = key) ∨ acc !! key = Some t.
Proof.
  revert acc. induction l as [|u l IH]; intros acc; simpl; [by right|].
  intros [[Hin Hname]|Hacc]%IH.
  - left. split; [by right | done].
  - destruct (decide (name u = key)) as [<-|Hne].
    + rewrite lookup_insert_eq in Hacc. injection Hacc as ->. left. split; [by left|done].
    + rewrite lookup_insert_ne in Hacc by done. by right.
Qed.

Lemma setupTools_lookup key t :
  setupTools !! key = Some t ↔ t ∈ allTools ∧ name t = key.
Proof.
  split.
  - intros [?|Hempty]%setup_found; [done|]. by rewrite lookup_empty in Hempty.
  - intros [Hin <-]. apply RegistryFacts.setup_lookup; [|done].
    apply RegistryFacts.names_NoDup.
Qed.

Lemma declares_elem l key :
  declares l key = true ↔ ∃ t, t ∈ l ∧ name t = key.
Proof.
  unfold declares. rewrite existsb_exists. split.
  - intros (t & Hin%list_elem_of_In & Heq%String.eqb_eq). eauto.
  - intros (t & Hin%list_elem_of_In & Heq%String.eqb_eq). eauto.
Qed.

Lemma declares_names l key :
  declares l key = true ↔ key ∈ name <$> l.
Proof.
  rewrite declares_elem, list_elem_of_fmap. split.
  - intros (t & Hin & <-). eauto.
  - intros (t & -> & Hin). eauto.
Qed.

End DispatchFacts.

(** X1 — calling a tool: a name that no registry declares is refused with
    "Unknown tool" before anything runs, and this is the only failure that
    is thrown; for a declared tool the switch of its module has a case,
    and the envelope holds what the handler returned, or, with the error
    flag, the message of what it threw. *)
Theorem callTool_outcomes {R : Type}
    (run : Dispatcher.Handler → result R) (key : string) :
  ((∀ t, t ∈ Registry.allTools → Registry.name t ≠ key) →
   Dispatcher.callTool run key = Throw ("Unknown tool: " +:+ key))
  ∧ (∀ c t, t ∈ Registry.registry c → Registry.name t = key →
       ∃ h, Dispatcher.handle c key = Ok h
            ∧ Dispatcher.callTool run key
              = Ok (match run h with
                    | Ok result => Dispatcher.Content result
                    | Throw message => Dispatcher.ErrorContent message
                    end))
  ∧ (∀ message, Dispatcher.callTool run key = Throw message →
       message = "Unknown tool: " +:+ key
       ∧ ∀ t, t ∈ Registry.allTools → Registry.name t ≠ key).
Proof.
  split; [|split].
  - intros Hnone. unfold Dispatcher.callTool.
    destruct (Registry.setupTools !! key) as [t|] eqn:Hlook; [|done].
    apply DispatchFacts.setupTools_lookup in Hlook as [Hin Hname].
    destruct (Hnone t Hin Hname).
  - intros c t Hin <-.
    assert (Hall : t ∈ Registry.allTools).
    { unfold Registry.allTools. rewrite !elem_of_app. destruct c; simpl in Hin; tauto. }
    unfold Dispatcher.callTool.
    rewrite (proj2 (DispatchFacts.setupTools_lookup _ _) (conj Hall eq_refl)).
    destruct c; simpl in Hin;
      repeat (apply elem_of_cons in Hin as [->|Hin]);
      try (by apply elem_of_nil in Hin);
      (eexists; split; [reflexivity|]); simpl; by destruct (run _).
  - intros message. unfold Dispatcher.callTool.
    destruct (Registry.setupTools !! key) as [t|] eqn:Hlook.
    + by repeat case_match.
    + intros [= <-]. split; [done|]. intros t Hin Hname.
      rewrite (proj2 (DispatchFacts.setupTools_lookup key t)) in Hlook; done.
Qed.

Example callTool_examples :
  Dispatcher.callTool (fun _ => Throw "Invalid network: signet") "hash_message"
  = Ok (Dispatcher.ErrorContent (R:=string) "Invalid network: signet")
  ∧ Dispatcher.callTool (fun _ => Ok "{}") "send_coins"
    = Throw "Unknown tool: send_coins".
Proof. split; vm_compute; reflexivity. Qed.

(** X2 — the cases of a module's switch are exactly the names its registry
    declares: a declared tool never falls to the default branch, and no
    case stands for an undeclared name. *)
Theorem handlers_cover_registries (c : Registry.Category) (key : string) :
  is_ok (Dispatcher.handle c key) = true
  ↔ Registry.declares (Registry.registry c) key = true.
Proof.
  rewrite DispatchFacts.declares_names.
  destruct c;
    (match goal with
     | |- context [?k ∈ Registry.name <$> Registry.registry ?c] =>
         let names := eval vm_compute in (Registry.name <$> Registry.registry c) in
         change (k ∈ Registry.name <$> Registry.registry c) with (k ∈ names)
     end);
    rewrite !elem_of_cons, elem_of_nil;
    unfold Dispatcher.handle, Dispatcher.handleAddressTool,
      Dispatcher.handleTransactionTool, Dispatcher.handlePSBTTool,
      Dispatcher.handleUtilityTool;
    repeat (match goal with
            | |- context [String.eqb key ?b] =>
                destruct (String.eqb_spec key b) as [->|?]
            end; cbn [is_ok]); intuition congruence.
Qed.

(** X3 — listing the tools gives every declared tool exactly once. *)
Theorem listTools_complete :
  Dispatcher.listTools ≡ₚ Registry.allTools.
Proof.
  assert (Hnd : NoDup Registry.allTools).
  { eapply NoDup_fmap_1, RegistryFacts.names_NoDup. }
  apply NoDup_Permutation; [|done|].
  - unfold Dispatcher.listTools. apply NoDup_fmap_2_strong; [|apply NoDup_map_to_list].
    intros [k1 t1] [k2 t2] Hin1%elem_of_map_to_list Hin2%elem_of_map_to_list Heq.
    simpl in Heq. subst t2.
    apply DispatchFacts.setupTools_lookup in Hin1 as [_ <-].
    apply DispatchFacts.setupTools_lookup in Hin2 as [_ <-]. done.
  - intros t. unfold Dispatcher.listTools. rewrite list_elem_of_fmap. split.
    + intros ([k t'] & -> & Hin%elem_of_map_to_list).
      by apply DispatchFacts.setupTools_lookup in Hin as [? _].
    + intros Hin. exists (Registry.name t, t). split; [done|].
      apply elem_of_map_to_list. by apply DispatchFacts.setupTools_lookup.
Qed.

(** ** Reading the PSBTs to combine *)

Section LoadEach.
Context `{External}.

Lemma loadEach_ok (net : Utils.Network) (psbts : list string) :
  ∀ k parsed,
    Psbts.loadEach k psbts net = Ok parsed ↔
    Forall2 (fun text psbt => Psbts.parsePSBT text net = Ok psbt) psbts parsed.
Proof.
  induction psbts as [|text psbts IH]; intros k parsed; simpl.
  - split; [intros [= <-]; constructor | by inversion 1].
  - destruct (Psbts.parsePSBT text net) as [psbt|message] eqn:Hparse; simpl.
    + destruct (Psbts.loadEach (S k) psbts net) as [others|message] eqn:Hrest; simpl.
      * split.
        -- intros [= <-]. constructor; [done|]. by apply (IH (S k)).
        -- inversion 1 as [|? p ? ps Hp Hps]; subst.
           apply (IH (S k)) in Hps. congruence.
      * split; [done|]. inversion 1 as [|? p ? ps Hp Hps]; subst.
        apply (IH (S k)) in Hps. congruence.
    + split; [done|]. inversion 1; congruence.
Qed.

Lemma loadEach_first_failure (net : Utils.Network) (psbts : list string) :
  ∀ k i text message,
    psbts !! i = Some text →
    Psbts.parsePSBT text net = Throw message →
    (∀ j earlier, (j < i)%nat → psbts !! j = Some earlier →
                  is_ok (Psbts.parsePSBT earlier net) = true) →
    Psbts.loadEach k psbts net
    = Throw ("Invalid PSBT format at index " +:+ JS.natToString (k + i) +:+ ": "
             +:+ message).
Proof.
  induction psbts as [|first psbts IH]; intros k i text message Hlook Hfail Hbefore;
    [done|].
  destruct i as [|i]; simpl in Hlook |- *.
  - injection Hlook as ->. rewrite Hfail. simpl.
    by rewrite Nat.add_0_r, !append_assoc.
  - pose proof (Hbefore 0%nat first ltac:(lia) eq_refl) as Hfirst.
    destruct (Psbts.parsePSBT first net) as [psbt|]; [|done]. simpl.
    rewrite (IH (S k) i text message Hlook Hfail).
    + simpl. by rewrite Nat.add_succ_r.
    + intros j earlier Hj Hearlier. apply (Hbefore (S j) earlier); [lia | done].
Qed.

End LoadEach.

(** X4 — [combinePSBTs] refuses fewer than two PSBTs before reading any of
    them; with two or more it reads every one, in order, and fails at the
    first that its decoder rejects, naming the index of that one. *)
Theorem combine_reads_all `{External}
    (psbts : list string) (network : option string) (net : Utils.Network) :
  Utils.resolveNetwork network = Ok net →
  ((length psbts < 2)%nat →
   Psbts.loadPSBTs psbts network
   = Throw "At least 2 PSBTs are required for combination")
  ∧ ((2 ≤ length psbts)%nat →
     (∀ parsed,
        Psbts.loadPSBTs psbts network = Ok parsed ↔
        Forall2 (fun text psbt => Psbts.parsePSBT text net = Ok psbt) psbts parsed)
     ∧ (∀ i text message,
          psbts !! i = Some text →
          Psbts.parsePSBT text net = Throw message →
          (∀ j earlier, (j < i)%nat → psbts !! j = Some earlier →
                        is_ok (Psbts.parsePSBT earlier net) = true) →
          Psbts.loadPSBTs psbts network
          = Throw ("Invalid PSBT format at index " +:+ JS.natToString i +:+ ": "
                   +:+ message))).
Proof.
  intros Hnet. unfold Psbts.loadPSBTs. rewrite Hnet. simpl. split.
  - intros Hlen. by rewrite (proj2 (Nat.ltb_lt _ _) Hlen).
  - intros Hlen. rewrite (proj2 (Nat.ltb_ge _ _) Hlen). split.
    + intros parsed. apply loadEach_ok.
    + intros i text message Hlook Hfail Hbefore.
      by rewrite (loadEach_first_failure net psbts 0 i text message).
Qed.

(** One PSBT is refused; two are read, each by the decoder its text
    selects. *)
Lemma combine_reads_all_witness :
  @Psbts.loadPSBTs (Sample.external Sample.plain) ["cHNidP8="] None
  = Throw "At least 2 PSBTs are required for combination"
  ∧ @Psbts.loadPSBTs (Sample.external Sample.plain) ["cHNidP8="; "70-73"] None
    = Ok ["base64:cHNidP8="; "hex:70-73"].
Proof.
  pose proof (@combine_reads_all (Sample.external Sample.plain)
                ["cHNidP8="] None Utils.testnet eq_refl) as [Hone _].
  pose proof (@combine_reads_all (Sample.external Sample.plain)
                ["cHNidP8="; "70-73"] None Utils.testnet eq_refl) as [_ Htwo].
  split; [apply Hone; simpl; lia|].
  apply (proj1 (Htwo ltac:(simpl; lia))).
  repeat constructor.
Defined.

(** ** The size estimate *)

Module SizeFacts.

(** Rewriting with the exact operations on integers below 2^53. *)
Ltac exact_arithmetic :=
  repeat first
    [ rewrite DoubleFacts.Number_mul by lia
    | rewrite DoubleFacts.Number_add by lia
    | rewrite DoubleFacts.Number_sub by lia ].

Lemma ceil_quarter_nonnegative (a : Z) :
  0 ≤ a → a < 2 ^ 53 →
  JS.Math_ceil (JS.Number a / JS.Number 4) = JS.Number ((a + 3) `div` 4)
  ∧ Spec.isCeiling ((a + 3) `div` 4) a 4.
Proof.
  intros Ha Hbound. rewrite DoubleFacts.ceil_quarter by lia.
  rewrite (proj2 (Z.ltb_ge a 0)) by done. split; [done|].
  unfold Spec.isCeiling.
  pose proof (Z.div_mod (a + 3) 4 ltac:(lia)).
  pose proof (Z.mod_pos_bound (a + 3) 4 ltac:(lia)). lia.
Qed.

Lemma witness_estimate (inputs outputs : Z) :
  0 ≤ inputs → 0 ≤ outputs → 10 + 148 * inputs + 34 * outputs < 2 ^ 53 →
  Sizes.estimateTransactionSize (JS.Number inputs) (JS.Number outputs) true
  = JS.Number (10 + inputs * 41 + outputs * 34 + (inputs * 107 + 3) `div` 4).
Proof.
  intros Hi Ho Hbound. unfold Sizes.estimateTransactionSize.
  change 34%float with (JS.Number 34). change 10%float with (JS.Number 10).
  change 41%float with (JS.Number 41). change 107%float with (JS.Number 107).
  change 4%float with (JS.Number 4).
  rewrite (DoubleFacts.Number_mul inputs 107) by lia.
  destruct (ceil_quarter_nonnegative (inputs * 107)) as [-> Hceil]; [lia..|].
  unfold Spec.isCeiling in Hceil. by exact_arithmetic.
Qed.

End SizeFacts.

(** X5 — [estimateTransactionSize] on counts that are integers, not
    negative and small enough for the doubles to be exact (the legacy
    estimate below 2^53): without witness it is 10 bytes, 148 per input
    and 34 per output; with witness it is 10 bytes, 41 per input, 34 per
    output and the ceiling of a quarter of 107 bytes per input, which is
    at least 80 bytes per input below the estimate without witness. *)
Theorem estimateTransactionSize_exact (inputs outputs : Z) :
  0 ≤ inputs → 0 ≤ outputs → 10 + 148 * inputs + 34 * outputs < 2 ^ 53 →
  Sizes.estimateTransactionSize (JS.Number inputs) (JS.Number outputs) false
  = JS.Number (10 + 148 * inputs + 34 * outputs)
  ∧ ∃ quarter,
      Spec.isCeiling quarter (107 * inputs) 4
      ∧ Sizes.estimateTransactionSize (JS.Number inputs) (JS.Number outputs)
          true
        = JS.Number (10 + 41 * inputs + 34 * outputs + quarter)
      ∧ 10 + 41 * inputs + 34 * outputs + quarter + 80 * inputs
        ≤ 10 + 148 * inputs + 34 * outputs.
Proof.
  intros Hi Ho Hbound. split.
  - unfold Sizes.estimateTransactionSize.
    change 34%float with (JS.Number 34). change 10%float with (JS.Number 10).
    change 148%float with (JS.Number 148).
    SizeFacts.exact_arithmetic. f_equal. lia.
  - exists ((inputs * 107 + 3) `div` 4).
    destruct (SizeFacts.ceil_quarter_nonnegative (inputs * 107))
      as [_ Hceil]; [lia..|].
    rewrite SizeFacts.witness_estimate by done.
    unfold Spec.isCeiling in *.
    split; [lia|]. split; [f_equal; lia | lia].
Qed.

(** Two inputs and one output: 340 bytes without witness, 180 with. *)
Lemma estimateTransactionSize_exact_witness :
  Sizes.estimateTransactionSize (JS.Number 2) (JS.Number 1) false
  = JS.Number 340
  ∧ ∃ quarter,
      Spec.isCeiling quarter 214 4
      ∧ Sizes.estimateTransactionSize (JS.Number 2) (JS.Number 1) true
        = JS.Number (126 + quarter)
      ∧ 126 + quarter + 160 ≤ 340.
Proof.
  exact (estimateTransactionSize_exact 2 1 ltac:(lia) ltac:(lia) ltac:(lia)).
Defined.

(** X6 — for positive integer counts small enough for the doubles to be
    exact, the size the fee estimate reports is [estimateTransactionSize]
    without witness for legacy inputs, and is 80 bytes per input below
    [estimateTransactionSize] with witness for segwit inputs. *)
Theorem fee_size_against_size_estimate `{External}
    (inputs outputs : Z) (rate : float) (e : Transactions.FeeEstimate) :
  0 < inputs → 0 < outputs → 10 + 148 * inputs + 34 * outputs < 2 ^ 53 →
  (Transactions.estimateTransactionFee (JS.Number inputs) (JS.Number outputs)
     rate (Some "legacy") = Ok e →
   Transactions.size e
   = Sizes.estimateTransactionSize (JS.Number inputs) (JS.Number outputs) false)
  ∧ (Transactions.estimateTransactionFee (JS.Number inputs) (JS.Number outputs)
       rate (Some "segwit") = Ok e →
     ∃ estimated,
       Doubles.integerValue
         (Sizes.estimateTransactionSize (JS.Number inputs) (JS.Number outputs)
            true) = Some estimated
       ∧ Doubles.integerValue (Transactions.size e)
         = Some (estimated - 80 * inputs)).
Proof.
  intros Hi Ho Hbound. unfold Transactions.estimateTransactionFee.
  rewrite !FeeFacts.positive_number by lia. cbn [orb].
  destruct (rate <=? 0)%float; split; try discriminate.
  - intros [= <-]. reflexivity.
  - cbv zeta. cbn [JS.orDefault]. 
    change (Transactions.inputCosts "segwit") with (Ok (68%float, 107%float)).
    cbn [mbind result_bind]. cbv beta iota.
    change (String.eqb "segwit" "segwit") with true. cbn [orb].
    intros [= <-]. cbn [Transactions.size].
    rewrite SizeFacts.witness_estimate by lia.
    change 34%float with (JS.Number 34). change 10%float with (JS.Number 10).
    change 68%float with (JS.Number 68). change 107%float with (JS.Number 107).
    change 4%float with (JS.Number 4).
    rewrite (DoubleFacts.Number_mul inputs 107) by lia.
    destruct (SizeFacts.ceil_quarter_nonnegative (inputs * 107))
      as [-> Hceil]; [lia..|].
    unfold Spec.isCeiling in Hceil. SizeFacts.exact_arithmetic.
    eexists. rewrite !DoubleFacts.integerValue_Number by lia.
    split; [reflexivity|]. f_equal. lia.
Qed.

(** Two inputs and one output at 1 sat/vB: the legacy sizes are both 340,
    the segwit size is 20 against an estimate of 180. *)
Lemma fee_size_against_size_estimate_witness :
  ∃ legacy segwit,
    @Transactions.estimateTransactionFee (Sample.external Sample.plain)
      (JS.Number 2) (JS.Number 1) 1 (Some "legacy") = Ok legacy
    ∧ @Transactions.estimateTransactionFee (Sample.external Sample.plain)
        (JS.Number 2) (JS.Number 1) 1 (Some "segwit") = Ok segwit
    ∧ Transactions.size legacy
      = Sizes.estimateTransactionSize (JS.Number 2) (JS.Number 1) false
    ∧ ∃ estimated,
        Doubles.integerValue
          (Sizes.estimateTransactionSize (JS.Number 2) (JS.Number 1) true)
        = Some estimated
        ∧ Doubles.integerValue (Transactions.size segwit)
          = Some (estimated - 80 * 2).
Proof.
  eexists _, _. split; [reflexivity|]. split; [reflexivity|]. split.
  - exact (proj1 (@fee_size_against_size_estimate
                    (Sample.external Sample.plain) 2 1 1 _
                    ltac:(lia) ltac:(lia) ltac:(lia)) eq_refl).
  - exact (proj2 (@fee_size_against_size_estimate
                    (Sample.external Sample.plain) 2 1 1 _
                    ltac:(lia) ltac:(lia) ltac:(lia)) eq_refl).
Defined.

(** ** Addresses (src/tools/address.ts, src/utils/bitcoin.ts) *)

Module AddressFacts.

Lemma getNetworkConfig_ok (name : string) (net : Utils.Network) :
  Utils.getNetworkConfig name = Ok net → Utils.validateNetwork name = true.
Proof.
  intros Hconf. pose proof (UtilsFacts.getNetworkConfig_cases name) as Hc.
  rewrite Hconf in Hc. apply UtilsFacts.validateNetwork_lowered. rewrite Hc.
  unfold Spec.networkNames. destruct net; repeat constructor.
Qed.

Lemma getNetworkConfig_throw (name message : string) :
  Utils.getNetworkConfig name = Throw message →
  message = "Unsupported network: " +:+ name.
Proof.
  intros Hconf. pose proof (UtilsFacts.getNetworkConfig_cases name) as Hc.
  rewrite Hconf in Hc. tauto.
Qed.

Section WithLibrary.
Context `{Library}.

Lemma isValidAddress_any (address : string) :
  isValidAddress address None = true ↔
  ∃ net, is_ok (address_toOutputScript address net) = true.
Proof.
  unfold isValidAddress. cbn [existsb Utils.networks Utils.mainnet_
    Utils.testnet_ Utils.regtest_].
  rewrite !orb_true_iff. split.
  - intros [Hok | [Hok | [Hok | Hok]]]; eauto. discriminate.
  - intros [[] Hok]; auto.
Qed.

Lemma detectNetwork_cases (address : string) :
  Addresses.detectNetwork address =
    if is_ok (address_toOutputScript address Utils.bitcoin)
    then Some ("mainnet", Utils.bitcoin)
    else if is_ok (address_toOutputScript address Utils.testnet)
    then Some ("testnet", Utils.testnet)
    else if is_ok (address_toOutputScript address Utils.regtest)
    then Some ("regtest", Utils.regtest)
    else None.
Proof. reflexivity. Qed.

Lemma detectNetwork_some (address name : string) (net : Utils.Network) :
  Addresses.detectNetwork address = Some (name, net) →
  is_ok (address_toOutputScript address net) = true ∧
  Utils.getNetworkConfig name = Ok net.
Proof.
  rewrite detectNetwork_cases.
  destruct (is_ok (address_toOutputScript address Utils.bitcoin)) eqn:Hm;
    [intros [= <- <-]; auto|].
  destruct (is_ok (address_toOutputScript address Utils.testnet)) eqn:Ht;
    [intros [= <- <-]; auto|].
  destruct (is_ok (address_toOutputScript address Utils.regtest)) eqn:Hr;
    [intros [= <- <-]; auto|].
  discriminate.
Qed.

Lemma detectNetwork_none (address : string) :
  Addresses.detectNetwork address = None ↔
  ∀ net, is_ok (address_toOutputScript address net) = false.
Proof.
  rewrite detectNetwork_cases. split.
  - intros Hnone [];
      destruct (is_ok (address_toOutputScript address Utils.bitcoin));
      destruct (is_ok (address_toOutputScript address Utils.testnet));
      destruct (is_ok (address_toOutputScript address Utils.regtest));
      congruence.
  - intros Hall. rewrite !Hall. reflexivity.
Qed.

End WithLibrary.
End AddressFacts.

(** X7 — [validate_address] reports [valid] exactly when the address has an
    output script under the network named (a recognized name) or, with no
    network named, under one of the three networks; the network reported is
    then the name as given, or the first of mainnet, testnet, regtest that
    accepts the address.  A valid report carries a type and no error, an
    invalid one an error and nothing else; an unrecognized network name is
    reported as ['Unsupported network: <name>'] instead of being thrown. *)
Theorem validateAddress_outcomes `{Library} (address : string)
    (network : option string) :
  let report := Addresses.validateAddress address network in
  let accepts net := is_ok (address_toOutputScript address net) in
  (∀ name, JS.truthy network = Some name →
     (Addresses.valid report = true ↔
        ∃ net, Utils.getNetworkConfig name = Ok net ∧ accepts net = true) ∧
     (Addresses.valid report = true →
        Addresses.validNetwork report = Some name) ∧
     (Utils.validateNetwork name = false →
        Addresses.error report = Some ("Unsupported network: " +:+ name))) ∧
  (JS.truthy network = None →
     (Addresses.valid report = true ↔ ∃ net, accepts net = true) ∧
     Addresses.valid report = isValidAddress address None ∧
     Addresses.validNetwork report =
       if accepts Utils.bitcoin then Some "mainnet"
       else if accepts Utils.testnet then Some "testnet"
       else if accepts Utils.regtest then Some "regtest"
       else None) ∧
  (Addresses.valid report = true →
     (∃ net, accepts net = true ∧
        Addresses.validType report =
          Some (Addresses.getAddressType address net)) ∧
     Addresses.error report = None) ∧
  (Addresses.valid report = false →
     Addresses.validNetwork report = None ∧
     Addresses.validType report = None ∧
     Addresses.error report ≠ None).
Proof.
  intros report accepts. subst report accepts. cbn beta.
  unfold Addresses.validateAddress.
  destruct (JS.truthy network) as [name|] eqn:Hnet.
  - destruct (Utils.getNetworkConfig name) as [net|message] eqn:Hconf.
    + cbn [isValidAddress].
      destruct (is_ok (address_toOutputScript address net)) eqn:Hacc;
        cbn [Addresses.valid Addresses.validNetwork Addresses.validType
             Addresses.error].
      * split; [|split; [discriminate|split; [|discriminate]]].
        -- intros name' [= <-]. split; [|split]; [|done|].
           ++ split; [eauto | done].
           ++ intros Hno. apply AddressFacts.getNetworkConfig_ok in Hconf.
              congruence.
        -- intros _. split; [eauto | done].
      * split; [|split; [discriminate|split; [discriminate|done]]].
        intros name' [= <-]. split; [|split]; [|discriminate|].
        -- split; [discriminate|]. intros (net' & Hconf' & Hacc'). congruence.
        -- intros Hno. apply AddressFacts.getNetworkConfig_ok in Hconf.
           congruence.
    + cbn [Addresses.valid Addresses.validNetwork Addresses.validType
           Addresses.error].
      split; [|split; [discriminate|split; [discriminate|done]]].
      intros name' [= <-]. split; [|split]; [|discriminate|].
      * split; [discriminate|]. intros (net' & Hconf' & _). congruence.
      * intros _. f_equal. by apply AddressFacts.getNetworkConfig_throw.
  - rewrite AddressFacts.detectNetwork_cases.
    unfold isValidAddress. cbn [existsb Utils.networks
      Utils.mainnet_ Utils.testnet_ Utils.regtest_].
    destruct (is_ok (address_toOutputScript address Utils.bitcoin)) eqn:Hm;
      [|destruct (is_ok (address_toOutputScript address Utils.testnet)) eqn:Ht;
        [|destruct (is_ok (address_toOutputScript address Utils.regtest)) eqn:Hr]];
      cbn [Addresses.valid Addresses.validNetwork Addresses.validType
           Addresses.error orb];
      (split; [discriminate|]).
    1-3: split; [intros _; split; [split; [eauto | done] | done]|];
         (split; [intros _; split; [eauto | done] | discriminate]).
    split; [intros _|split; [discriminate|done]].
    split; [|done]. split; [discriminate|]. intros [[] Hacc]; congruence.
Qed.

Module SearchFacts.
Section WithLibrary.
Context `{Library}.

Lemma templateName_inj (t t' : Template) :
  Templates.templateName t = Templates.templateName t' → t = t'.
Proof. destruct t, t'; done. Qed.

Lemma getAddressType_firstMatch (address : string) (net : Utils.Network) :
  Addresses.getAddressType address net =
    match address_toOutputScript address net ≫= fun outputScript =>
          Search.firstMatch Templates.templates outputScript address net with
    | Ok type => type
    | Throw _ => "unknown"
    end.
Proof. reflexivity. Qed.

Lemma firstMatch_name ts outputScript address net t :
  Search.firstMatch ts outputScript address net = Ok (Templates.templateName t) ↔
  t ∈ ts ∧
  (∀ t', t' ∈ Templates.before t ts →
     ∃ found, payments_fromOutput t' outputScript net = Ok found ∧
              found ≠ Some address) ∧
  payments_fromOutput t outputScript net = Ok (Some address).
Proof.
  induction ts as [|t0 rest IH]; cbn [Search.firstMatch Templates.before].
  - split; [by destruct t | intros [Hin _]; by apply elem_of_nil in Hin].
  - unfold Addresses.templateMatches.
    destruct (payments_fromOutput t0 outputScript net) as [found|e] eqn:Hfound;
      cbn [mbind result_bind].
    + case_bool_decide as Hsame.
      * subst found. split.
        -- intros [= Heq]. apply templateName_inj in Heq as <-.
           rewrite bool_decide_eq_true_2 by done.
           split; [left|split; [intros t' Hin; by apply elem_of_nil in Hin|done]].
        -- intros (_ & Hbefore & Hmatch). case_bool_decide as Ht; [by subst|].
           destruct (Hbefore t0) as (found & Hf & Hne); [left|]. congruence.
      * rewrite IH. split.
        -- intros (Hin & Hbefore & Hmatch).
           rewrite bool_decide_eq_false_2 by congruence.
           split; [by right|split; [|done]].
           intros t' [->|Hin']%elem_of_cons; eauto.
        -- intros (Hin & Hbefore & Hmatch).
           case_bool_decide as Ht; [congruence|].
           apply elem_of_cons in Hin as [->|Hin]; [done|].
           split; [done|split; [|done]].
           intros t' Hin'. apply Hbefore. by right.
    + split; [discriminate|]. intros (_ & Hbefore & Hmatch).
      case_bool_decide as Ht; [congruence|].
      destruct (Hbefore t0) as (found & Hf & Hne); [left|]. congruence.
Qed.

Lemma firstMatch_answers ts outputScript address net type :
  Search.firstMatch ts outputScript address net = Ok type →
  type = "unknown" ∨ ∃ t, type = Templates.templateName t.
Proof.
  induction ts as [|t0 rest IH]; cbn [Search.firstMatch].
  - intros [= <-]. by left.
  - destruct (Addresses.templateMatches t0 outputScript address net) as [[]|];
      cbn [mbind result_bind]; [|done|done].
    intros [= <-]. right. by eexists.
Qed.

Lemma firstMatch_throws ts outputScript address net t message :
  t ∈ ts →
  payments_fromOutput t outputScript net = Throw message →
  (∀ t', t' ∈ Templates.before t ts →
     payments_fromOutput t' outputScript net ≠ Ok (Some address)) →
  is_ok (Search.firstMatch ts outputScript address net) = false.
Proof.
  intros Hin Hthrow. induction ts as [|t0 rest IH];
    cbn [Search.firstMatch Templates.before]; [by apply elem_of_nil in Hin|].
  unfold Addresses.templateMatches. case_bool_decide as Ht.
  - subst t0. rewrite Hthrow. done.
  - intros Hbefore. apply elem_of_cons in Hin as [->|Hin]; [done|].
    destruct (payments_fromOutput t0 outputScript net) as [found|e] eqn:Hfound;
      cbn [mbind result_bind]; [|done].
    case_bool_decide as Hsame.
    + subst found. destruct (Hbefore t0); [left|done].
    + apply IH; [done|]. intros t' Hin'. apply Hbefore. by right.
Qed.

End WithLibrary.
End SearchFacts.

(** X8 — [getAddressType] answers a type's name exactly when the address
    has an output script, every template tried before that type returned a
    payment with another address (or none), and the type's own template
    gives back the address; otherwise the answer is ['unknown'].  In
    particular a template call that throws before any match makes the
    answer ['unknown'], whatever the later templates would say. *)
Theorem getAddressType_first_match `{Library} (address : string)
    (net : Utils.Network) :
  (∀ t, Addresses.getAddressType address net = Templates.templateName t ↔
     ∃ outputScript,
       address_toOutputScript address net = Ok outputScript ∧
       (∀ t', t' ∈ Templates.earlier t →
          ∃ found, payments_fromOutput t' outputScript net = Ok found ∧
                   found ≠ Some address) ∧
       payments_fromOutput t outputScript net = Ok (Some address)) ∧
  ((∀ t, Addresses.getAddressType address net ≠ Templates.templateName t) →
   Addresses.getAddressType address net = "unknown") ∧
  (∀ outputScript t message,
     address_toOutputScript address net = Ok outputScript →
     payments_fromOutput t outputScript net = Throw message →
     (∀ t', t' ∈ Templates.earlier t →
        payments_fromOutput t' outputScript net ≠ Ok (Some address)) →
     Addresses.getAddressType address net = "unknown").
Proof.
  rewrite SearchFacts.getAddressType_firstMatch.
  assert (Hall : ∀ t, t ∈ Templates.templates).
  { intros []; unfold Templates.templates; repeat constructor. }
  destruct (address_toOutputScript address net) as [script|e] eqn:Hscript;
    cbn [mbind result_bind].
  2: { split; [|split]; [|done|intros ? ? ? [=]].
       intros t. split; [by destruct t | intros (? & [=] & _)]. }
  split; [|split].
  - intros t.
    destruct (Search.firstMatch Templates.templates script address net)
      as [type|e] eqn:Hfirst.
    + split.
      * intros ->. apply SearchFacts.firstMatch_name in Hfirst
          as (_ & Hbefore & Hmatch). eauto.
      * intros (script' & [= <-] & Hbefore & Hmatch).
        assert (Search.firstMatch Templates.templates script address net
                = Ok (Templates.templateName t)) as Hname
          by (apply SearchFacts.firstMatch_name; auto).
        congruence.
    + split; [by destruct t|].
      intros (script' & [= <-] & Hbefore & Hmatch).
      assert (Search.firstMatch Templates.templates script address net
              = Ok (Templates.templateName t)) as Hname
        by (apply SearchFacts.firstMatch_name; auto).
      congruence.
  - destruct (Search.firstMatch Templates.templates script address net)
      as [type|e] eqn:Hfirst; [|done].
    intros Hnot. apply SearchFacts.firstMatch_answers in Hfirst
      as [->|[t ->]]; [done|]. by destruct (Hnot t).
  - intros script' t message [= <-] Hthrow Hbefore.
    pose proof (SearchFacts.firstMatch_throws _ script address net t message
                  (Hall t) Hthrow Hbefore) as Hno.
    by destruct (Search.firstMatch Templates.templates script address net).
Qed.

(** With the stand-in library, where a template throws on a script of
    another kind, a pay-to-script-hash address is typed ['unknown']: the
    P2PKH attempt throws first. *)
Example getAddressType_p2sh_unknown :
  @Addresses.getAddressType _ (SampleLibrary.library Sample.plain)
    "tb:a9aa" Utils.testnet = "unknown" ∧
  @Addresses.getAddressType _ (SampleLibrary.library Sample.plain)
    "tb:76aa" Utils.testnet = "p2pkh".
Proof. split; reflexivity. Qed.

(** X9 — [decode_address] returns a result exactly when [validate_address]
    reports the same address and network argument valid, and then echoes
    the address and reports the same network and type; every failure of
    [decode_address] carries the prefix ['Failed to decode address: ']. *)
Theorem decodeAddress_agrees_with_validateAddress `{Library}
    (address : string) (network : option string) :
  let report := Addresses.validateAddress address network in
  let decoded := Addresses.decodeAddress address network in
  is_ok decoded = Addresses.valid report ∧
  (∀ d, decoded = Ok d →
     Addresses.dec_address d = address ∧
     Addresses.validNetwork report = Some (Addresses.dec_network d) ∧
     Addresses.validType report = Some (Addresses.dec_type d) ∧
     ∃ net outputScript,
       address_toOutputScript address net = Ok outputScript ∧
       Addresses.dec_script d = JS.toHex outputScript ∧
       Addresses.dec_scriptAsm d = script_toASM outputScript) ∧
  (∀ message, decoded = Throw message →
     ∃ why, message = "Failed to decode address: " +:+ why) ∧
  (JS.truthy network = None → Addresses.valid report = false →
   decoded =
     Throw "Failed to decode address: Cannot detect network for address").
Proof.
  intros report decoded. subst report decoded.
  unfold Addresses.validateAddress, Addresses.decodeAddress.
  destruct (JS.truthy network) as [name|] eqn:Hnet.
  - destruct (Utils.getNetworkConfig name) as [net|e] eqn:Hconf;
      cbn [mbind result_bind rethrow is_ok Addresses.valid].
    + cbn [isValidAddress].
      destruct (address_toOutputScript address net) as [script|e] eqn:Hscript;
        cbn [mbind result_bind rethrow is_ok Addresses.valid
             Addresses.validNetwork Addresses.validType Addresses.error].
      * split; [done|split; [|split; [discriminate|discriminate]]].
        intros d [= <-]. cbn. repeat split. eauto.
      * split; [done|split; [discriminate|split; [|discriminate]]].
        intros message [= <-]. by eexists.
    + split; [done|split; [discriminate|split; [|discriminate]]].
      intros message [= <-]. by eexists.
  - destruct (Addresses.detectNetwork address) as [[name net]|] eqn:Hdetect;
      cbn [mbind result_bind rethrow is_ok Addresses.valid
           Addresses.validNetwork Addresses.validType Addresses.error].
    + apply AddressFacts.detectNetwork_some in Hdetect as [Hacc _].
      destruct (address_toOutputScript address net) as [script|e] eqn:Hscript;
        [|discriminate].
      cbn [mbind result_bind rethrow is_ok].
      split; [done|split; [|split; [discriminate|discriminate]]].
      intros d [= <-]. cbn. repeat split. eauto.
    + split; [done|split; [discriminate|split; [|done]]].
      intros message [= <-]. by eexists.
Qed.

(** X10 — when [generate_address] returns, the network named (testnet when
    absent) is a recognized one and is echoed as given; the type reported
    is the requested type in lower case and one of the five supported; a
    public key that was supplied decodes to 33 or 65 bytes; a redeem
    script is reported exactly for p2sh and a witness script exactly for
    p2wsh, where it is the one supplied. *)
Theorem generateAddress_result `{Library} (type : string)
    (network publicKey redeemScript witnessScript : option string)
    (info : Addresses.AddressInfo) :
  Addresses.generateAddress type network publicKey redeemScript witnessScript
    = Ok info →
  Utils.validateNetwork (JS.orDefault network "testnet") = true ∧
  Addresses.network info = JS.orDefault network "testnet" ∧
  Addresses.type info = JS.toLowerCase type ∧
  Addresses.type info ∈ ["p2pkh"; "p2wpkh"; "p2sh"; "p2wsh"; "p2tr"] ∧
  (∀ text, JS.truthy publicKey = Some text →
     length (JS.bufferFromHex text) = 33%nat ∨
     length (JS.bufferFromHex text) = 65%nat) ∧
  (Addresses.redeemScript info ≠ None ↔ Addresses.type info = "p2sh") ∧
  (∀ text, JS.truthy redeemScript = Some text →
     Addresses.type info = "p2sh" → Addresses.redeemScript info = Some text) ∧
  (Addresses.witnessScript info ≠ None ↔ Addresses.type info = "p2wsh") ∧
  (Addresses.type info = "p2wsh" →
     ∃ text, JS.truthy witnessScript = Some text ∧
             Addresses.witnessScript info = Some text).
Proof.
  unfold Addresses.generateAddress.
  destruct (Utils.validateNetwork (JS.orDefault network "testnet")) eqn:Hnet;
    cbn [negb]; [|discriminate].
  destruct (Utils.getNetworkConfig (JS.orDefault network "testnet")) as [net|e];
    cbn [mbind result_bind]; [|discriminate].
  assert (Hkey : ∀ pubkey,
    match JS.truthy publicKey with
    | Some text =>
        if negb (length (JS.bufferFromHex text) =? 33)%nat
           && negb (length (JS.bufferFromHex text) =? 65)%nat
        then Throw "Invalid public key length"
        else Ok (JS.bufferFromHex text)
    | None => ECPair_makeRandom net
    end = Ok pubkey →
    ∀ text, JS.truthy publicKey = Some text →
      length (JS.bufferFromHex text) = 33%nat ∨
      length (JS.bufferFromHex text) = 65%nat).
  { intros pubkey Hpub text Htext. rewrite Htext in Hpub.
    destruct (Nat.eqb_spec (length (JS.bufferFromHex text)) 33); [by left|].
    destruct (Nat.eqb_spec (length (JS.bufferFromHex text)) 65); [by right|].
    discriminate. }
  destruct (match JS.truthy publicKey with Some _ => _ | None => _ end)
    as [pubkey|e] eqn:Hpub; cbn [mbind result_bind]; [|discriminate].
  specialize (Hkey pubkey eq_refl).
  destruct (String.eqb_spec (JS.toLowerCase type) "p2pkh") as [Ht|_].
  { destruct (payments_p2pkh_pubkey pubkey net); cbn [mbind result_bind];
      [|discriminate].
    intros [= <-]. cbn. rewrite Ht.
    repeat split; try done; try (intros; discriminate); repeat constructor. }
  destruct (String.eqb_spec (JS.toLowerCase type) "p2wpkh") as [Ht|_].
  { destruct (payments_p2wpkh pubkey net); cbn [mbind result_bind];
      [|discriminate].
    intros [= <-]. cbn. rewrite Ht.
    repeat split; try done; try (intros; discriminate); repeat constructor. }
  destruct (String.eqb_spec (JS.toLowerCase type) "p2sh") as [Ht|_].
  { destruct (JS.truthy redeemScript) as [text|].
    - destruct (payments_p2sh (JS.bufferFromHex text) net);
        cbn [mbind result_bind]; [|discriminate].
      intros [= <-]. cbn. rewrite Ht.
      repeat split; try done; try (intros; discriminate); try congruence;
        repeat constructor.
    - destruct (payments_p2wpkh pubkey net) as [p2wpkh|];
        cbn [mbind result_bind]; [|discriminate].
      destruct (payments_p2sh (pay_output p2wpkh) net);
        cbn [mbind result_bind]; [|discriminate].
      intros [= <-]. cbn. rewrite Ht.
      repeat split; try done; try (intros; discriminate); repeat constructor. }
  destruct (String.eqb_spec (JS.toLowerCase type) "p2wsh") as [Ht|_].
  { destruct (JS.truthy witnessScript) as [text|]; [|discriminate].
    destruct (payments_p2wsh (JS.bufferFromHex text) net);
      cbn [mbind result_bind]; [|discriminate].
    intros [= <-]. cbn. rewrite Ht.
    repeat split; try done; try (intros; discriminate); eauto;
      repeat constructor. }
  destruct (String.eqb_spec (JS.toLowerCase type) "p2tr") as [Ht|_];
    [|discriminate].
  destruct (payments_p2tr (Addresses.xOnly pubkey) net);
    cbn [mbind result_bind]; [|discriminate].
  intros [= <-]. cbn. rewrite Ht.
  repeat split; try done; try (intros; discriminate); repeat constructor.
Qed.

Lemma generateAddress_result_witness :
  ∃ info,
    @Addresses.generateAddress _ (SampleLibrary.library Sample.plain)
      "P2WSH" (Some "Regtest") (Some Sample.key33) None (Some "51") = Ok info ∧
    Addresses.type info = "p2wsh" ∧
    Addresses.witnessScript info ≠ None.
Proof.
  eexists. split; [reflexivity|].
  pose proof (@generateAddress_result _ (SampleLibrary.library Sample.plain)
    "P2WSH" (Some "Regtest") (Some Sample.key33) None (Some "51") _ eq_refl)
    as (_ & _ & Htype & _ & _ & _ & _ & Hws & _).
  split; [exact Htype|]. apply Hws. exact Htype.
Defined.

Module GenerateFacts.
Section WithLibrary.
Context `{Library}.

Lemma xOnly_length (pubkey : Buffer) :
  (33 ≤ length pubkey)%nat → length (Addresses.xOnly pubkey) = 32%nat.
Proof.
  intros Hlen. unfold Addresses.xOnly.
  rewrite length_take, length_drop. lia.
Qed.

End WithLibrary.
End GenerateFacts.

(** X11 — the checks of [generate_address] in their order: an unrecognized
    network name throws ['Invalid network: <name>']; then a supplied public
    key that does not decode to 33 or 65 bytes throws ['Invalid public key
    length'], whatever the type; then, the key being fine, a type outside
    the five throws ['Unsupported address type: <type>'] (the type as
    given), p2wsh without a witness script throws, and p2tr hands the
    library the 32 bytes that follow the key's first byte. *)
Theorem generateAddress_checks `{Library} (type : string)
    (network publicKey redeemScript witnessScript : option string) :
  let name := JS.orDefault network "testnet" in
  let generated :=
    Addresses.generateAddress type network publicKey redeemScript
      witnessScript in
  (Utils.validateNetwork name = false →
   generated = Throw ("Invalid network: " +:+ name)) ∧
  (∀ text, Utils.validateNetwork name = true →
     JS.truthy publicKey = Some text →
     length (JS.bufferFromHex text) ≠ 33%nat →
     length (JS.bufferFromHex text) ≠ 65%nat →
     generated = Throw "Invalid public key length") ∧
  (∀ text net, Utils.getNetworkConfig name = Ok net →
     JS.truthy publicKey = Some text →
     length (JS.bufferFromHex text) = 33%nat ∨
     length (JS.bufferFromHex text) = 65%nat →
     (JS.toLowerCase type ∉ ["p2pkh"; "p2wpkh"; "p2sh"; "p2wsh"; "p2tr"] →
      generated = Throw ("Unsupported address type: " +:+ type)) ∧
     (JS.toLowerCase type = "p2wsh" → JS.truthy witnessScript = None →
      generated = Throw "Witness script required for P2WSH address") ∧
     (JS.toLowerCase type = "p2tr" →
      length (Addresses.xOnly (JS.bufferFromHex text)) = 32%nat ∧
      is_ok generated =
        is_ok (payments_p2tr (Addresses.xOnly (JS.bufferFromHex text)) net))).
Proof.
  intros name generated. subst name generated.
  unfold Addresses.generateAddress. split; [|split].
  - intros ->. reflexivity.
  - intros text Hv Hkey H33 H65. rewrite Hv. cbn [negb].
    pose proof (UtilsFacts.getNetworkConfig_cases (JS.orDefault network "testnet")) as Hc.
    destruct (Utils.getNetworkConfig (JS.orDefault network "testnet")) as [net|e];
      [|destruct Hc; congruence].
    cbn [mbind result_bind]. rewrite Hkey.
    rewrite (proj2 (Nat.eqb_neq _ _) H33), (proj2 (Nat.eqb_neq _ _) H65).
    reflexivity.
  - intros text net Hconf Hkey Hlen.
    rewrite (AddressFacts.getNetworkConfig_ok _ _ Hconf), Hconf, Hkey.
    cbn [negb mbind result_bind].
    assert (negb (length (JS.bufferFromHex text) =? 33)%nat
            && negb (length (JS.bufferFromHex text) =? 65)%nat = false) as ->.
    { destruct Hlen as [-> | ->]; reflexivity. }
    cbn [mbind result_bind]. split; [|split].
    + intros Hnot.
      destruct (String.eqb_spec (JS.toLowerCase type) "p2pkh") as [Ht|_];
        [destruct Hnot; rewrite Ht; repeat constructor|].
      destruct (String.eqb_spec (JS.toLowerCase type) "p2wpkh") as [Ht|_];
        [destruct Hnot; rewrite Ht; repeat constructor|].
      destruct (String.eqb_spec (JS.toLowerCase type) "p2sh") as [Ht|_];
        [destruct Hnot; rewrite Ht; repeat constructor|].
      destruct (String.eqb_spec (JS.toLowerCase type) "p2wsh") as [Ht|_];
        [destruct Hnot; rewrite Ht; repeat constructor|].
      destruct (String.eqb_spec (JS.toLowerCase type) "p2tr") as [Ht|_];
        [destruct Hnot; rewrite Ht; repeat constructor|].
      reflexivity.
    + intros -> ->. reflexivity.
    + intros ->. split; [apply GenerateFacts.xOnly_length; lia|].
      change ("p2tr" =? "p2pkh")%string with false.
      change ("p2tr" =? "p2wpkh")%string with false.
      change ("p2tr" =? "p2sh")%string with false.
      change ("p2tr" =? "p2wsh")%string with false.
      change ("p2tr" =? "p2tr")%string with true. cbv iota.
      by destruct (payments_p2tr _ net).
Qed.

(** A 32-byte key is refused before the unsupported type is looked at. *)
Example generateAddress_key_before_type :
  @Addresses.generateAddress _ (SampleLibrary.library Sample.plain)
    "p2xx" None (Some (Sample.repeatA 64)) None None
  = Throw "Invalid public key length".
Proof. reflexivity. Qed.

(** X12 — [address_from_script] accepts only the types p2sh and p2wsh
    (compared in lower case; any other type throws ['Unsupported
    script-to-address type: <type>'] once the network is resolved), and for
    those it returns what [generate_address] returns for the same type and
    network when given the script as redeem script or witness script and a
    public key of 33 or 65 bytes. *)
Theorem addressFromScript_agrees_with_generateAddress `{Library}
    (script type : string) (network : option string) (publicKey : string) :
  script ≠ "" →
  publicKey ≠ "" →
  length (JS.bufferFromHex publicKey) = 33%nat ∨
  length (JS.bufferFromHex publicKey) = 65%nat →
  (JS.toLowerCase type = "p2sh" →
   ∀ witnessScript,
     Addresses.addressFromScript script network type =
     Addresses.generateAddress type network (Some publicKey) (Some script)
       witnessScript) ∧
  (JS.toLowerCase type = "p2wsh" →
   ∀ redeemScript,
     Addresses.addressFromScript script network type =
     Addresses.generateAddress type network (Some publicKey) redeemScript
       (Some script)) ∧
  (JS.toLowerCase type ≠ "p2sh" → JS.toLowerCase type ≠ "p2wsh" →
   ∀ net, Utils.resolveNetwork network = Ok net →
     Addresses.addressFromScript script network type =
     Throw ("Unsupported script-to-address type: " +:+ type)).
Proof.
  intros Hscript Hpub Hlen.
  assert (JS.truthy (Some publicKey) = Some publicKey) as Hkey.
  { by destruct publicKey. }
  assert (JS.truthy (Some script) = Some script) as Htruthy.
  { by destruct script. }
  assert (negb (length (JS.bufferFromHex publicKey) =? 33)%nat
          && negb (length (JS.bufferFromHex publicKey) =? 65)%nat = false)
    as Hgood.
  { destruct Hlen as [-> | ->]; reflexivity. }
  unfold Addresses.addressFromScript, Addresses.generateAddress,
    Utils.resolveNetwork.
  split; [|split].
  - intros -> witnessScript.
    destruct (Utils.validateNetwork (JS.orDefault network "testnet"));
      cbn [negb]; [|reflexivity].
    destruct (Utils.getNetworkConfig (JS.orDefault network "testnet"));
      cbn [mbind result_bind]; [|reflexivity].
    rewrite Hkey, Hgood, Htruthy. reflexivity.
  - intros -> redeemScript.
    destruct (Utils.validateNetwork (JS.orDefault network "testnet"));
      cbn [negb]; [|reflexivity].
    destruct (Utils.getNetworkConfig (JS.orDefault network "testnet"));
      cbn [mbind result_bind]; [|reflexivity].
    rewrite Hkey, Hgood, Htruthy. reflexivity.
  - intros Hp2sh Hp2wsh net ->. cbn [mbind result_bind].
    destruct (String.eqb_spec (JS.toLowerCase type) "p2sh"); [done|].
    destruct (String.eqb_spec (JS.toLowerCase type) "p2wsh"); [done|].
    reflexivity.
Qed.

Lemma addressFromScript_agrees_with_generateAddress_witness :
  @Addresses.addressFromScript (Sample.external Sample.plain)
    "51ae" (Some "mainnet") "P2SH" =
  @Addresses.generateAddress _ (SampleLibrary.library Sample.plain)
    "P2SH" (Some "mainnet") (Some Sample.key33) (Some "51ae") None.
Proof.
  refine (proj1 (@addressFromScript_agrees_with_generateAddress _
    (SampleLibrary.library Sample.plain) "51ae" "P2SH" (Some "mainnet")
    Sample.key33 _ _ _) _ None).
  - discriminate.
  - discriminate.
  - left. reflexivity.
  - reflexivity.
Defined.

(** ** Building transactions and PSBTs *)

Module BuildFacts.
Section WithLibrary.
Context `{Library}.

Lemma resolveNetwork_ok (network : option string) (net : Utils.Network) :
  Utils.resolveNetwork network = Ok net ↔
  Utils.validateNetwork (JS.orDefault network "testnet") = true ∧
  Utils.getNetworkConfig (JS.orDefault network "testnet") = Ok net.
Proof.
  unfold Utils.resolveNetwork.
  destruct (Utils.validateNetwork (JS.orDefault network "testnet"));
    cbn [negb]; [tauto|].
  split; [discriminate | intros [[=] _]].
Qed.

Lemma addOutputs_ok (outputs : list OutputArg) (net : Utils.Network)
    (psbt psbt' : Psbt) :
  addOutputs psbt outputs net = Ok psbt' →
  Forall (fun output =>
            0 < out_amount output ∧
            is_ok (address_toOutputScript (out_address output) net) = true)
         outputs.
Proof.
  revert psbt. induction outputs as [|output rest IH]; intros psbt;
    cbn [addOutputs]; [constructor|].
  destruct (Z.leb_spec (out_amount output) 0); [discriminate|].
  destruct (address_toOutputScript (out_address output) net) eqn:Hscript;
    [|discriminate].
  destruct (Psbt_addOutput psbt (out_address output) (out_amount output));
    cbn [mbind result_bind]; [|discriminate].
  intros Hrest. constructor; [by rewrite Hscript | by eapply IH].
Qed.

Lemma txid_check (txid : string) :
  negb (Utils.isValidHex txid) || negb (String.length txid =? 64)%nat = false ↔
  Utils.isValidHex txid = true ∧ String.length txid = 64%nat.
Proof.
  rewrite orb_false_iff, !negb_false_iff, Nat.eqb_eq. tauto.
Qed.

Lemma transaction_addInputs_ok (inputs : list TransactionTools.InputArg)
    (psbt psbt' : Psbt) :
  TransactionTools.addInputs psbt inputs = Ok psbt' →
  Forall (fun input =>
            Utils.isValidHex (TransactionTools.txid input) = true ∧
            String.length (TransactionTools.txid input) = 64%nat ∧
            0 ≤ TransactionTools.vout input ∧
            0 < TransactionTools.amount input)
         inputs.
Proof.
  revert psbt. induction inputs as [|input rest IH]; intros psbt;
    cbn [TransactionTools.addInputs]; [constructor|].
  destruct (negb _ || negb _) eqn:Htxid; [discriminate|].
  apply txid_check in Htxid as [Hhex Hlen].
  destruct (Z.ltb_spec (TransactionTools.vout input) 0); [discriminate|].
  destruct (Z.leb_spec (TransactionTools.amount input) 0); [discriminate|].
  destruct (Psbt_addInput psbt _); cbn [mbind result_bind]; [|discriminate].
  intros Hrest. constructor; [done | by eapply IH].
Qed.

Lemma psbt_addInputs_ok (inputs : list PsbtTools.InputArg)
    (psbt psbt' : Psbt) :
  PsbtTools.addInputs psbt inputs = Ok psbt' →
  Forall (fun input =>
            Utils.isValidHex (PsbtTools.txid input) = true ∧
            String.length (PsbtTools.txid input) = 64%nat)
         inputs.
Proof.
  revert psbt. induction inputs as [|input rest IH]; intros psbt;
    cbn [PsbtTools.addInputs]; [constructor|].
  destruct (negb _ || negb _) eqn:Htxid; [discriminate|].
  apply txid_check in Htxid.
  destruct (Psbt_addInput psbt _); cbn [mbind result_bind]; [|discriminate].
  intros Hrest. constructor; [done | by eapply IH].
Qed.

Lemma transaction_addInputs_app (good rest : list TransactionTools.InputArg)
    (psbt : Psbt) :
  TransactionTools.addInputs psbt (good ++ rest)
  = TransactionTools.addInputs psbt good ≫= fun added =>
      TransactionTools.addInputs added rest.
Proof.
  revert psbt. induction good as [|input good IH]; intros psbt;
    cbn [app TransactionTools.addInputs]; [done|].
  destruct (negb _ || negb _); [done|].
  destruct (TransactionTools.vout input <? 0); [done|].
  destruct (TransactionTools.amount input <=? 0); [done|].
  destruct (Psbt_addInput psbt _); cbn [mbind result_bind]; [|done].
  apply IH.
Qed.

Lemma addOutputs_app (good rest : list OutputArg) (net : Utils.Network)
    (psbt : Psbt) :
  addOutputs psbt (good ++ rest) net
  = addOutputs psbt good net ≫= fun added => addOutputs added rest net.
Proof.
  revert psbt. induction good as [|output good IH]; intros psbt;
    cbn [app addOutputs]; [done|].
  destruct (out_amount output <=? 0); [done|].
  destruct (address_toOutputScript (out_address output) net); [|done].
  destruct (Psbt_addOutput psbt _ _); cbn [mbind result_bind]; [|done].
  apply IH.
Qed.

End WithLibrary.
End BuildFacts.

(** X13 — the refusals of [create_transaction].  A network that is not
    recognized is refused.  On a recognized one, once version and lock
    time are set, the inputs are checked in order: the first one whose
    txid is not exactly 64 hex digits, whose vout is negative or whose
    amount is not positive is refused with ['Invalid txid: '], ['Invalid
    vout: '] or ['Invalid amount: '] and the value, the txid being looked
    at first and the amount last.  With the inputs added the outputs are
    checked in order: the first one whose amount is not positive or whose
    address has no output script on the network is refused with ['Invalid
    output amount: '] or ['Invalid address: '].  With the outputs added,
    an error of [extractTransaction] is thrown as it is. *)
Theorem createTransaction_refusals `{Library}
    (inputs : list TransactionTools.InputArg) (outputs : list OutputArg)
    (network : option string) (locktime version : option Z) :
  let outcome :=
    TransactionTools.createTransaction inputs outputs network locktime version in
  (∀ message, Utils.resolveNetwork network = Throw message →
     outcome = Throw message) ∧
  (∀ net versioned psbt,
     Utils.resolveNetwork network = Ok net →
     Psbt_setVersion (Psbt_new net) (numberOr version 2) = Ok versioned →
     Psbt_setLocktime versioned (numberOr locktime 0) = Ok psbt →
     (∀ good bad rest added,
        inputs = good ++ bad :: rest →
        TransactionTools.addInputs psbt good = Ok added →
        (Utils.isValidHex (TransactionTools.txid bad) = false
         ∨ String.length (TransactionTools.txid bad) ≠ 64%nat →
         outcome = Throw ("Invalid txid: " +:+ TransactionTools.txid bad)) ∧
        (Utils.isValidHex (TransactionTools.txid bad) = true →
         String.length (TransactionTools.txid bad) = 64%nat →
         (TransactionTools.vout bad < 0 →
          outcome = Throw ("Invalid vout: "
                           +:+ Number_toString (TransactionTools.vout bad))) ∧
         (0 ≤ TransactionTools.vout bad →
          TransactionTools.amount bad ≤ 0 →
          outcome = Throw ("Invalid amount: "
                           +:+ Number_toString (TransactionTools.amount bad))))) ∧
     (∀ withInputs,
        TransactionTools.addInputs psbt inputs = Ok withInputs →
        (∀ good bad rest added,
           outputs = good ++ bad :: rest →
           addOutputs withInputs good net = Ok added →
           (out_amount bad ≤ 0 →
            outcome = Throw ("Invalid output amount: "
                             +:+ Number_toString (out_amount bad))) ∧
           (0 < out_amount bad →
            is_ok (address_toOutputScript (out_address bad) net) = false →
            outcome = Throw ("Invalid address: " +:+ out_address bad))) ∧
        (∀ complete message,
           addOutputs withInputs outputs net = Ok complete →
           Psbt_extractTransaction complete true = Throw message →
           outcome = Throw message))).
Proof.
  intros outcome. subst outcome. split.
  - intros message Hnet. unfold TransactionTools.createTransaction.
    unfold Utils.resolveNetwork in Hnet. cbv zeta in *.
    destruct (Utils.validateNetwork (JS.orDefault network "testnet"));
      cbn [negb] in *; [|by injection Hnet as <-].
    by rewrite Hnet.
  - intros net versioned psbt Hnet Hversion Hlocktime.
    apply BuildFacts.resolveNetwork_ok in Hnet as [Hvalid Hconf].
    unfold TransactionTools.createTransaction. cbv zeta.
    rewrite Hvalid, Hconf. cbn [negb mbind result_bind].
    rewrite Hversion. cbn [mbind result_bind].
    rewrite Hlocktime. cbn [mbind result_bind].
    split.
    + intros good bad rest added -> Hgood.
      rewrite BuildFacts.transaction_addInputs_app, Hgood.
      cbn [mbind result_bind TransactionTools.addInputs].
      split.
      * intros Htxid.
        destruct (negb _ || negb _) eqn:Hcheck; [done|].
        apply BuildFacts.txid_check in Hcheck as [Hhex Hlen].
        destruct Htxid; congruence.
      * intros Hhex Hlen.
        rewrite (proj2 (BuildFacts.txid_check _) (conj Hhex Hlen)).
        split.
        -- intros Hvout. by rewrite (proj2 (Z.ltb_lt _ _) Hvout).
        -- intros Hvout Hamount.
           rewrite (proj2 (Z.ltb_ge _ _) Hvout).
           by rewrite (proj2 (Z.leb_le _ _) Hamount).
    + intros withInputs Hinputs. rewrite Hinputs. cbn [mbind result_bind].
      split.
      * intros good bad rest added -> Hgood.
        rewrite BuildFacts.addOutputs_app, Hgood.
        cbn [mbind result_bind addOutputs].
        split.
        -- intros Hamount. by rewrite (proj2 (Z.leb_le _ _) Hamount).
        -- intros Hamount Hscript.
           rewrite (proj2 (Z.leb_gt _ _) Hamount).
           by destruct (address_toOutputScript (out_address bad) net).
      * intros complete message Houtputs Hextract.
        rewrite Houtputs. cbn [mbind result_bind].
        by rewrite Hextract.
Qed.

(** A second input with a negative vout, after one that is added. *)
Lemma createTransaction_refusals_witness :
  @TransactionTools.createTransaction _ (SampleLibrary.library Sample.plain)
    [{| TransactionTools.txid := Sample.repeatA 64;
        TransactionTools.vout := 0; TransactionTools.amount := 1000;
        TransactionTools.address := None;
        TransactionTools.scriptPubKey := None |};
     {| TransactionTools.txid := Sample.repeatA 64;
        TransactionTools.vout := -1; TransactionTools.amount := 1000;
        TransactionTools.address := None;
        TransactionTools.scriptPubKey := None |}]
    [{| out_address := "tb:76aa"; out_amount := 900 |}] None None None
  = Throw "Invalid vout: -1".
Proof.
  pose proof (@createTransaction_refusals _ (SampleLibrary.library Sample.plain)
    [{| TransactionTools.txid := Sample.repeatA 64;
        TransactionTools.vout := 0; TransactionTools.amount := 1000;
        TransactionTools.address := None;
        TransactionTools.scriptPubKey := None |};
     {| TransactionTools.txid := Sample.repeatA 64;
        TransactionTools.vout := -1; TransactionTools.amount := 1000;
        TransactionTools.address := None;
        TransactionTools.scriptPubKey := None |}]
    [{| out_address := "tb:76aa"; out_amount := 900 |}] None None None)
    as [_ Hchecks].
  destruct (Hchecks Utils.testnet _ _ eq_refl eq_refl eq_refl) as [Hinputs _].
  destruct (Hinputs
    [{| TransactionTools.txid := Sample.repeatA 64;
        TransactionTools.vout := 0; TransactionTools.amount := 1000;
        TransactionTools.address := None;
        TransactionTools.scriptPubKey := None |}]
    {| TransactionTools.txid := Sample.repeatA 64;
       TransactionTools.vout := -1; TransactionTools.amount := 1000;
       TransactionTools.address := None;
       TransactionTools.scriptPubKey := None |} [] _ eq_refl eq_refl)
    as [_ Hvout].
  exact (proj1 (Hvout eq_refl eq_refl) eq_refl).
Defined.

(** Inputs and outputs that pass every check make a PSBT that is not
    finalized, and [extractTransaction] refuses it. *)
Example createTransaction_not_finalized :
  @TransactionTools.createTransaction _ (SampleLibrary.library Sample.plain)
    [{| TransactionTools.txid := Sample.repeatA 64;
        TransactionTools.vout := 0; TransactionTools.amount := 1000;
        TransactionTools.address := None;
        TransactionTools.scriptPubKey := None |}]
    [{| out_address := "tb:76aa"; out_amount := 900 |}] None None None
  = Throw "Not finalized".
Proof. reflexivity. Qed.

(** X14 — when [create_psbt] returns, the network is a recognized one,
    every input has a transaction id of exactly 64 hex digits, every
    output has a positive amount and an address with an output script on
    that network, and the two texts returned are the hex and the base64
    form of one PSBT.  A version or lock time of zero is not set at all:
    the call is the one without it. *)
Theorem createPSBT_checks `{Library}
    (inputs : list PsbtTools.InputArg) (outputs : list OutputArg)
    (network : option string) (version locktime : option Z) :
  (∀ encoded,
     PsbtTools.createPSBT inputs outputs network version locktime = Ok encoded →
     ∃ net,
       Utils.resolveNetwork network = Ok net ∧
       Forall (fun input =>
                 Utils.isValidHex (PsbtTools.txid input) = true ∧
                 String.length (PsbtTools.txid input) = 64%nat) inputs ∧
       Forall (fun output =>
                 0 < out_amount output ∧
                 is_ok (address_toOutputScript (out_address output) net) = true)
              outputs ∧
       ∃ psbt, PsbtTools.psbt encoded = Psbt_toHex psbt ∧
               PsbtTools.base64 encoded = Psbt_toBase64 psbt) ∧
  PsbtTools.createPSBT inputs outputs network (Some 0) locktime =
    PsbtTools.createPSBT inputs outputs network None locktime ∧
  PsbtTools.createPSBT inputs outputs network version (Some 0) =
    PsbtTools.createPSBT inputs outputs network version None.
Proof.
  split; [|split; reflexivity].
  intros encoded. unfold PsbtTools.createPSBT.
  destruct (Utils.resolveNetwork network) as [net|] eqn:Hnet;
    cbn [mbind result_bind]; [|discriminate].
  destruct (match numberTruthy version with Some _ => _ | None => _ end)
    as [psbt1|]; cbn [mbind result_bind]; [|discriminate].
  destruct (match numberTruthy locktime with Some _ => _ | None => _ end)
    as [psbt2|]; cbn [mbind result_bind]; [|discriminate].
  destruct (PsbtTools.addInputs psbt2 inputs) as [psbt3|] eqn:Hin;
    cbn [mbind result_bind]; [|discriminate].
  destruct (addOutputs psbt3 outputs net) as [psbt4|] eqn:Hout;
    cbn [mbind result_bind]; [|discriminate].
  intros [= <-]. exists net. split; [done|].
  split; [by eapply BuildFacts.psbt_addInputs_ok|].
  split; [by eapply BuildFacts.addOutputs_ok|].
  by exists psbt4.
Qed.

(** Where [create_transaction] refuses a negative vout and a zero amount,
    [create_psbt] passes them on to the library. *)
Example createPSBT_leaves_vout_and_amount :
  @TransactionTools.createTransaction _ (SampleLibrary.library Sample.plain)
    [{| TransactionTools.txid := Sample.repeatA 64;
        TransactionTools.vout := -1; TransactionTools.amount := 0;
        TransactionTools.address := None;
        TransactionTools.scriptPubKey := None |}]
    [{| out_address := "tb:76aa"; out_amount := 900 |}] None None None
  = Throw "Invalid vout: -1" ∧
  is_ok (@PsbtTools.createPSBT _ (SampleLibrary.library Sample.plain)
    [{| PsbtTools.txid := Sample.repeatA 64;
        PsbtTools.vout := -1; PsbtTools.amount := 0;
        PsbtTools.scriptPubKey := None; PsbtTools.redeemScript := None;
        PsbtTools.witnessScript := None; PsbtTools.witnessUtxo := None;
        PsbtTools.nonWitnessUtxo := None |}]
    [{| out_address := "tb:76aa"; out_amount := 900 |}] None None None)
  = true.
Proof. split; reflexivity. Qed.

(** ** Signing and finalizing *)

Module SignFacts.

Lemma keyPairsFrom_lengths {K} (fromWIF : string → result K) index privateKeys :
  (length (keyPairsFrom fromWIF index privateKeys).1
   + length (keyPairsFrom fromWIF index privateKeys).2
   = length privateKeys)%nat.
Proof.
  revert index. induction privateKeys as [|wif rest IH]; intros index;
    cbn [keyPairsFrom]; [done|].
  specialize (IH (S index)).
  destruct (keyPairsFrom fromWIF (S index) rest) as [keyPairs errors].
  destruct (fromWIF wif); cbn [fst snd length] in *; lia.
Qed.

Lemma keyPairsFrom_keys {K} (fromWIF : string → result K) index privateKeys :
  (keyPairsFrom fromWIF index privateKeys).1 =
  omap (fun wif => match fromWIF wif with
                   | Ok keyPair => Some keyPair
                   | Throw _ => None
                   end) privateKeys.
Proof.
  revert index. induction privateKeys as [|wif rest IH]; intros index;
    cbn [keyPairsFrom omap list_omap]; [done|].
  specialize (IH (S index)).
  destruct (keyPairsFrom fromWIF (S index) rest) as [keyPairs errors].
  destruct (fromWIF wif); cbn [fst] in *; by rewrite IH.
Qed.

Lemma keyPairsFrom_none {K} (fromWIF : string → result K) index privateKeys :
  (keyPairsFrom fromWIF index privateKeys).1 = [] ↔
  Forall (fun wif => is_ok (fromWIF wif) = false) privateKeys.
Proof.
  rewrite keyPairsFrom_keys.
  induction privateKeys as [|wif rest IH]; cbn [omap list_omap].
  - split; [constructor | done].
  - rewrite Forall_cons. destruct (fromWIF wif); cbn [is_ok].
    + split; [discriminate | intros [[=] _]].
    + rewrite IH. tauto.
Qed.

Lemma keyPairsFrom_all {K} (fromWIF : string → result K) index privateKeys :
  (keyPairsFrom fromWIF index privateKeys).2 = [] ↔
  Forall (fun wif => is_ok (fromWIF wif) = true) privateKeys.
Proof.
  revert index. induction privateKeys as [|wif rest IH]; intros index;
    cbn [keyPairsFrom].
  - split; [constructor | done].
  - specialize (IH (S index)). rewrite Forall_cons.
    destruct (keyPairsFrom fromWIF (S index) rest) as [keyPairs errors].
    destruct (fromWIF wif); cbn [is_ok fst snd] in *.
    + rewrite IH. tauto.
    + split; [discriminate | intros [[=] _]].
Qed.

Lemma someIfAny_none (errors : list string) :
  someIfAny errors = None ↔ errors = [].
Proof. destruct errors; cbn; split; congruence. Qed.

Lemma length_zero {A} (l : list A) : (length l =? 0)%nat = true ↔ l = [].
Proof. destruct l; cbn; split; congruence. Qed.

Section WithLibrary.
Context `{Library}.

Lemma signInputs_inputCount (psbt : Psbt) (keyPairs : list Signer) :
  Psbt_inputCount (signInputs psbt keyPairs) = Psbt_inputCount psbt.
Proof.
  unfold signInputs. generalize (seq 0 (Psbt_inputCount psbt)) as indices.
  intros indices. revert psbt.
  induction indices as [|i rest IH]; intros psbt; cbn [foldl]; [done|].
  rewrite IH. clear IH. revert psbt.
  induction keyPairs as [|keyPair others IH]; intros psbt; cbn [foldl]; [done|].
  by rewrite IH, Psbt_signInput_inputCount.
Qed.

Lemma failedInputs_nil (psbt : Psbt) :
  failedInputs psbt = [] ↔
  ∀ i, (i < Psbt_inputCount psbt)%nat →
       is_ok (Psbt_validateSignaturesOfInput psbt i) = true.
Proof.
  unfold failedInputs.
  assert (Hgen : ∀ indices : list nat,
    omap (fun i => match Psbt_validateSignaturesOfInput psbt i with
                   | Ok _ => None
                   | Throw message => Some (i, message)
                   end) indices = [] ↔
    Forall (fun i => is_ok (Psbt_validateSignaturesOfInput psbt i) = true)
           indices).
  { induction indices as [|i rest IH]; cbn [omap list_omap].
    - split; [constructor | done].
    - rewrite Forall_cons.
      destruct (Psbt_validateSignaturesOfInput psbt i); cbn [is_ok].
      + rewrite IH. tauto.
      + split; [discriminate | intros [[=] _]]. }
  rewrite Hgen, Forall_forall. split.
  - intros Hall i Hi. apply Hall, elem_of_seq. lia.
  - intros Hall i Hi%elem_of_seq. apply Hall. lia.
Qed.

Lemma failedInputs_sorted (psbt : Psbt) :
  (failedInputs psbt).*1 =
  filter (fun i => is_ok (Psbt_validateSignaturesOfInput psbt i) = false)
         (seq 0 (Psbt_inputCount psbt)).
Proof.
  unfold failedInputs. induction (seq 0 (Psbt_inputCount psbt)) as [|i rest IH];
    cbn [omap list_omap]; [done|].
  rewrite filter_cons.
  destruct (Psbt_validateSignaturesOfInput psbt i); cbn [is_ok].
  - by rewrite decide_False by done.
  - rewrite decide_True by done. cbn. by rewrite IH.
Qed.

End WithLibrary.
End SignFacts.

(** X15 — [sign_transaction], once the network is resolved and the hex
    parsed as a PSBT: it throws exactly when no private key converts (also
    when none is given), and then with ['No valid private keys provided'].
    Otherwise it returns; [signed] is true exactly when every input
    validates after the signing attempts and finalizing and extracting
    succeed, and exactly when no errors are reported: a key that failed to
    convert is then not reported.  A signed result carries the hex of the
    extracted transaction, an unsigned one the hex of the PSBT. *)
Theorem signTransaction_outcomes `{Library} (hex : string)
    (privateKeys : list string) (network : option string)
    (net : Utils.Network) (psbt : Psbt) :
  Utils.resolveNetwork network = Ok net →
  Utils.isValidHex hex = true →
  Psbt_fromHex hex net = Ok psbt →
  let outcome := TransactionTools.signTransaction hex privateKeys network in
  let keyPairs :=
    (keyPairsFrom (fun wif => ECPair_fromWIF wif net) 0 privateKeys).1 in
  let attempted := signInputs psbt keyPairs in
  let finalized := Psbt_finalizeAllInputs attempted in
  let extracted :=
    finalized.2 ≫= fun _ => Psbt_extractTransaction finalized.1 false in
  let validated :=
    ∀ i, (i < Psbt_inputCount psbt)%nat →
         is_ok (Psbt_validateSignaturesOfInput attempted i) = true in
  (outcome = Throw "No valid private keys provided" ↔
   Forall (fun wif => is_ok (ECPair_fromWIF wif net) = false) privateKeys) ∧
  (∀ message, outcome = Throw message →
     message = "No valid private keys provided") ∧
  (∀ result, outcome = Ok result →
     (TransactionTools.signed result = true ↔
        validated ∧ is_ok extracted = true) ∧
     (TransactionTools.signed result = true ↔
        TransactionTools.errors result = None) ∧
     (TransactionTools.signed result = true →
        ∃ tx, extracted = Ok tx ∧
              TransactionTools.hex result = Transaction_toHex tx) ∧
     (TransactionTools.signed result = false →
        (validated ∧ TransactionTools.hex result = Psbt_toHex finalized.1) ∨
        (¬ validated ∧ TransactionTools.hex result = Psbt_toHex attempted))).
Proof.
  intros Hnet Hhex Hpsbt outcome keyPairs attempted finalized extracted
    validated.
  apply BuildFacts.resolveNetwork_ok in Hnet as [Hvalid Hconf].
  assert (Hfailed : failedInputs attempted = [] ↔ validated).
  { rewrite SignFacts.failedInputs_nil. unfold validated, attempted.
    by rewrite SignFacts.signInputs_inputCount. }
  subst outcome. unfold TransactionTools.signTransaction.
  rewrite Hvalid, Hhex, Hconf. cbn [negb mbind result_bind].
  rewrite Hpsbt. cbn [mbind result_bind].
  pose proof (SignFacts.keyPairsFrom_none
                (fun wif => ECPair_fromWIF wif net) 0 privateKeys) as Hnone.
  fold keyPairs in Hnone. fold keyPairs in attempted.
  destruct (keyPairsFrom (fun wif => ECPair_fromWIF wif net) 0 privateKeys)
    as [keys errors] eqn:Hkeys.
  cbn [fst] in keyPairs. subst keyPairs.
  destruct (length keys =? 0)%nat eqn:Hlen.
  { apply SignFacts.length_zero in Hlen.
    split; [tauto|]. split; [by intros ? [= <-] | discriminate]. }
  assert (keys ≠ []) as Hsome.
  { intros Hnil%SignFacts.length_zero. congruence. }
  assert (Hreturns : ∀ result : TransactionTools.Signed,
    (Ok result = Throw "No valid private keys provided" ↔
     Forall (fun wif => is_ok (ECPair_fromWIF wif net) = false) privateKeys) ∧
    (∀ message, Ok result = Throw message →
       message = "No valid private keys provided")).
  { intros result. split; [split; [discriminate | tauto] | discriminate]. }
  fold attempted.
  destruct (length (failedInputs attempted) =? 0)%nat eqn:Hfail.
  - apply SignFacts.length_zero in Hfail.
    pose proof (proj1 Hfailed Hfail) as Hall.
    subst extracted. fold finalized.
    destruct finalized as [psbt' done] eqn:Hfin. cbn [fst snd].
    destruct (done ≫= _) as [tx|message] eqn:Hextract.
    + split; [apply Hreturns|]. split; [apply Hreturns|].
      intros result [= <-]. cbn. repeat split; eauto; discriminate.
    + split; [apply Hreturns|]. split; [apply Hreturns|].
      intros result [= <-]. cbn.
      repeat split; try discriminate; try tauto.
      intros Herr%SignFacts.someIfAny_none.
        by apply app_eq_nil in Herr as [_ [=]].
  - split; [apply Hreturns|]. split; [apply Hreturns|].
    intros result [= <-]. cbn.
    assert (¬ validated) as Hnot.
    { intros Hall%Hfailed. rewrite Hall in Hfail. discriminate. }
    repeat split; try discriminate; try tauto.
    intros Herr%SignFacts.someIfAny_none.
    apply app_eq_nil in Herr as [_ Herr]. apply fmap_nil_inv in Herr.
    rewrite Herr in Hfail. discriminate.
Qed.

Lemma signTransaction_outcomes_witness :
  @TransactionTools.signTransaction _ (SampleLibrary.library Sample.plain)
    "aa" ["xKey"; ""] None = Throw "No valid private keys provided".
Proof.
  apply (proj1 (@signTransaction_outcomes _ (SampleLibrary.library Sample.plain)
    "aa" ["xKey"; ""] None Utils.testnet ("hex:aa" : @Psbt (Sample.external Sample.plain))
    eq_refl eq_refl eq_refl)).
  repeat constructor.
Defined.

(** With a key that converts and one that does not, the transaction is
    signed and the failed key is not reported. *)
Example signTransaction_drops_key_errors :
  @TransactionTools.signTransaction _ (SampleLibrary.library Sample.plain)
    "aa" ["xKey"; "cKey"] None
  = Ok {| TransactionTools.hex := "0200"; TransactionTools.signed := true;
          TransactionTools.errors := None |}.
Proof. reflexivity. Qed.

(** X16 — [sign_psbt] never returns.  Its keys are converted with
    [bitcoin.ECPair.fromWIF], which the library does not have, so no key
    converts: on a PSBT that loads it throws ['No valid private keys
    provided'] whatever the keys are, and otherwise the error of loading
    the PSBT. *)
Theorem signPSBT_outcomes `{Library} (text : string)
    (privateKeys : list string) (network : option string) :
  let outcome := PsbtTools.signPSBT text privateKeys network in
  (∀ result, outcome ≠ Ok result) ∧
  (∀ psbt, Psbts.loadPSBT text network = Ok psbt →
     outcome = Throw "No valid private keys provided") ∧
  (∀ message, Psbts.loadPSBT text network = Throw message →
     outcome = Throw message).
Proof.
  intros outcome. subst outcome.
  unfold PsbtTools.signPSBT, Psbts.loadPSBT.
  destruct (Utils.resolveNetwork network) as [net|];
    cbn [mbind result_bind]; [|by split; [|split]; [| |intros ? [= <-]]].
  destruct (Psbts.parsePSBT text net) as [psbt|];
    cbn [rethrow mbind result_bind];
    [|by split; [|split]; [| |intros ? [= <-]]].
  pose proof (proj2 (SignFacts.keyPairsFrom_none
                       (fun wif => PsbtTools.bitcoin_ECPair_fromWIF wif net)
                       0 privateKeys)) as Hnone.
  destruct (keyPairsFrom _ 0 privateKeys) as [keys errors].
  cbn [fst] in Hnone. rewrite Hnone; [done|].
  by apply Forall_forall.
Qed.

(** A key that [ECPair.fromWIF] of src/utils/bitcoin.ts could convert is
    of no use here. *)
Lemma signPSBT_outcomes_witness :
  @PsbtTools.signPSBT _ (SampleLibrary.library Sample.plain)
    "cHNidP8=" ["cKey"] (Some "regtest")
  = Throw "No valid private keys provided".
Proof.
  exact (proj1 (proj2 (@signPSBT_outcomes _ (SampleLibrary.library Sample.plain)
    "cHNidP8=" ["cKey"] (Some "regtest"))) _ eq_refl).
Defined.

(** X17 — [finalize_psbt] on a PSBT that loads never throws: validation,
    finalizing and extraction failures are reported in [errors].
    [finalized] is true exactly when every input validates and finalizing
    and extracting succeed; exactly then there are a hex and a txid and no
    errors.  If some input fails validation the errors are one message per
    failing input, in input order, and the PSBT is not finalized; if all
    validate but finalizing or extracting throws there is the single
    message ['Finalization failed: <message>']. *)
Theorem finalizePSBT_outcomes `{Library} (text : string)
    (network : option string) (psbt : Psbt) :
  Psbts.loadPSBT text network = Ok psbt →
  let finalized := Psbt_finalizeAllInputs psbt in
  let extracted :=
    finalized.2 ≫= fun _ => Psbt_extractTransaction finalized.1 false in
  let validates i := is_ok (Psbt_validateSignaturesOfInput psbt i) in
  let validated := ∀ i, (i < Psbt_inputCount psbt)%nat → validates i = true in
  ∃ result,
    PsbtTools.finalizePSBT text network = Ok result ∧
    (PsbtTools.finalized result = true ↔ validated ∧ is_ok extracted = true) ∧
    (PsbtTools.finalized result = true ↔ PsbtTools.final_errors result = None) ∧
    (PsbtTools.finalized result = true →
       ∃ tx, extracted = Ok tx ∧
             PsbtTools.final_hex result = Some (Transaction_toHex tx) ∧
             PsbtTools.final_txid result = Some (Transaction_getId tx)) ∧
    (PsbtTools.finalized result = false →
       PsbtTools.final_hex result = None ∧
       PsbtTools.final_txid result = None) ∧
    (¬ validated →
       ∃ errors, PsbtTools.final_errors result = Some errors ∧
         length errors =
           length (filter (fun i => validates i = false)
                          (seq 0 (Psbt_inputCount psbt)))) ∧
    (∀ message, validated → extracted = Throw message →
       PsbtTools.final_errors result
         = Some ["Finalization failed: " +:+ message]).
Proof.
  intros Hload finalized extracted validates validated.
  unfold PsbtTools.finalizePSBT. rewrite Hload. cbn [mbind result_bind].
  pose proof (SignFacts.failedInputs_nil psbt) as Hnil.
  pose proof (SignFacts.failedInputs_sorted psbt) as Hsorted.
  fold validated in Hnil.
  rewrite length_map.
  destruct (failedInputs psbt) as [|failure failures] eqn:Hfailed.
  - cbn [length Nat.ltb Nat.leb]. pose proof (proj1 Hnil eq_refl) as Hall.
    subst extracted. fold finalized.
    destruct finalized as [psbt' done]. cbn [fst snd].
    destruct (done ≫= _) as [tx|message].
    + eexists. split; [reflexivity|]. cbn.
      repeat split; eauto; try discriminate. intros Hnot. by destruct Hnot.
    + eexists. split; [reflexivity|]. cbn.
      repeat split; try discriminate; try tauto.
      by intros ? _ [= <-].
  - assert (¬ validated) as Hnot.
    { intros Hall. by apply Hnil in Hall. }
    eexists. split; [reflexivity|]. cbn.
    repeat split; try discriminate; try tauto.
    intros _. eexists. split; [reflexivity|].
    subst validates. cbn beta. rewrite <- Hsorted.
    cbn [length fmap list_fmap]. f_equal.
    by rewrite length_map, length_fmap.
Qed.

Lemma finalizePSBT_outcomes_witness :
  ∃ result,
    @PsbtTools.finalizePSBT _ (SampleLibrary.library Sample.plain)
      "cHNidP8=" None = Ok result ∧
    (PsbtTools.finalized result = true ↔
     PsbtTools.final_errors result = None).
Proof.
  destruct (@finalizePSBT_outcomes _ (SampleLibrary.library Sample.plain)
    "cHNidP8=" None
    ("base64:cHNidP8=" : @Psbt (Sample.external Sample.plain)) eq_refl)
    as (result & Hrun & _ & Herrors & _).
  exists result. split; [exact Hrun | exact Herrors].
Defined.

(** An unsigned PSBT is reported, not thrown. *)
Example finalizePSBT_unsigned :
  @PsbtTools.finalizePSBT _ (SampleLibrary.library Sample.plain)
    "cHNidP8=" None
  = Ok {| PsbtTools.finalized := false; PsbtTools.final_hex := None;
          PsbtTools.final_txid := None;
          PsbtTools.final_errors :=
            Some ["Input 0 validation failed: No signatures to validate"] |}.
Proof. reflexivity. Qed.

(** X18 — [update_psbt] on a PSBT that loads: the input index is refused
    with ['Invalid input index: <index>'] exactly when it is negative or
    not below the number of inputs; for an index in range every failure
    carries the prefix ['Failed to update PSBT: '], and with no update
    given (every field absent or an empty text) the PSBT comes back as it
    was loaded. *)
Theorem updatePSBT_outcomes `{Library} (text : string) (inputIndex : Z)
    (updates : PsbtTools.Updates) (network : option string) (psbt : Psbt) :
  Psbts.loadPSBT text network = Ok psbt →
  let outcome := PsbtTools.updatePSBT text inputIndex updates network in
  let inRange := 0 ≤ inputIndex < Z.of_nat (Psbt_inputCount psbt) in
  (¬ inRange ↔
   outcome = Throw ("Invalid input index: " +:+ Number_toString inputIndex)) ∧
  (inRange → ∀ message, outcome = Throw message →
     ∃ why, message = "Failed to update PSBT: " +:+ why) ∧
  (inRange →
   PsbtTools.up_witnessUtxo updates = None →
   JS.truthy (PsbtTools.up_nonWitnessUtxo updates) = None →
   JS.truthy (PsbtTools.up_redeemScript updates) = None →
   JS.truthy (PsbtTools.up_witnessScript updates) = None →
   PsbtTools.up_bip32Derivation updates = None →
   outcome = Ok {| PsbtTools.psbt := Psbt_toHex psbt;
                   PsbtTools.base64 := Psbt_toBase64 psbt |}).
Proof.
  intros Hload outcome inRange. subst outcome inRange.
  unfold PsbtTools.updatePSBT. rewrite Hload. cbn [mbind result_bind].
  destruct (Z.ltb_spec inputIndex 0) as [Hneg|Hpos]; cbn [orb].
  { split; [split; [done | lia]|]. split; intros; lia. }
  destruct (Z.geb_spec inputIndex (Z.of_nat (Psbt_inputCount psbt)))
    as [Hbig|Hsmall].
  { split; [split; [done | lia]|]. split; intros; lia. }
  split; [|split].
  - split; [lia|]. intros Hthrow. exfalso.
    destruct (_ ≫= _) as [?|message] in Hthrow; cbn [rethrow] in Hthrow;
      discriminate.
  - intros _ message.
    destruct (_ ≫= _) as [?|why]; cbn [rethrow]; [discriminate|].
    intros [= <-]. by eexists.
  - intros _ -> -> -> -> ->. reflexivity.
Qed.

Lemma updatePSBT_outcomes_witness :
  @PsbtTools.updatePSBT _ (SampleLibrary.library Sample.plain)
    "cHNidP8=" 1
    {| PsbtTools.up_witnessUtxo := None; PsbtTools.up_nonWitnessUtxo := None;
       PsbtTools.up_redeemScript := Some "51"; PsbtTools.up_witnessScript := None;
       PsbtTools.up_bip32Derivation := None |} None
  = Throw "Invalid input index: 1".
Proof.
  apply (proj1 (proj1 (@updatePSBT_outcomes _ (SampleLibrary.library Sample.plain)
    "cHNidP8=" 1
    {| PsbtTools.up_witnessUtxo := None; PsbtTools.up_nonWitnessUtxo := None;
       PsbtTools.up_redeemScript := Some "51"; PsbtTools.up_witnessScript := None;
       PsbtTools.up_bip32Derivation := None |} None
    ("base64:cHNidP8=" : @Psbt (Sample.external Sample.plain)) eq_refl))).
  cbn. lia.
Defined.

(** ** Hex texts and hashing *)

Module HexFacts.

Lemma byteToHex_hexClass (b : Byte.byte) :
  Forall (fun c => RegExp.hexClass c = true) (JS.byteToHex b).
Proof. destruct b; repeat constructor. Qed.

Lemma toHex_chars (buf : Buffer) :
  JS.chars (JS.toHex buf) = concat (map JS.byteToHex buf).
Proof. apply StringFacts.chars_of_list. Qed.

Lemma toHex_length (buf : Buffer) :
  String.length (JS.toHex buf) = (2 * length buf)%nat.
Proof.
  rewrite <- StringFacts.length_chars, toHex_chars.
  induction buf as [|b buf IH]; [done|].
  change (concat (map JS.byteToHex (b :: buf)))
    with (JS.byteToHex b ++ concat (map JS.byteToHex buf)).
  rewrite length_app, IH. cbn [JS.byteToHex length]. lia.
Qed.

Lemma toHex_valid (buf : Buffer) : Utils.isValidHex (JS.toHex buf) = true.
Proof.
  apply UtilsFacts.isValidHex_iff. split.
  - rewrite toHex_chars. apply Forall_concat, Forall_fmap, Forall_true.
    intros b. cbn. eapply Forall_impl; [apply byteToHex_hexClass|].
    intros c. apply UtilsFacts.hexClass_isHexDigit.
  - rewrite toHex_length. by exists (length buf).
Qed.

Lemma hexDigit_hexValue (c : ascii) (x : N) :
  JS.hexValue c = Some x → JS.hexDigit x = JS.toLowerChar c ∧ (x < 16)%N.
Proof.
  destruct c as [[] [] [] [] [] [] [] []]; vm_compute; try discriminate;
    intros [= <-]; done.
Qed.

Lemma pair_encodes (a b : ascii) (x y : N) (byte : Byte.byte) :
  JS.hexValue a = Some x → JS.hexValue b = Some y →
  Byte.of_N (16 * x + y) = Some byte →
  JS.byteToHex byte = [JS.toLowerChar a; JS.toLowerChar b].
Proof.
  intros [<- Hx]%hexDigit_hexValue [<- Hy]%hexDigit_hexValue Hbyte.
  apply Byte.to_of_N in Hbyte. unfold JS.byteToHex. rewrite Hbyte.
  cbv zeta. f_equal; [|f_equal]; f_equal.
  - symmetry. apply (N.div_unique _ 16 x y); lia.
  - symmetry. apply (N.mod_unique _ 16 x y); lia.
Qed.

Lemma toLowerCase_chars (s : string) :
  JS.chars (JS.toLowerCase s) = map JS.toLowerChar (JS.chars s).
Proof.
  induction s as [|c s IH]; [done|].
  cbn [JS.toLowerCase]. unfold JS.chars in *.
  cbn [list_ascii_of_string map]. by rewrite IH.
Qed.

Lemma encode_decoded (s : list ascii) :
  Forall (fun c => RegExp.hexClass c = true) s → Nat.Even (length s) →
  concat (map JS.byteToHex (JS.bufferFromHex_go s)) = map JS.toLowerChar s.
Proof.
  intros Hall [half Hlen]. revert s Hall Hlen.
  induction half as [|half IH]; intros s Hall Hlen.
  - by destruct s.
  - destruct s as [|a [|b r]]; cbn [length] in Hlen; [lia|lia|].
    apply Forall_cons in Hall as [Ha Hall].
    apply Forall_cons in Hall as [Hb Hall].
    destruct (MultisigFacts.hexValue_bound a Ha) as (x & Hx & Hxb).
    destruct (MultisigFacts.hexValue_bound b Hb) as (y & Hy & Hyb).
    cbn [JS.bufferFromHex_go]. rewrite Hx, Hy.
    destruct (Byte.of_N (16 * x + y)) as [byte|] eqn:Hbyte.
    + change (concat (map JS.byteToHex (byte :: JS.bufferFromHex_go r)))
        with (JS.byteToHex byte
              ++ concat (map JS.byteToHex (JS.bufferFromHex_go r))).
      rewrite (pair_encodes a b x y byte Hx Hy Hbyte), IH by (done || lia).
      reflexivity.
    + apply Byte.of_N_None_iff in Hbyte. lia.
Qed.

Lemma toHex_bufferFromHex (s : string) :
  Utils.isValidHex s = true →
  JS.toHex (JS.bufferFromHex s) = JS.toLowerCase s.
Proof.
  intros [Hall Heven]%UtilsFacts.isValidHex_iff.
  apply StringFacts.chars_inj.
  rewrite toHex_chars, toLowerCase_chars. unfold JS.bufferFromHex.
  apply encode_decoded.
  - eapply Forall_impl; [done|]. intros c. apply UtilsFacts.hexClass_isHexDigit.
  - by rewrite StringFacts.length_chars.
Qed.

End HexFacts.

(** X19 — hex texts round trip: the hex text of any bytes passes
    [isValidHex], has two digits per byte and decodes back to the same
    bytes; decoding a text that passes [isValidHex] and encoding the
    result gives the text in lower case, with one byte for every two
    digits. *)
Theorem hex_round_trip :
  (∀ buf : Buffer,
     Utils.isValidHex (JS.toHex buf) = true ∧
     JS.bufferFromHex (JS.toHex buf) = buf ∧
     String.length (JS.toHex buf) = (2 * length buf)%nat) ∧
  (∀ text : string,
     Utils.isValidHex text = true →
     JS.toHex (JS.bufferFromHex text) = JS.toLowerCase text ∧
     (2 * length (JS.bufferFromHex text))%nat = String.length text).
Proof.
  split.
  - intros buf. split; [apply HexFacts.toHex_valid|].
    split; [apply TxFacts.bufferFromHex_toHex | apply HexFacts.toHex_length].
  - intros text Hvalid. split; [by apply HexFacts.toHex_bufferFromHex|].
    apply UtilsFacts.isValidHex_iff in Hvalid as [Hall [half Hlen]].
    rewrite (MultisigFacts.bufferFromHex_length text Hall), Hlen.
    rewrite (Nat.mul_comm 2 half), Nat.div_mul by done. lia.
Qed.

(** X20 — [hash_message]: a hash that is returned is valid hex, and the
    hash type reported is the one asked for (sha256 when absent), one of
    sha256, hash160, hash256 and taggedHash, compared as written.  With
    encoding ['hex'] a message that is not valid hex throws ['Invalid hex
    message'] whatever the hash type; every other encoding is read as
    UTF-8, and hashing a text that way is hashing the hex text of its
    UTF-8 bytes with encoding ['hex'].  A tagged hash without a tag
    throws ['Tag required for tagged hash']. *)
Theorem hashMessage_outcomes `{Library} (message : string)
    (hashType tag encoding : option string) :
  let outcome := UtilityTools.hashMessage message hashType tag encoding in
  (∀ hashed, outcome = Ok hashed →
     Utils.isValidHex (UtilityTools.hash hashed) = true ∧
     UtilityTools.hashType hashed = JS.orDefault hashType "sha256" ∧
     UtilityTools.hashType hashed
       ∈ ["sha256"; "hash160"; "hash256"; "taggedHash"]) ∧
  (JS.orDefault encoding "utf8" = "hex" →
   Utils.isValidHex message = false →
   outcome = Throw "Invalid hex message") ∧
  (JS.orDefault encoding "utf8" ≠ "hex" →
   outcome =
     UtilityTools.hashMessage
       (JS.toHex (UtilityTools.Buffer_fromUtf8 message)) hashType tag
       (Some "hex")) ∧
  (JS.orDefault hashType "sha256" = "taggedHash" → JS.truthy tag = None →
   is_ok outcome = false ∧
   (outcome = Throw "Tag required for tagged hash" ∨
    outcome = Throw "Invalid hex message")).
Proof.
  intros outcome. subst outcome. unfold UtilityTools.hashMessage.
  split; [|split; [|split]].
  - intros hashed.
    destruct (if (JS.orDefault encoding "utf8" =? "hex")%string then _ else _)
      as [messageBuffer|]; cbn [mbind result_bind]; [|discriminate].
    destruct (String.eqb_spec (JS.orDefault hashType "sha256") "sha256")
      as [Ht|_].
    { cbn [mbind result_bind]. intros [= <-]. cbn. rewrite Ht.
      split; [apply HexFacts.toHex_valid|]. split; [done|]. repeat constructor. }
    destruct (String.eqb_spec (JS.orDefault hashType "sha256") "hash160")
      as [Ht|_].
    { cbn [mbind result_bind]. intros [= <-]. cbn. rewrite Ht.
      split; [apply HexFacts.toHex_valid|]. split; [done|]. repeat constructor. }
    destruct (String.eqb_spec (JS.orDefault hashType "sha256") "hash256")
      as [Ht|_].
    { cbn [mbind result_bind]. intros [= <-]. cbn. rewrite Ht.
      split; [apply HexFacts.toHex_valid|]. split; [done|]. repeat constructor. }
    destruct (String.eqb_spec (JS.orDefault hashType "sha256") "taggedHash")
      as [Ht|_]; [|discriminate].
    destruct (JS.truthy tag) as [given|]; [|discriminate].
    destruct (crypto_taggedHash given messageBuffer); cbn [mbind result_bind];
      [|discriminate].
    intros [= <-]. cbn. rewrite Ht.
    split; [apply HexFacts.toHex_valid|]. split; [done|]. repeat constructor.
  - intros -> ->. reflexivity.
  - intros Hutf8.
    destruct (String.eqb_spec (JS.orDefault encoding "utf8") "hex"); [done|].
    change (JS.orDefault (Some "hex") "utf8") with "hex".
    change ("hex" =? "hex")%string with true. cbv iota.
    rewrite HexFacts.toHex_valid, TxFacts.bufferFromHex_toHex. reflexivity.
  - intros -> ->.
    destruct (if (JS.orDefault encoding "utf8" =? "hex")%string then _ else _)
      as [messageBuffer|message'] eqn:Hbuffer; cbn [mbind result_bind].
    + split; [done | by left].
    + split; [done|]. right.
      destruct (JS.orDefault encoding "utf8" =? "hex")%string; [|discriminate].
      destruct (negb (Utils.isValidHex message)); [|discriminate].
      by injection Hbuffer as <-.
Qed.

(** The encoding is compared as written: ['HEX'] is read as UTF-8, so the
    digits themselves are hashed. *)
Example hashMessage_encoding_exact :
  @UtilityTools.hashMessage _ (SampleLibrary.library Sample.plain)
    "0aff" None None (Some "hex")
  = Ok {| UtilityTools.hash := "ff0a"; UtilityTools.hashType := "sha256" |} ∧
  @UtilityTools.hashMessage _ (SampleLibrary.library Sample.plain)
    "0aff" None None (Some "HEX")
  = Ok {| UtilityTools.hash := "66666130";
          UtilityTools.hashType := "sha256" |}.
Proof. split; reflexivity. Qed.

(** ** Scripts and keys *)

Module ScriptFacts.
Section WithExternal.
Context `{External}.

Lemma convertKeys_multisigKeys (keys : list string) :
  ∀ index pubkeys,
    Utility.convertKeys index keys = Ok pubkeys →
    Utility.multisigKeys keys = Ok pubkeys.
Proof.
  induction keys as [|key rest IH]; intros index pubkeys;
    cbn [Utility.convertKeys Utility.multisigKeys]; [done|].
  unfold Utility.convertKey.
  destruct (negb (RegExp.test RegExp.hexPlus key)); [discriminate|].
  destruct (negb (length (JS.bufferFromHex key) =? 33)%nat
            && negb (length (JS.bufferFromHex key) =? 65)%nat);
    [discriminate|].
  cbn [mbind result_bind].
  destruct (Utility.convertKeys (S index) rest) as [others|] eqn:Hrest;
    cbn [mbind result_bind]; [|discriminate].
  rewrite (IH _ _ Hrest). done.
Qed.

End WithExternal.
End ScriptFacts.

(** X21 — [compile_script] with script type multisig agrees with
    [create_multisig]: where [create_multisig] returns for the same m,
    keys and network with address type p2sh and with p2wsh, so does
    [compile_script] (no ASM given), its script is the redeem script of
    both, and its [p2sh] and [p2wsh] addresses are their addresses. *)
Theorem compileScript_multisig_agrees `{External} (m : Z)
    (publicKeys : list string) (network : option string)
    (scriptAsm publicKey publicKeyHash scriptHash data : option string)
    (viaP2sh viaP2wsh : Utility.MultisigInfo) :
  JS.truthy scriptAsm = None →
  Utility.createMultisig m publicKeys network (Some "p2sh") = Ok viaP2sh →
  Utility.createMultisig m publicKeys network (Some "p2wsh") = Ok viaP2wsh →
  ∃ compiled,
    Utility.compileScript scriptAsm (Some "multisig") publicKey publicKeyHash
      scriptHash data (Some (m, publicKeys)) network = Ok compiled ∧
    Utility.type compiled = "multisig" ∧
    Utility.hex compiled = Utility.redeemScript viaP2sh ∧
    Utility.hex compiled = Utility.redeemScript viaP2wsh ∧
    Utility.witnessScript viaP2wsh = Some (Utility.hex compiled) ∧
    Utility.script_p2sh compiled = Some (Utility.address viaP2sh) ∧
    Utility.script_p2wsh compiled = Some (Utility.address viaP2wsh).
Proof.
  intros Hasm. unfold Utility.createMultisig, Utility.compileScript.
  destruct (Utils.resolveNetwork network) as [net|]; cbn [mbind result_bind];
    [|discriminate].
  rewrite Hasm.
  destruct ((m <=? 0) || (m >? Z.of_nat (length publicKeys))); [discriminate|].
  destruct ((length publicKeys <? 1)%nat || (15 <? length publicKeys)%nat);
    [discriminate|].
  destruct (Utility.convertKeys 0 publicKeys) as [pubkeys|] eqn:Hkeys;
    cbn [mbind result_bind]; [|discriminate].
  rewrite (ScriptFacts.convertKeys_multisigKeys _ _ _ Hkeys).
  cbn [mbind result_bind].
  destruct (payments_p2ms m pubkeys net) as [redeem|];
    cbn [mbind result_bind]; [|discriminate].
  change (JS.orDefault (Some "p2sh") "p2sh") with "p2sh".
  change (JS.orDefault (Some "p2wsh") "p2sh") with "p2wsh".
  change (JS.orDefault (Some "multisig") "p2pkh") with "multisig".
  cbn [String.eqb Ascii.eqb Bool.eqb].
  destruct (payments_p2sh redeem net) as [p2sh|]; cbn [mbind result_bind];
    [|discriminate].
  intros [= <-].
  destruct (payments_p2wsh redeem net) as [p2wsh|]; cbn [mbind result_bind];
    [|discriminate].
  intros [= <-]. eexists. split; [reflexivity|]. cbn. done.
Qed.

Lemma compileScript_multisig_agrees_witness :
  ∃ compiled,
    @Utility.compileScript (Sample.external Sample.plain) None
      (Some "multisig") None None None None
      (Some (1, [Sample.key33; Sample.key33])) None = Ok compiled ∧
    Utility.type compiled = "multisig" ∧
    Utility.script_p2sh compiled ≠ None.
Proof.
  destruct (@compileScript_multisig_agrees (Sample.external Sample.plain) 1
    [Sample.key33; Sample.key33] None None None None None None _ _
    eq_refl eq_refl eq_refl)
    as (compiled & Hrun & Htype & _ & _ & _ & Hp2sh & _).
  exists compiled. split; [exact Hrun|]. split; [exact Htype|].
  rewrite Hp2sh. discriminate.
Defined.

Module RenderFacts.

Lemma uint_digits (d : Decimal.uint) :
  Forall Paths.isDigit (JS.chars (NilEmpty.string_of_uint d)).
Proof. induction d; cbn; constructor; done. Qed.

Lemma readDigits_acc (d : Decimal.uint) (p : positive) :
  JS.readDigits (Z.pos p) true (JS.chars (NilEmpty.string_of_uint d))
  = Some (Z.pos (Pos.of_uint_acc d p)).
Proof.
  revert p. induction d; intros p; cbn [NilEmpty.string_of_uint JS.chars
    list_ascii_of_string JS.readDigits Pos.of_uint_acc]; [done|..];
    (change (JS.digitValue _) with (Some 0) ||
     change (JS.digitValue _) with (Some 1) ||
     change (JS.digitValue _) with (Some 2) ||
     change (JS.digitValue _) with (Some 3) ||
     change (JS.digitValue _) with (Some 4) ||
     change (JS.digitValue _) with (Some 5) ||
     change (JS.digitValue _) with (Some 6) ||
     change (JS.digitValue _) with (Some 7) ||
     change (JS.digitValue _) with (Some 8) ||
     change (JS.digitValue _) with (Some 9));
    cbv iota; fold (JS.chars (NilEmpty.string_of_uint d));
    rewrite <- IHd; f_equal; lia.
Qed.

Lemma readDigits_zero (d : Decimal.uint) (seen : bool) :
  JS.readDigits 0 seen (JS.chars (NilEmpty.string_of_uint d))
  = match d with
    | Decimal.Nil => if seen then Some 0 else None
    | _ => Some (Z.of_N (Pos.of_uint d))
    end.
Proof.
  revert seen. induction d; intros seen; [done|..];
    cbn [NilEmpty.string_of_uint JS.chars list_ascii_of_string JS.readDigits
         Pos.of_uint];
    (change (JS.digitValue _) with (Some 0) ||
     change (JS.digitValue _) with (Some 1) ||
     change (JS.digitValue _) with (Some 2) ||
     change (JS.digitValue _) with (Some 3) ||
     change (JS.digitValue _) with (Some 4) ||
     change (JS.digitValue _) with (Some 5) ||
     change (JS.digitValue _) with (Some 6) ||
     change (JS.digitValue _) with (Some 7) ||
     change (JS.digitValue _) with (Some 8) ||
     change (JS.digitValue _) with (Some 9));
    cbv iota; fold (JS.chars (NilEmpty.string_of_uint d)).
  - change (10 * 0 + 0) with 0. rewrite IHd. by destruct d.
  - apply (readDigits_acc d 1).
  - apply (readDigits_acc d 2).
  - apply (readDigits_acc d 3).
  - apply (readDigits_acc d 4).
  - apply (readDigits_acc d 5).
  - apply (readDigits_acc d 6).
  - apply (readDigits_acc d 7).
  - apply (readDigits_acc d 8).
  - apply (readDigits_acc d 9).
Qed.

Lemma to_uint_nonnil (n : N) : N.to_uint n ≠ Decimal.Nil.
Proof. destruct n; [done|]. apply DecimalPos.Unsigned.to_uint_nonnil. Qed.

Lemma NToString_digits (n : N) : Forall Paths.isDigit (JS.chars (JS.NToString n)).
Proof. apply uint_digits. Qed.

Lemma NToString_nonempty (n : N) : JS.NToString n ≠ "".
Proof.
  unfold JS.NToString. pose proof (to_uint_nonnil n).
  by destruct (N.to_uint n).
Qed.

(** Reading the decimal text of a number gives the number back. *)
Lemma parseInt_NToString (n : N) : JS.parseInt (JS.NToString n) = Some (Z.of_N n).
Proof.
  unfold JS.parseInt, JS.NToString.
  pose proof (readDigits_zero (N.to_uint n) false) as Hread.
  pose proof (to_uint_nonnil n) as Hnil.
  rewrite <- (DecimalN.Unsigned.of_to n) at 2. unfold N.of_uint.
  destruct (N.to_uint n) as [|d|d|d|d|d|d|d|d|d|d]; [done|..];
    exact Hread.
Qed.

End RenderFacts.

Module RoundTripFacts.

Lemma digits_unmarked (s : string) (c : ascii) :
  Forall Paths.isDigit (JS.chars s) → Paths.isDigit c ∨ JS.endsWith s c = false.
Proof.
  intros Hall. destruct (JS.endsWith s c) eqn:Hends; [|by right]. left.
  apply PathFacts.endsWith_snoc in Hends as [body ->].
  rewrite StringFacts.chars_app in Hall. apply Forall_app in Hall as [_ Hc].
  by apply Forall_cons in Hc as [Hc _].
Qed.

Lemma NToString_unmarked (n : N) :
  JS.endsWith (JS.NToString n) "'" || JS.endsWith (JS.NToString n) "h" = false.
Proof.
  destruct (digits_unmarked _ "'" (RenderFacts.NToString_digits n)) as [ ? | -> ];
    [done|].
  destruct (digits_unmarked _ "h" (RenderFacts.NToString_digits n)) as [ ? | -> ];
    done.
Qed.

Lemma in_range (n : N) :
  (n < 2 ^ 31)%N → (Z.of_N n <? 0) || (Z.of_N n >=? 0x80000000) = false.
Proof.
  intros Hn. apply orb_false_iff. split; [apply Z.ltb_ge; lia|].
  rewrite Z.geb_leb. apply Z.leb_gt. lia.
Qed.

Lemma derivationIndex_render (step : Paths.Step) :
  (Paths.stepNumber step < 2 ^ 31)%N →
  Utility.derivationIndex (Paths.renderStep step) = Ok (Paths.stepIndex step).
Proof.
  intros Hn. unfold Utility.derivationIndex.
  destruct step as [i|i]; cbn [Paths.renderStep Paths.stepIndex Paths.stepNumber] in *.
  - rewrite NToString_unmarked, RenderFacts.parseInt_NToString, in_range by done.
    reflexivity.
  - rewrite (proj2 (PathFacts.endsWith_snoc (JS.NToString i +:+ "'") "'"))
      by by eexists.
    cbn [orb]. rewrite PathFacts.dropLast_snoc, RenderFacts.parseInt_NToString,
      in_range by done.
    reflexivity.
Qed.

Lemma renderStep_nonempty (step : Paths.Step) : Paths.renderStep step ≠ "".
Proof.
  destruct step as [i|i]; cbn [Paths.renderStep].
  - apply RenderFacts.NToString_nonempty.
  - pose proof (RenderFacts.NToString_nonempty i). by destruct (JS.NToString i).
Qed.

Lemma renderStep_no_slash (step : Paths.Step) :
  "/"%char ∉ JS.chars (Paths.renderStep step).
Proof.
  assert (∀ i, "/"%char ∉ JS.chars (JS.NToString i)) as Hdigits.
  { intros i Hin.
    pose proof (RenderFacts.NToString_digits i) as Hall.
    rewrite Forall_forall in Hall. by apply Hall in Hin. }
  destruct step as [i|i]; cbn [Paths.renderStep]; [apply Hdigits|].
  rewrite StringFacts.chars_app, elem_of_app. intros [Hin|Hin].
  - by apply Hdigits in Hin.
  - change (JS.chars "'") with ["'"%char] in Hin.
    apply elem_of_cons in Hin as [Hin|Hin]; [discriminate|].
    by apply elem_of_nil in Hin.
Qed.

(** Cutting a text at the slashes when its first piece has none. *)
Lemma split_go_piece (piece : list ascii) (cur rest : list ascii) :
  "/"%char ∉ piece →
  JS.split_go "/" cur (piece ++ rest) = JS.split_go "/" (rev piece ++ cur) rest.
Proof.
  revert cur. induction piece as [|c piece IH]; intros cur Hno; [done|].
  apply not_elem_of_cons in Hno as [Hc Hno].
  cbn [app JS.split_go]. destruct (Ascii.eqb_spec c "/"); [congruence|].
  rewrite IH by done. cbn [rev]. by rewrite <- app_assoc.
Qed.

Lemma split_join_segments (segments : list string) :
  segments ≠ [] →
  Forall (fun segment => "/"%char ∉ JS.chars segment) segments →
  JS.split "/" (Spec.join segments) = segments.
Proof.
  unfold JS.split. induction segments as [|segment rest IH]; [done|].
  intros _ [Hno Hrest]%Forall_cons. destruct rest as [|next rest].
  - cbn [Spec.join]. rewrite <- (app_nil_r (JS.chars segment)).
    rewrite split_go_piece by done. cbn [JS.split_go].
    by rewrite app_nil_r, rev_involutive, StringFacts.of_list_chars.
  - rewrite PathFacts.join_cons by done.
    rewrite !StringFacts.chars_app, split_go_piece by done.
    change (JS.chars "/") with ["/"%char]. cbn [app JS.split_go].
    change (Ascii.eqb "/" "/") with true. cbv iota.
    rewrite app_nil_r, rev_involutive, StringFacts.of_list_chars.
    f_equal. by apply IH.
Qed.

Section WithExternal.
Context `{External}.

Lemma derivePath_render (steps : list Paths.Step) (node : BIP32Node) :
  Forall (fun step => (Paths.stepNumber step < 2 ^ 31)%N) steps →
  Utility.derivePath (map Paths.renderStep steps) node
  = Spec.deriveAll node (map Paths.stepIndex steps).
Proof.
  intros Hall. revert node.
  induction Hall as [|step steps Hstep Hall IH]; intros node; [done|].
  cbn [map Utility.derivePath Spec.deriveAll].
  destruct (String.eqb_spec (Paths.renderStep step) "") as [Hempty|_];
    [by apply renderStep_nonempty in Hempty|].
  rewrite derivationIndex_render by done. cbn [mbind result_bind].
  destruct (BIP32_derive node (Paths.stepIndex step)); cbn [mbind result_bind];
    [apply IH | done].
Qed.

End WithExternal.
End RoundTripFacts.

(** X22 — a derivation path written in the usual way is read back as
    meant: for steps with numbers below 2^31, the text [m/] followed by
    the steps in decimal, a ['] after each hardened one, separated by
    slashes, is cut into exactly those steps, each step is read as its
    number (plus 0x80000000 when hardened, also when marked with [h]),
    and the derivation runs through the steps in order. *)
Theorem rendered_path_round_trip `{External} (steps : list Paths.Step)
    (node : BIP32Node) :
  Forall (fun step => (Paths.stepNumber step < 2 ^ 31)%N) steps →
  (steps ≠ [] →
   Utility.pathSegments (Paths.renderPath steps) = map Paths.renderStep steps) ∧
  Forall (fun step =>
            Utility.derivationIndex (Paths.renderStep step)
              = Ok (Paths.stepIndex step) ∧
            Utility.derivationIndex (JS.NToString (Paths.stepNumber step) +:+ "h")
              = Ok (Z.of_N (Paths.stepNumber step) + Spec.hardenedOffset))
         steps ∧
  Utility.derivePath (Utility.pathSegments (Paths.renderPath steps)) node
    = Spec.deriveAll node (map Paths.stepIndex steps).
Proof.
  intros Hall.
  assert (Hsegments : steps ≠ [] →
    Utility.pathSegments (Paths.renderPath steps) = map Paths.renderStep steps).
  { intros Hsome. unfold Utility.pathSegments, Paths.renderPath.
    change (JS.stripPrefix_m_slash ("m/" +:+ ?rest)) with rest.
    apply RoundTripFacts.split_join_segments.
    - by destruct steps.
    - apply Forall_fmap, Forall_true. intros step.
      apply RoundTripFacts.renderStep_no_slash. }
  split; [done|]. split.
  - eapply Forall_impl; [exact Hall|]. intros step Hstep. cbn beta in *. split.
    + by apply RoundTripFacts.derivationIndex_render.
    + unfold Utility.derivationIndex.
      rewrite (proj2 (PathFacts.endsWith_snoc
                        (JS.NToString (Paths.stepNumber step) +:+ "h") "h"))
        by by eexists.
      rewrite orb_true_r, PathFacts.dropLast_snoc,
        RenderFacts.parseInt_NToString, RoundTripFacts.in_range by done.
      reflexivity.
  - destruct steps as [|step steps]; [reflexivity|].
    rewrite Hsegments by done. by apply RoundTripFacts.derivePath_render.
Qed.

Lemma rendered_path_round_trip_witness :
  Utility.pathSegments
    (Paths.renderPath [Paths.Hardened 84; Paths.Hardened 0; Paths.Normal 5])
  = ["84'"; "0'"; "5"].
Proof.
  refine (proj1 (@rendered_path_round_trip (Sample.external Sample.plain)
    [Paths.Hardened 84; Paths.Hardened 0; Paths.Normal 5] [] _) _).
  - repeat constructor.
  - discriminate.
Defined.

(** ** Decoding *)

Module DecodeFacts.

Lemma map_imap {A B C} (f : nat → A → B) (g : B → C) (h : A → C) (l : list A) :
  (∀ n x, g (f n x) = h x) → map g (imap f l) = map h l.
Proof.
  revert f. induction l as [|x l IH]; intros f Hf; [done|].
  cbn [imap map]. rewrite Hf. f_equal. apply IH. intros n y. apply Hf.
Qed.

End DecodeFacts.

(** X23 — when [decode_transaction] returns, it echoes the hex it was
    given, [validate_transaction] on the same arguments returns as well
    and reports the same txid and size, the decoded inputs name, as
    [txid:vout], exactly the outpoints [validate_transaction] compares for
    duplicates, and the decoded outputs carry the values of the
    transaction's outputs in order, each with the address of its script
    or none when the script has no address. *)
Theorem decodeTransaction_agrees_with_validateTransaction `{Library}
    (hex : string) (network : option string)
    (info : TransactionTools.TransactionInfo) :
  TransactionTools.decodeTransaction hex network = Ok info →
  TransactionTools.info_hex info = hex ∧
  ∃ tx report net,
    Utils.resolveNetwork network = Ok net ∧
    Transaction_fromHex hex = Ok tx ∧
    Transactions.validateTransaction hex network = Ok report ∧
    Transactions.txid report = Some (TransactionTools.info_txid info) ∧
    Transactions.byteSize report = Some (TransactionTools.info_size info) ∧
    map (fun input =>
           TransactionTools.input_txid input +:+ ":"
           +:+ JS.NToString (TransactionTools.input_vout input))
        (TransactionTools.info_inputs info)
      = map Transactions.inputId (ins tx) ∧
    map TransactionTools.output_amount (TransactionTools.info_outputs info)
      = map value (outs tx) ∧
    map TransactionTools.output_address (TransactionTools.info_outputs info)
      = map (fun output =>
               match address_fromOutputScript (script output) net with
               | Ok address => Some address
               | Throw _ => None
               end) (outs tx).
Proof.
  unfold TransactionTools.decodeTransaction, Transactions.validateTransaction.
  destruct (Utils.validateNetwork (JS.orDefault network "testnet")) eqn:Hvalid;
    cbn [negb]; [|discriminate].
  destruct (Utils.isValidHex hex); cbn [negb]; [|discriminate].
  destruct (Utils.getNetworkConfig (JS.orDefault network "testnet"))
    as [net|] eqn:Hconf; cbn [mbind result_bind]; [|discriminate].
  destruct (Transaction_fromHex hex) as [tx|]; cbn [mbind result_bind];
    [|discriminate].
  intros [= <-]. cbn. split; [done|].
  exists tx. eexists. exists net.
  split; [by apply BuildFacts.resolveNetwork_ok|].
  split; [done|]. split; [reflexivity|]. cbn.
  split; [done|]. split; [done|]. split; [|split].
  - by apply DecodeFacts.map_imap.
  - rewrite map_map. reflexivity.
  - rewrite map_map. reflexivity.
Qed.

Lemma decodeTransaction_agrees_with_validateTransaction_witness :
  ∃ info,
    @TransactionTools.decodeTransaction _ (SampleLibrary.library Sample.plain)
      "0200" None = Ok info ∧
    TransactionTools.info_hex info = "0200".
Proof.
  eexists. split; [reflexivity|].
  exact (proj1 (@decodeTransaction_agrees_with_validateTransaction _
    (SampleLibrary.library Sample.plain) "0200" None _ eq_refl)).
Defined.

Module DecodePsbtFacts.

Lemma mapWithIndex_length {A B} (callback : A → nat → result B)
    (items : list A) :
  ∀ position decoded,
    PsbtTools.mapWithIndex callback position items = Ok decoded →
    length decoded = length items.
Proof.
  induction items as [|item rest IH]; intros position decoded;
    cbn [PsbtTools.mapWithIndex]; [by intros [= <-]|].
  destruct (callback item position); cbn [mbind result_bind]; [|discriminate].
  destruct (PsbtTools.mapWithIndex callback (S position) rest) eqn:Hrest;
    cbn [mbind result_bind]; [|discriminate].
  intros [= <-]. cbn [length]. f_equal. by eapply IH.
Qed.

End DecodePsbtFacts.

(** X24 — [decode_psbt] never reports [extractable] as false: it returns
    only when the PSBT loads, the fee and the fee rate can be computed and
    the final transaction can be extracted, and then [extractable] is
    true, with one decoded input and output per input and output of the
    PSBT.  A PSBT whose final transaction cannot be extracted makes the
    call throw instead. *)
Theorem decodePSBT_extractable `{Library} (text : string)
    (network : option string) :
  (∀ decoded,
     PsbtTools.decodePSBT text network = Ok decoded →
     PsbtTools.extractable decoded = true ∧
     ∃ psbt,
       Psbts.loadPSBT text network = Ok psbt ∧
       is_ok (Psbt_extractTransaction psbt false) = true ∧
       Psbt_getFee psbt = Ok (PsbtTools.dec_fee decoded) ∧
       Psbt_getFeeRate psbt = Ok (PsbtTools.dec_feeRate decoded) ∧
       length (PsbtTools.dec_inputs decoded) = length (Psbt_data_inputs psbt) ∧
       length (PsbtTools.dec_outputs decoded)
         = length (Psbt_data_outputs psbt)) ∧
  (∀ psbt,
     Psbts.loadPSBT text network = Ok psbt →
     is_ok (Psbt_extractTransaction psbt false) = false →
     is_ok (PsbtTools.decodePSBT text network) = false).
Proof.
  unfold PsbtTools.decodePSBT, Psbts.loadPSBT.
  destruct (Utils.resolveNetwork network) as [net|]; cbn [mbind result_bind];
    [|split; [discriminate | done]].
  destruct (rethrow _ (Psbts.parsePSBT text net)) as [psbt|];
    cbn [mbind result_bind]; [|split; [discriminate | done]].
  destruct (Psbt_extractTransaction psbt true) as [tx|];
    cbn [mbind result_bind]; [|split; [discriminate | done]].
  destruct (PsbtTools.mapWithIndex _ 0 (Psbt_data_inputs psbt))
    as [inputs|] eqn:Hinputs; cbn [mbind result_bind];
    [|split; [discriminate | done]].
  destruct (PsbtTools.mapWithIndex _ 0 (Psbt_data_outputs psbt))
    as [outputs|] eqn:Houtputs; cbn [mbind result_bind];
    [|split; [discriminate | done]].
  destruct (Psbt_getFee psbt) as [fee|] eqn:Hfee; cbn [mbind result_bind];
    [|split; [discriminate | done]].
  destruct (Psbt_getFeeRate psbt) as [feeRate|] eqn:Hrate; cbn [mbind result_bind];
    [|split; [discriminate | done]].
  destruct (Psbt_extractTransaction psbt false) as [final|] eqn:Hfinal;
    cbn [mbind result_bind].
  - split; [|by intros ? [= <-]; rewrite Hfinal].
    intros decoded [= <-]. cbn. split; [done|]. exists psbt.
    rewrite Hfinal. split; [done|]. split; [done|]. split; [done|].
    split; [done|]. split.
    + exact (DecodePsbtFacts.mapWithIndex_length _ _ _ _ Hinputs).
    + exact (DecodePsbtFacts.mapWithIndex_length _ _ _ _ Houtputs).
  - split; [discriminate | done].
Qed.

(** A PSBT that is not finalized cannot be decoded: the first
    [extractTransaction] refuses it. *)
Example decodePSBT_unsigned_throws :
  @PsbtTools.decodePSBT _ (SampleLibrary.library Sample.plain) "cHNidP8=" None
  = Throw "Not finalized".
Proof. reflexivity. Qed.
